(** * DefScribe speaker diarization: the worker, its supervisor and the
      same-thread hook, embedded from the TypeScript sources.

    The model:
    - [JS]         the JavaScript number and array primitives the code uses
                   (IEEE 754 binary64 through Rocq's primitive floats).
    - [Meyda]      the object the worker finds in [self.Meyda]: what the
                   configuration and the frames ask of it, the object of
                   the script as it stands, and the RMS feature.
    - [Worker]     the worker script of the worker-isolated [useDiarization]
                   hook: module-level state, [cosineDistance], [flushQueue],
                   [endCurrentSegment], [processFrame], [self.onmessage].
    - [Hook]       [endCurrentSegment] of the same-thread hook
                   (hooks/useDiarization.ts).
    - [Supervisor] the heartbeat / restart logic of the worker-isolated hook
                   ([start], with its [catch] branch and the [isCancelled]
                   returns, the [setInterval] callback and
                   [worker.onmessage]).
    - [WorkerSpec], [Scenario], [Sign]  the vocabulary of the statements
                   and a few concrete sessions.
    - [SessionSpec] the vocabulary for whole sessions of the worker.
    - [Worklet]    the audio worklet of the worker-isolated hook
                   ([DiarizationAudioProcessor]).
    - [Capture]    the callback that forwards its chunks to the worker
                   ([workletNode.port.onmessage]) and the vocabulary for
                   [worker.onmessage].
    - [SameThread] the same-thread hook: [calculateFeatures],
                   [calculateSimilarity], [detectSpeaker],
                   [processAudioData], [resetDiarization], [cleanup].
    - [Quantize]   the audio worklet of the same-thread hook
                   ([DiarizationProcessor]).
    - [Transcript] the speaker of a transcript entry
                   (hooks/useTranscript.ts).
    - [Cases]      concrete inputs for them.

    The facts:
    - [SFOrder], [FloatOrder], [SFSign], [FloatSign]  order, NaN and sign
                   of binary64 numbers.
    - [WorkerFacts]     dropped and raising frames, configuration, stop,
                        the worker as the script stands.
    - [SupervisorFacts] the heartbeat.
    - [VadFacts]        the adaptive threshold and the silence counter.
    - [ClusterFacts]    nearest-centroid clustering.
    - [SpeakerFacts]    the speakers of a session.
    - [OrderFacts]      the order of the finalized segments.
    - [Checks]          the statements on concrete sessions.
    - [SessionFacts], [BoundaryFacts], [SilenceFacts], [ErrorFacts],
      [CosineFacts]     whole sessions of the worker: the window, the
                        replies, changes of speaker, silence, errors,
                        sessions after a stop, the cosine distance.
    - [WorkletFacts], [WorkletEdge], [CaptureFacts], [DeliveryFacts],
      [ShownFacts], [HeartbeatFacts]  the audio path from the microphone
                        to the worker and the way back to the caller.
    - [SameThreadFacts], [SameThreadRuns], [SameThreadOrder],
      [QuantizeFacts], [TranscriptFacts]  the same-thread hook.
    - [ClosingFacts]    closed segments and the minimum duration.
    - [ConfigFacts]     the configuration is not validated.
    - [MoreChecks]      these statements on concrete inputs. *)

From Stdlib Require Import String Ascii DecimalString DecimalNat.
From Stdlib Require Import ZArith List Bool Lia Sorted FinFun.
From Stdlib Require Import Floats.
From Stdlib Require Uint63.
Import ListNotations.

#[local] Set Warnings "-inexact-float".
#[local] Open Scope float_scope.

(* ================================================================== *)
(** * JavaScript primitives *)
(* ================================================================== *)

Module JS.

(** A JavaScript [number] is a binary64 float. *)
Definition number := float.

(** [ToBoolean] on a number: [+0], [-0] and [NaN] are falsy. *)
Definition truthy (x : number) : bool :=
  negb (x =? 0) && negb (is_nan x).

(** [x || d] on numbers. *)
Definition or_else (x d : number) : number :=
  if truthy x then x else d.

(** An array length as a number (exact below 2^53). *)
Definition of_nat (n : nat) : number :=
  of_uint63 (Uint63.of_Z (Z.of_nat n)).

Definition is_neg_zero (x : number) : bool := (x =? 0) && get_sign x.
Definition is_pos_zero (x : number) : bool := (x =? 0) && negb (get_sign x).

(** [Math.max(a, b)]: NaN when an argument is NaN, and [+0] above [-0]. *)
Definition Math_max (a b : number) : number :=
  if is_nan a || is_nan b then nan
  else if a <? b then b
  else if is_neg_zero a && is_pos_zero b then b
  else a.

(** One step of [Math.min(...values)] as ECMAScript runs it: [lowest]
    starts at [+Infinity]; a NaN argument makes the result NaN; [-0] is
    below [+0]. *)
Definition min_step (lowest x : number) : number :=
  if is_nan lowest || is_nan x then nan
  else if is_neg_zero x && is_pos_zero lowest then x
  else if x <? lowest then x
  else lowest.

Definition Math_min (values : list number) : number :=
  fold_left min_step values infinity.

(** [arr.indexOf(x)] with strict equality ([NaN] is never found, [-0]
    equals [+0]); [None] stands for [-1]. *)
Fixpoint indexOf (arr : list number) (x : number) : option nat :=
  match arr with
  | [] => None
  | y :: arr' =>
      if y =? x then Some O
      else match indexOf arr' x with
           | Some i => Some (S i)
           | None => None
           end
  end.

(** [v[d]] where a read past the end gives [undefined], which arithmetic
    turns into NaN. *)
Definition get (v : list number) (d : nat) : number := nth d v nan.

(** The decimal digits of an array length, as string concatenation
    prints them. *)
Definition string_of_nat (n : nat) : string :=
  NilEmpty.string_of_uint (Nat.to_uint n).

End JS.

(* ================================================================== *)
(** * The Meyda object of the worker *)
(* ================================================================== *)

(** The worker script embeds the Meyda library on its line 60 and calls it
    through [self.Meyda].  As the script stands that line is not accepted
    by a JavaScript parser (it assigns to a [new] expression), so that the
    script does not load at all; and the object the line is written to
    leave in [self.Meyda] is the module object of the library, which has
    neither [_m] nor [process] nor [get].  The handlers are modelled with
    the object as a parameter: [Meyda.shipped] is the one of the script as
    it stands, once its line 60 is read as it is written to be read. *)
Module Meyda.

(** [featureExtractors] of the embedded library (worker script, l.60). *)
Module featureExtractors.

(** [rms]: the square root of the mean of the squared samples of [signal]
    ([Math.pow(x, 2)] is taken as [x * x]). *)
Definition sum_squares (signal : list float) : float :=
  fold_left (fun t x => t + x * x) signal 0.

Definition rms (signal : list float) : float :=
  PrimFloat.sqrt (sum_squares signal / JS.of_nat (length signal)).

End featureExtractors.

(** How a call into the object ends: with a value, or with an exception. *)
Inductive Call (A : Type) : Type :=
| Returns (value : A)
| Raises (err : string).

Arguments Returns {A} value.
Arguments Raises {A} err.

(** What [meyda.get(['rms', 'mfcc'])] returns.  [rms] is a number (a
    missing [rms] is falsy like NaN, which stands for it); [mfcc] is [None]
    when it is missing. *)
Record Features := mkFeatures
  { rms : float; mfcc : option (list float) }.

(** What the worker asks of the object it finds in [self.Meyda]:
    - [has_m]: its [_m] property holds an object, so that the two writes
      [meyda._m.sampleRate = ...] and [meyda._m.bufferSize = ...] of the
      configuration go through; without it the first one raises;
    - [process]: how [meyda.process()] ends once [meyda.signal] is the
      frame, [Some err] when it raises;
    - [get]: how [meyda.get(['rms', 'mfcc'])] ends after it, [Returns None]
      for a falsy result. *)
Record Object := mkObject
  { has_m : bool;
    process : list float -> option string;
    get : list float -> Call (option Features) }.

(** The [TypeError]s of an object without [_m], [process] or [get], as V8
    words them. *)
Definition no_m : string :=
  "TypeError: Cannot set properties of undefined (setting 'sampleRate')".
Definition no_process : string :=
  "TypeError: meyda.process is not a function".
Definition no_get : string :=
  "TypeError: meyda.get is not a function".

(** The own properties of the object line 60 is written to leave in
    [self.Meyda]: in a worker the UMD wrapper hands [self.Meyda = {}] to the
    factory as its [exports], and the factory assigns these. *)
Definition exports : list string :=
  ["BarkScale"; "MeydaAnalyzer"; "Meyda"; "callbacks"; "featureExtractors";
   "inputData"; "melToFreq"; "powerToDB"; "utilities"; "windowing";
   "__esModule"]%string.

Definition own (name : string) : bool :=
  existsb (String.eqb name) exports.

(** The object of the script as it stands.  None of [_m], [process] and
    [get] is among its properties: the configuration raises at
    [meyda._m.sampleRate], and a frame raises at [meyda.process()], before
    [meyda.get] is reached. *)
Definition shipped : Object :=
  mkObject false (fun _ => Some no_process) (fun _ => Raises no_get).

End Meyda.

(* ================================================================== *)
(** * The worker script *)
(* ================================================================== *)

Module Worker.

Definition SpeakerId := string.

Record Centroid := mkCentroid { id : SpeakerId; vector : list float }.

Record Segment := mkSegment
  { speakerId : SpeakerId; startMs : float; endMs : float }.

(** [cfg]: both fields are integer counts on the caller's side. *)
Record Cfg := mkCfg { expectedSpeakers : Z; sampleRate : Z }.

(** What the worker posts to the main thread. *)
Inductive Posted :=
| Ready
| Segments (payload : list Segment)
| ActiveSpeaker (spk : SpeakerId)
| Pong
| Error (payload : string).

(** What the main thread posts to the worker.  A missing or NaN field of
    the config payload is [None]; [MStop] carries [payload.t0ms] when it
    is a number. *)
Inductive Msg :=
| MConfig (expected rate : option Z)
| MAudio (frame : list float) (t0ms : float)
| MStop (t0ms : option float)
| MPing
| MOther.

(** The module-level variables of the script. *)
Record State := mkState
  { meyda : bool;                       (* [let meyda] is set *)
    featureBuffer : list (list float);
    centroids : list Centroid;
    currentSpeakerId : option SpeakerId;
    currentSegmentStartMs : float;
    lastSpeechTimestamp : float;
    silenceFrames : nat;
    noiseFloor : float;
    segmentQueue : list Segment;
    cfg : Cfg }.

Definition MAX_FEATURE_BUFFER_LENGTH : nat := 12.
Definition SILENCE_THRESHOLD_FRAMES : nat := 10.
Definition CHANGE_THRESHOLD : float := 0.4.
Definition alpha : float := 0.02.

Definition init : State :=
  {| meyda := false;
     featureBuffer := [];
     centroids := [];
     currentSpeakerId := None;
     currentSegmentStartMs := 0;
     lastSpeechTimestamp := 0;
     silenceFrames := 0;
     noiseFloor := 0.003;
     segmentQueue := [];
     cfg := mkCfg 2 16000 |}.

(** Assignments to one variable. *)
Definition set_meyda v s :=
  mkState v (featureBuffer s) (centroids s) (currentSpeakerId s)
    (currentSegmentStartMs s) (lastSpeechTimestamp s) (silenceFrames s)
    (noiseFloor s) (segmentQueue s) (cfg s).
Definition set_featureBuffer v s :=
  mkState (meyda s) v (centroids s) (currentSpeakerId s)
    (currentSegmentStartMs s) (lastSpeechTimestamp s) (silenceFrames s)
    (noiseFloor s) (segmentQueue s) (cfg s).
Definition set_centroids v s :=
  mkState (meyda s) (featureBuffer s) v (currentSpeakerId s)
    (currentSegmentStartMs s) (lastSpeechTimestamp s) (silenceFrames s)
    (noiseFloor s) (segmentQueue s) (cfg s).
Definition set_currentSpeakerId v s :=
  mkState (meyda s) (featureBuffer s) (centroids s) v
    (currentSegmentStartMs s) (lastSpeechTimestamp s) (silenceFrames s)
    (noiseFloor s) (segmentQueue s) (cfg s).
Definition set_currentSegmentStartMs v s :=
  mkState (meyda s) (featureBuffer s) (centroids s) (currentSpeakerId s)
    v (lastSpeechTimestamp s) (silenceFrames s)
    (noiseFloor s) (segmentQueue s) (cfg s).
Definition set_lastSpeechTimestamp v s :=
  mkState (meyda s) (featureBuffer s) (centroids s) (currentSpeakerId s)
    (currentSegmentStartMs s) v (silenceFrames s)
    (noiseFloor s) (segmentQueue s) (cfg s).
Definition set_silenceFrames v s :=
  mkState (meyda s) (featureBuffer s) (centroids s) (currentSpeakerId s)
    (currentSegmentStartMs s) (lastSpeechTimestamp s) v
    (noiseFloor s) (segmentQueue s) (cfg s).
Definition set_noiseFloor v s :=
  mkState (meyda s) (featureBuffer s) (centroids s) (currentSpeakerId s)
    (currentSegmentStartMs s) (lastSpeechTimestamp s) (silenceFrames s)
    v (segmentQueue s) (cfg s).
Definition set_segmentQueue v s :=
  mkState (meyda s) (featureBuffer s) (centroids s) (currentSpeakerId s)
    (currentSegmentStartMs s) (lastSpeechTimestamp s) (silenceFrames s)
    (noiseFloor s) v (cfg s).
Definition set_cfg v s :=
  mkState (meyda s) (featureBuffer s) (centroids s) (currentSpeakerId s)
    (currentSegmentStartMs s) (lastSpeechTimestamp s) (silenceFrames s)
    (noiseFloor s) (segmentQueue s) v.

(** ** [cosineDistance] *)

(** The loop over [i < v1.length], on vectors of equal length. *)
Fixpoint dot_norms (v1 v2 : list float) (dot m1 m2 : float)
  : float * float * float :=
  match v1, v2 with
  | a :: v1', b :: v2' =>
      dot_norms v1' v2' (dot + a * b) (m1 + a * a) (m2 + b * b)
  | _, _ => (dot, m1, m2)
  end.

Definition cosineDistance (v1 v2 : list float) : float :=
  if negb (Nat.eqb (length v1) (length v2)) then 1
  else
    let '(dot, m1, m2) := dot_norms v1 v2 0 0 0 in
    let m1 := PrimFloat.sqrt m1 in
    let m2 := PrimFloat.sqrt m2 in
    if (m1 =? 0) || (m2 =? 0) then 1
    else 1 - dot / (m1 * m2).

(** ** [flushQueue] and [endCurrentSegment] *)

Definition flushQueue (s : State) : State * list Posted :=
  match segmentQueue s with
  | [] => (s, [])
  | q => (set_segmentQueue [] s, [Segments q])
  end.

(** [currentSpeakerId] is [null] or an id ['S' + n], never the empty
    string, so its truthiness is its presence. *)
Definition endCurrentSegment (timestamp : float) (s : State)
  : State * list Posted :=
  match currentSpeakerId s with
  | Some spk =>
      let endTime :=
        if 0 <? lastSpeechTimestamp s then lastSpeechTimestamp s
        else timestamp in
      let '(s1, out) :=
        if currentSegmentStartMs s <? endTime
        then flushQueue
               (set_segmentQueue
                  (segmentQueue s
                     ++ [mkSegment spk (currentSegmentStartMs s) endTime])
                  s)
        else (s, []) in
      (set_lastSpeechTimestamp 0 (set_currentSpeakerId None s1), out)
  | None => (s, [])
  end.

(** ** The smoothing window and the clustering step of [processFrame] *)

(** [currentMean]: per dimension of the first buffered vector, the sum
    over the buffer divided by the buffer length. *)
Definition currentMean (buffer : list (list float)) : list float :=
  let dims := length (hd [] buffer) in
  map (fun d =>
         fold_left (fun acc vec => acc + JS.get vec d) buffer 0
         / JS.of_nat (length buffer))
      (seq 0 dims).

(** The in-place update [cvec[d] = cvec[d]*(1-alpha) + mean[d]*alpha]
    for [d < dims]; a write past the end of [cvec] extends it. *)
Fixpoint ema (cvec mean : list float) : list float :=
  match mean with
  | [] => cvec
  | m :: mean' =>
      (JS.get cvec 0 * (1 - alpha) + m * alpha) :: ema (tl cvec) mean'
  end.

Fixpoint update_at (i : nat) (f : Centroid -> Centroid)
  (cs : list Centroid) : list Centroid :=
  match cs, i with
  | [], _ => []
  | c :: cs', O => f c :: cs'
  | c :: cs', S i' => c :: update_at i' f cs'
  end.

Definition distances (mean : list float) (cs : list Centroid)
  : list float :=
  map (fun c => cosineDistance mean (vector c)) cs.

Definition newSpeakerId (cs : list Centroid) : SpeakerId :=
  ("S" ++ JS.string_of_nat (length cs + 1))%string.

(** The result of the clustering branch: the detected speaker and the
    centroids after it, or the [TypeError] of reading [.id] of
    [centroids[-1]]. *)
Inductive Detection :=
| Detected (spk : SpeakerId) (cs : list Centroid)
| Thrown (err : string).

Definition type_error : string :=
  "TypeError: Cannot read properties of undefined (reading 'id')"%string.

Definition detectSpeaker (expected : Z) (mean : list float)
  (cs : list Centroid) : Detection :=
  match cs with
  | [] => Detected "S1"%string [mkCentroid "S1"%string mean]
  | _ =>
      let ds := distances mean cs in
      let minDistance := JS.Math_min ds in
      let closestIdx := JS.indexOf ds minDistance in
      if (CHANGE_THRESHOLD <? minDistance)
         && (Z.of_nat (length cs) <? expected)%Z
      then Detected (newSpeakerId cs)
             (cs ++ [mkCentroid (newSpeakerId cs) mean])
      else
        match closestIdx with
        | Some i =>
            match nth_error cs i with
            | Some c =>
                Detected (id c)
                  (update_at i
                     (fun c => mkCentroid (id c) (ema (vector c) mean))
                     cs)
            | None => Thrown type_error
            end
        | None => Thrown type_error
        end
  end.

Definition speaker_eqb (a : SpeakerId) (b : option SpeakerId) : bool :=
  match b with
  | Some b' => String.eqb a b'
  | None => false
  end.

(** ** [processFrame] *)

(** How a call ended: normally, or with an exception for the [catch] of
    [self.onmessage]. *)
Record Outcome := mkOutcome
  { state : State; posted : list Posted; thrown : option string }.

Definition done (s : State) : Outcome := mkOutcome s [] None.

Section ProcessFrame.

(** The object in [self.Meyda]. *)
Variable self_Meyda : Meyda.Object.

Definition vadThreshold (noise : float) : float :=
  JS.Math_max (noise * 2.5) 0.0045.

(** From [featureBuffer.push(mfcc)] on. *)
Definition cluster (t0ms : float) (s : State) : Outcome :=
  if Nat.ltb (length (featureBuffer s))
       (Nat.shiftr MAX_FEATURE_BUFFER_LENGTH 1)
  then done s
  else
    let mean := currentMean (featureBuffer s) in
    match detectSpeaker (expectedSpeakers (cfg s)) mean (centroids s)
    with
    | Thrown err => mkOutcome s [] (Some err)
    | Detected detectedSpeakerId cs =>
        let s := set_centroids cs s in
        if negb (speaker_eqb detectedSpeakerId (currentSpeakerId s))
        then
          let '(s, out) := endCurrentSegment t0ms s in
          let s := set_currentSpeakerId (Some detectedSpeakerId) s in
          let s := set_currentSegmentStartMs t0ms s in
          mkOutcome s (out ++ [ActiveSpeaker detectedSpeakerId]) None
        else done s
    end.

(** From [noiseFloor = ...] on, with the [rms] and [mfcc] of the
    features. *)
Definition detect (rms : float) (mfcc : list float) (t0ms : float)
  (s : State) : Outcome :=
  let s := set_noiseFloor (noiseFloor s * 0.995 + rms * 0.005) s in
  if rms <? vadThreshold (noiseFloor s) then
    let s := set_silenceFrames (S (silenceFrames s)) s in
    if Nat.ltb SILENCE_THRESHOLD_FRAMES (silenceFrames s)
    then let '(s, out) := endCurrentSegment t0ms s in
         mkOutcome s out None
    else done s
  else
    let s := set_silenceFrames 0 s in
    let s := set_lastSpeechTimestamp t0ms s in
    if Nat.eqb (length mfcc) 0 then done s
    else
      let buffer :=
        if Nat.leb MAX_FEATURE_BUFFER_LENGTH
             (length (featureBuffer s))
        then tl (featureBuffer s)
        else featureBuffer s in
      let s := set_featureBuffer (buffer ++ [mfcc]) s in
      cluster t0ms s.

(** [processFrame]: the guards, then [meyda.signal = frame],
    [meyda.process()] and [meyda.get(['rms', 'mfcc'])], either of which may
    raise, then the guard on the features. *)
Definition processFrame (frame : list float) (t0ms : float)
  (s : State) : Outcome :=
  if Nat.eqb (length frame) 0 || negb (meyda s) then done s
  else
    match Meyda.process self_Meyda frame with
    | Some err => mkOutcome s [] (Some err)
    | None =>
        match Meyda.get self_Meyda frame with
        | Meyda.Raises err => mkOutcome s [] (Some err)
        | Meyda.Returns None => done s
        | Meyda.Returns (Some features) =>
            if negb (JS.truthy (Meyda.rms features)) then done s
            else
              match Meyda.mfcc features with
              | None => done s
              | Some mfcc => detect (Meyda.rms features) mfcc t0ms s
              end
        end
    end.

(** ** [self.onmessage] *)

Definition z_or_else (x : option Z) (d : Z) : Z :=
  match x with
  | Some v => if (v =? 0)%Z then d else v
  | None => d
  end.

(** The body of the [try].  In the [config] branch [cfg] and [meyda] are
    assigned before [meyda._m.sampleRate = ...] can raise, and keep their
    new values when it does. *)
Definition handle (msg : Msg) (s : State) : Outcome :=
  match msg with
  | MConfig expected rate =>
      let s := set_cfg (mkCfg (z_or_else expected 2)
                          (z_or_else rate 16000)) s in
      if meyda s then mkOutcome s [Ready] None
      else
        let s := set_meyda true s in
        if Meyda.has_m self_Meyda then mkOutcome s [Ready] None
        else mkOutcome s [] (Some Meyda.no_m)
  | MAudio frame t0ms => processFrame frame t0ms s
  | MStop t0ms =>
      let stopTs :=
        match t0ms with
        | Some t => t
        | None => JS.or_else (lastSpeechTimestamp s) 0
        end in
      let '(s, out1) := endCurrentSegment stopTs s in
      let '(s, out2) := flushQueue s in
      let s := set_centroids [] s in
      let s := set_featureBuffer [] s in
      let s := set_currentSpeakerId None s in
      let s := set_lastSpeechTimestamp 0 s in
      let s := set_silenceFrames 0 s in
      mkOutcome s (out1 ++ out2) None
  | MPing => mkOutcome s [Pong] None
  | MOther => done s
  end.

(** [try { ... } catch (err) { postMessage({type: 'error', ...}) }] *)
Definition onmessage (msg : Msg) (s : State) : State * list Posted :=
  let r := handle msg s in
  match thrown r with
  | Some err => (state r, posted r ++ [Error err])
  | None => (state r, posted r)
  end.

(** The worker handles its messages one at a time, in order. *)
Fixpoint run (msgs : list Msg) (s : State) : State * list Posted :=
  match msgs with
  | [] => (s, [])
  | m :: msgs' =>
      let '(s1, out1) := onmessage m s in
      let '(s2, out2) := run msgs' s1 in
      (s2, out1 ++ out2)
  end.

(** The finalized segments among the posted messages. *)
Fixpoint segments_of (out : list Posted) : list Segment :=
  match out with
  | [] => []
  | Segments q :: out' => q ++ segments_of out'
  | _ :: out' => segments_of out'
  end.

End ProcessFrame.

End Worker.

(* ================================================================== *)
(** * The same-thread hook (hooks/useDiarization.ts) *)
(* ================================================================== *)

Module Hook.

(** [DiarizationSegment]; the hook stamps segments with
    [Date.now() - startTime], whole milliseconds. *)
Record DiarizationSegment := mkSegment
  { speakerId : string; startMs : Z; endMs : Z }.

Record State := mkState
  { currentSegmentRef : option DiarizationSegment;
    segments : list DiarizationSegment;
    activeSpeaker : option string }.

Section EndCurrentSegment.

(** [AUDIO_CONSTANTS.MIN_SEGMENT_DURATION_MS]; the constants module is
    not among the sources (the script-processor variant of the hook
    sets it to 300). *)
Variable MIN_SEGMENT_DURATION_MS : Z.

Definition endCurrentSegment (endTime : Z) (h : State) : State :=
  match currentSegmentRef h with
  | Some segment =>
      let segment :=
        mkSegment (speakerId segment) (startMs segment) endTime in
      let segs :=
        if (MIN_SEGMENT_DURATION_MS <=? endMs segment - startMs segment)%Z
        then segments h ++ [segment]
        else segments h in
      mkState None segs None
  | None => h
  end.

End EndCurrentSegment.

End Hook.

(* ================================================================== *)
(** * The heartbeat of the worker-isolated hook *)
(* ================================================================== *)

Module Supervisor.

Definition MAX_RESTARTS : nat := 3.

(** The lines the hook writes to the console. *)
Inductive Console :=
| WarnUnresponsive
| LogRestart (attempt : nat)
| ErrorRestartFailed
| ErrorWorker (payload : string)
| ErrorResume                           (* AudioContext resume failed *)
| ErrorLoading.                         (* Error loading AudioWorklet processor *)

(** The refs of the hook, the [gotPong] variable of the running
    [start], the messages posted to the live worker, what the hook
    shows its caller ([activeSpeaker] and the calls of [onNewSegments]),
    and the [isCancelled] variable of the running effect. *)
Record Hook := mkHook
  { workerRef : option nat;
    workers : nat;                      (* [new Worker] calls so far *)
    inbox : list Worker.Msg;
    heartbeatIntervalRef : bool;        (* the interval is running *)
    gotPong : bool;
    restartAttemptsRef : nat;
    segmentsRef : list Worker.Segment;
    activeSpeaker : option Worker.SpeakerId;
    totalSamplesRef : nat;
    onNewSegments : list (list Worker.Segment);
    console : list Console;
    isCancelled : bool }.

Inductive Event :=
| Tick                                  (* the 5000 ms interval fires *)
| FromWorker (m : Worker.Posted).       (* [worker.onmessage] *)

Definition unmounted : Hook :=
  mkHook None 0 [] false true 0 [] None 0 [] [] false.

Definition log (c : Console) (h : Hook) : Hook :=
  mkHook (workerRef h) (workers h) (inbox h) (heartbeatIntervalRef h)
    (gotPong h) (restartAttemptsRef h) (segmentsRef h) (activeSpeaker h)
    (totalSamplesRef h) (onNewSegments h) (console h ++ [c])
    (isCancelled h).

Definition stopDiarization (h : Hook) : Hook :=
  mkHook None (workers h) [] false (gotPong h) (restartAttemptsRef h)
    [] None 0 (onNewSegments h ++ [[]]) (console h) (isCancelled h).

(** What the browser does during one [start()]: whether the new context
    is suspended and its [resume()] rejects, and whether
    [audioWorklet.addModule] resolves. *)
Record Browser := mkBrowser
  { resumeFails : bool; moduleLoads : bool }.

Section Start.

(** [settings.expectedSpeakers] ([None] when absent) and
    [context.sampleRate]. *)
Variable expectedSpeakers : option Z.
Variable sampleRate : Z.

(** The browser during the [start()] that creates worker number [n]. *)
Variable browser : nat -> Browser.

(** The message [start()] posts to its new worker, with
    [settings.expectedSpeakers ?? 2]. *)
Definition config : Worker.Msg :=
  Worker.MConfig
    (Some match expectedSpeakers with Some e => e | None => 2%Z end)
    (Some sampleRate).

(** [start()] from [stopDiarization()] to its first [await]: the old
    worker and interval are dropped and a new worker is created, which has
    received nothing yet. *)
Definition start_begin (h : Hook) : Hook :=
  let h := stopDiarization h in
  mkHook (Some (workers h)) (S (workers h)) [] false (gotPong h)
    (restartAttemptsRef h) (segmentsRef h) (activeSpeaker h)
    (totalSamplesRef h) (onNewSegments h) (console h) (isCancelled h).

(** [start()] from there on.  A rejected [resume()] is logged.  When the
    worklet module does not load, the [catch] logs it and calls
    [stopDiarization()]: the new worker is terminated without a
    configuration and no interval is set.  Otherwise, unless the effect
    was cancelled meanwhile, the worker is configured and a new interval
    starts with [gotPong = true]. *)
Definition start_finish (b : Browser) (h : Hook) : Hook :=
  let h := if resumeFails b then log ErrorResume h else h in
  if negb (moduleLoads b) then stopDiarization (log ErrorLoading h)
  else if isCancelled h then h
  else
    mkHook (workerRef h) (workers h) (inbox h ++ [config]) true true
      (restartAttemptsRef h) (segmentsRef h) (activeSpeaker h)
      (totalSamplesRef h) (onNewSegments h) (console h) (isCancelled h).

(** [start()], with nothing happening during its awaits. *)
Definition start (h : Hook) : Hook :=
  if isCancelled h then h
  else start_finish (browser (workers h)) (start_begin h).

(** The effect body when a stream is recorded with diarization on. *)
Definition mount (h : Hook) : Hook :=
  start (mkHook (workerRef h) (workers h) (inbox h)
           (heartbeatIntervalRef h) (gotPong h) 0 (segmentsRef h)
           (activeSpeaker h) (totalSamplesRef h) (onNewSegments h)
           (console h) false).

(** The cleanup of the effect. *)
Definition cleanup (h : Hook) : Hook :=
  stopDiarization
    (mkHook (workerRef h) (workers h) (inbox h) (heartbeatIntervalRef h)
       (gotPong h) (restartAttemptsRef h) (segmentsRef h)
       (activeSpeaker h) (totalSamplesRef h) (onNewSegments h)
       (console h) true).

(** The [setInterval] callback. *)
Definition tick (h : Hook) : Hook :=
  if negb (heartbeatIntervalRef h) then h
  else if negb (gotPong h) then
    let h := log WarnUnresponsive h in
    let h :=
      mkHook (workerRef h) (workers h) (inbox h) false (gotPong h)
        (restartAttemptsRef h) (segmentsRef h) (activeSpeaker h)
        (totalSamplesRef h) (onNewSegments h) (console h)
        (isCancelled h) in
    if Nat.ltb (restartAttemptsRef h) MAX_RESTARTS then
      let h :=
        mkHook (workerRef h) (workers h) (inbox h)
          (heartbeatIntervalRef h) (gotPong h)
          (S (restartAttemptsRef h)) (segmentsRef h) (activeSpeaker h)
          (totalSamplesRef h) (onNewSegments h) (console h)
          (isCancelled h) in
      start (log (LogRestart (restartAttemptsRef h)) h)
    else log ErrorRestartFailed h
  else
    mkHook (workerRef h) (workers h) (inbox h ++ [Worker.MPing])
      (heartbeatIntervalRef h) false (restartAttemptsRef h)
      (segmentsRef h) (activeSpeaker h) (totalSamplesRef h)
      (onNewSegments h) (console h) (isCancelled h).

(** [worker.onmessage]; a terminated worker delivers nothing. *)
Definition from_worker (m : Worker.Posted) (h : Hook) : Hook :=
  match workerRef h with
  | None => h
  | Some _ =>
      match m with
      | Worker.Pong =>
          mkHook (workerRef h) (workers h) (inbox h)
            (heartbeatIntervalRef h) true 0 (segmentsRef h)
            (activeSpeaker h) (totalSamplesRef h) (onNewSegments h)
            (console h) (isCancelled h)
      | Worker.Segments payload =>
          let segs := segmentsRef h ++ payload in
          mkHook (workerRef h) (workers h) (inbox h)
            (heartbeatIntervalRef h) (gotPong h) (restartAttemptsRef h)
            segs (activeSpeaker h) (totalSamplesRef h)
            (onNewSegments h ++ [segs]) (console h) (isCancelled h)
      | Worker.ActiveSpeaker spk =>
          mkHook (workerRef h) (workers h) (inbox h)
            (heartbeatIntervalRef h) (gotPong h) (restartAttemptsRef h)
            (segmentsRef h) (Some spk) (totalSamplesRef h)
            (onNewSegments h) (console h) (isCancelled h)
      | Worker.Error payload => log (ErrorWorker payload) h
      | Worker.Ready => h
      end
  end.

Definition step (e : Event) (h : Hook) : Hook :=
  match e with
  | Tick => tick h
  | FromWorker m => from_worker m h
  end.

Definition steps (es : list Event) (h : Hook) : Hook :=
  fold_left (fun h e => step e h) es h.

(** One heartbeat cycle without an answer: the tick that pings, then
    the tick that finds no pong. *)
Definition missed_cycle : list Event := [Tick; Tick].

Fixpoint missed_cycles (n : nat) : list Event :=
  match n with
  | O => []
  | S n' => missed_cycle ++ missed_cycles n'
  end.

(** A hook whose [start] has run: the interval is set, the worker is
    alive and no ping is pending. *)
Definition started (h : Hook) : Prop :=
  heartbeatIntervalRef h = true /\ gotPong h = true
  /\ workerRef h <> None.

(** The [console.error] lines that report the exhausted restarts. *)
Definition count_restart_failed (h : Hook) : nat :=
  List.length
    (filter (fun c => match c with ErrorRestartFailed => true
                              | _ => false end) (console h)).

End Start.

(** A browser in which nothing fails. *)
Definition online : nat -> Browser := fun _ => mkBrowser false true.

(** A browser in which the worklet module does not load. *)
Definition offline : nat -> Browser := fun _ => mkBrowser false false.

(** The hook after its effect has run for a two-speaker session. *)
Definition mounted : Hook := mount (Some 2%Z) 48000 online unmounted.

End Supervisor.

(* ================================================================== *)
(** * Vocabulary of the statements *)
(* ================================================================== *)

Module WorkerSpec.
Import Worker.

Section Classification.

Variable self_Meyda : Meyda.Object.

(** The [rms] and [mfcc] a frame hands to the detector in state [s];
    [None] when [processFrame] returns or raises before it: the frame is
    empty, Meyda is not set up, [process] or [get] raises, or the features,
    their [rms] (also 0 and NaN) or their [mfcc] are missing. *)
Definition features_of (s : State) (frame : list float)
  : option (float * list float) :=
  if Nat.eqb (length frame) 0 || negb (meyda s) then None
  else
    match Meyda.process self_Meyda frame with
    | Some _ => None
    | None =>
        match Meyda.get self_Meyda frame with
        | Meyda.Returns (Some features) =>
            if JS.truthy (Meyda.rms features)
            then option_map (fun mfcc => (Meyda.rms features, mfcc))
                   (Meyda.mfcc features)
            else None
        | _ => None
        end
    end.

(** What [processFrame] makes of a frame in state [s]: [None] when it does
    not reach the detector, [Some true] for speech, [Some false] for
    silence. *)
Definition classify (s : State) (frame : list float) : option bool :=
  match features_of s frame with
  | Some (rms, _) =>
      Some (negb (rms <? vadThreshold
                           (noiseFloor s * 0.995 + rms * 0.005)))
  | None => None
  end.

(** A frame that reaches the detector. *)
Definition reaches_detector (s : State) (frame : list float) : Prop :=
  features_of s frame <> None.

(** The [rms] feature the object returns is the root mean square of the
    frame, as [featureExtractors.rms] computes it. *)
Definition energy_is_rms : Prop :=
  forall frame features,
    Meyda.get self_Meyda frame = Meyda.Returns (Some features) ->
    Meyda.rms features = Meyda.featureExtractors.rms frame.

(** The audio messages of a list of stamped frames. *)
Definition audio (frames : list (list float * float)) : list Msg :=
  map (fun ft => MAudio (fst ft) (snd ft)) frames.

(** Every frame of the list is classified as silence when its turn comes. *)
Fixpoint all_silent (s : State) (frames : list (list float * float))
  : Prop :=
  match frames with
  | [] => True
  | ft :: frames' =>
      classify s (fst ft) = Some false
      /\ all_silent (fst (onmessage self_Meyda (MAudio (fst ft) (snd ft)) s))
           frames'
  end.

End Classification.

(** The cosine distance of the glossary, [1 - cosine similarity], on two
    vectors of one length: the dot product over the product of the norms,
    the sums being taken from the first component on, and 1 when a norm
    is zero. *)
Definition dot (v w : list float) : float :=
  fold_left (fun acc ab => acc + fst ab * snd ab) (combine v w) 0.

Definition norm (v : list float) : float := PrimFloat.sqrt (dot v v).

Definition cosine_distance (v w : list float) : float :=
  if (norm v =? 0) || (norm w =? 0) then 1
  else 1 - dot v w / (norm v * norm w).

(** The ids [S1 .. Sn], in creation order. *)
Definition speaker_ids (n : nat) : list SpeakerId :=
  map (fun k => ("S" ++ JS.string_of_nat k)%string) (seq 1 n).

(** The speaker ids among the posted messages. *)
Fixpoint speakers_of (out : list Posted) : list SpeakerId :=
  match out with
  | [] => []
  | Segments q :: out' => map speakerId q ++ speakers_of out'
  | ActiveSpeaker spk :: out' => spk :: speakers_of out'
  | _ :: out' => speakers_of out'
  end.

(** The messages inside a session: all but its configuration and its
    stop. *)
Definition in_session (m : Msg) : bool :=
  match m with
  | MConfig _ _ | MStop _ => false
  | _ => true
  end.

(** The speakers the worker knows are [S1 .. Sn] with [n] within the
    configured count, and the open segment belongs to one of them. *)
Definition Known (s : State) : Prop :=
  segmentQueue s = []
  /\ map id (centroids s) = speaker_ids (length (centroids s))
  /\ (Z.of_nat (length (centroids s)) <= expectedSpeakers (cfg s))%Z
  /\ (1 <= expectedSpeakers (cfg s))%Z
  /\ forall spk, currentSpeakerId s = Some spk ->
                 In spk (map id (centroids s)).

(** One step of a session: the speakers stay [S1 .. Sn], only grow at the
    end, and every id posted is one of them. *)
Definition grows (s s' : State) (out : list Posted) : Prop :=
  Known s' /\ cfg s' = cfg s
  /\ (exists extra,
        map id (centroids s') = map id (centroids s) ++ extra)
  /\ forall spk, In spk (speakers_of out) ->
                 In spk (map id (centroids s')).


(** A finalized segment has a positive length. *)
Definition positive (g : Segment) : Prop :=
  (startMs g <? endMs g) = true.

(** [g] is over when [h] starts, and starts before it. *)
Definition precedes (g h : Segment) : Prop :=
  (endMs g <=? startMs h) = true /\ (startMs g <? startMs h) = true.

(** The timestamps of the audio messages, in order of arrival. *)
Fixpoint audio_times (msgs : list Msg) : list float :=
  match msgs with
  | [] => []
  | MAudio _ t0ms :: msgs' => t0ms :: audio_times msgs'
  | _ :: msgs' => audio_times msgs'
  end.

Fixpoint nondecreasing_from (lo : float) (times : list float) : bool :=
  match times with
  | [] => true
  | t :: times' => (lo <=? t) && nondecreasing_from t times'
  end.

(** Timestamps that are numbers and never go back. *)
Definition nondecreasing (times : list float) : bool :=
  match times with
  | [] => true
  | t :: _ => nondecreasing_from t times
  end.

Definition not_stop (m : Msg) : bool :=
  match m with
  | MStop _ => false
  | _ => true
  end.

(** The bound that the next frame has to respect after message [m]. *)
Definition clock (lo : float) (m : Msg) : float :=
  match m with
  | MAudio _ t0ms => t0ms
  | _ => lo
  end.

(** The segments posted so far against the state, [lo] being the latest
    frame time: they are in order, over by [lo], and over by the start of
    the open segment. *)
Definition Ordered (lo : float) (s : State) (segs : list Segment) : Prop :=
  segmentQueue s = []
  /\ StronglySorted precedes segs
  /\ Forall positive segs
  /\ Forall (fun g => (endMs g <=? lo) = true) segs
  /\ (currentSpeakerId s <> None ->
      Forall (fun g => (endMs g <=? currentSegmentStartMs s) = true) segs)
  /\ ((0 <? lastSpeechTimestamp s) = true ->
      (lastSpeechTimestamp s <=? lo) = true).

End WorkerSpec.

(** Concrete sessions, run with an object that has what the worker asks of
    it: [_m], a [process] that returns, and a [get] that gives the RMS of
    the frame; the first three samples of a frame stand in for its
    cepstral coefficients. *)
Module Scenario.
Import Worker.

Definition toy : Meyda.Object :=
  Meyda.mkObject true (fun _ => None)
    (fun frame =>
       Meyda.Returns
         (Some (Meyda.mkFeatures (Meyda.featureExtractors.rms frame)
                  (Some (firstn 3 frame))))).

Definition voice_a : list float := [0.5; -0.5; 0.5; -0.5].
Definition voice_b : list float := [0.5; 0.5; -0.5; -0.5].
Definition hush : list float := [0.001; -0.001; 0.001; -0.001].

Definition config2 : Msg := MConfig (Some 2%Z) (Some 48000%Z).

Definition at_times (frame : list float) (times : list float)
  : list (list float * float) :=
  map (fun t => (frame, t)) times.

(** Seven frames of one voice: the segment opens at the sixth. *)
Definition talk : list Msg :=
  WorkerSpec.audio (at_times voice_a [100; 200; 300; 400; 500; 600; 700]).

Definition ten_silent : list (list float * float) :=
  at_times hush [800; 900; 1000; 1100; 1200; 1300; 1400; 1500; 1600; 1700].

Definition eleven_silent : list (list float * float) :=
  ten_silent ++ [(hush, 1800)].

(** Eight frames of a second voice after the first. *)
Definition reply : list Msg :=
  WorkerSpec.audio
    (at_times voice_b [1900; 2000; 2100; 2200; 2300; 2400; 2500; 2600]).

(** The worker with a segment of [voice_a] open. *)
Definition talking : State := fst (run toy (config2 :: talk) init).

(** A session that ends in silence: one short segment is finalized. *)
Definition monologue : list Msg :=
  config2 :: talk ++ WorkerSpec.audio eleven_silent.

End Scenario.

(** Numbers of sign [+], for the noise floor and the energies. *)
Module Sign.

(** A specification float that is not NaN and carries the sign [+]. *)
Definition sf_nonneg (x : spec_float) : bool :=
  match x with
  | S754_zero false | S754_infinity false | S754_finite false _ _ => true
  | _ => false
  end.

Definition sf_positive_finite (x : spec_float) : bool :=
  match x with
  | S754_finite false _ _ => true
  | _ => false
  end.

Definition nonneg (x : float) : bool := sf_nonneg (Prim2SF x).

Definition positive_finite (x : float) : bool :=
  sf_positive_finite (Prim2SF x).

End Sign.

(* ================================================================== *)
(** * Vocabulary for whole sessions of the worker *)
(* ================================================================== *)

Module SessionSpec.
Import Worker.

Definition is_audio (m : Msg) : bool :=
  match m with MAudio _ _ => true | _ => false end.

Definition is_ping (m : Msg) : bool :=
  match m with MPing => true | _ => false end.

Definition is_config (m : Msg) : bool :=
  match m with MConfig _ _ => true | _ => false end.

Definition is_pong (p : Posted) : bool :=
  match p with Pong => true | _ => false end.

Definition is_ready (p : Posted) : bool :=
  match p with Ready => true | _ => false end.

Definition is_error (p : Posted) : bool :=
  match p with Error _ => true | _ => false end.

Definition is_active (p : Posted) : bool :=
  match p with ActiveSpeaker _ => true | _ => false end.

(** The messages that carry speakers: finalized segments and the active
    speaker. *)
Definition about_speech (p : Posted) : bool :=
  match p with Segments _ | ActiveSpeaker _ => true | _ => false end.

Definition count {A} (f : A -> bool) (l : list A) : nat :=
  length (filter f l).

(** The speaker of the last [activeSpeaker] message of [out]; [shown]
    when there is none. *)
Fixpoint last_active (shown : option SpeakerId) (out : list Posted)
  : option SpeakerId :=
  match out with
  | [] => shown
  | ActiveSpeaker spk :: out' => last_active (Some spk) out'
  | _ :: out' => last_active shown out'
  end.

(** The smoothing window holds at most [MAX_FEATURE_BUFFER_LENGTH]
    vectors, none of them empty. *)
Definition window_ok (s : State) : Prop :=
  (length (featureBuffer s) <= MAX_FEATURE_BUFFER_LENGTH)%nat
  /\ Forall (fun v => v <> []) (featureBuffer s).

(** Nothing has been learned or opened yet, and at most [k] vectors are
    buffered. *)
Definition quiet (k : nat) (s : State) : Prop :=
  (length (featureBuffer s) <= k)%nat /\ centroids s = []
  /\ currentSpeakerId s = None /\ segmentQueue s = [].

(** What [stop] leaves behind. *)
Definition stopped (s : State) : Prop :=
  centroids s = [] /\ featureBuffer s = [] /\ currentSpeakerId s = None
  /\ lastSpeechTimestamp s = 0 /\ silenceFrames s = 0%nat
  /\ segmentQueue s = [].

(** What a run of silent frames, stamped [times], does to the segment
    open in [s]. *)
Definition silence_effect (s s' : State) (out : list Posted)
  (times : list float) : Prop :=
  centroids s' = centroids s /\ featureBuffer s' = featureBuffer s
  /\ segmentQueue s' = []
  /\ count is_active out = 0%nat
  /\ (length (segments_of out) <= 1)%nat
  /\ (currentSpeakerId s = None -> segments_of out = [])
  /\ (segments_of out = [] \/ currentSpeakerId s' = None)
  /\ (segments_of out = [] ->
      currentSpeakerId s' = None
      \/ (currentSpeakerId s' = currentSpeakerId s
          /\ currentSegmentStartMs s' = currentSegmentStartMs s
          /\ lastSpeechTimestamp s' = lastSpeechTimestamp s))
  /\ forall g, In g (segments_of out) ->
       currentSpeakerId s = Some (speakerId g)
       /\ startMs g = currentSegmentStartMs s
       /\ ((0 <? lastSpeechTimestamp s) = true ->
           endMs g = lastSpeechTimestamp s)
       /\ ((0 <? lastSpeechTimestamp s) = false -> In (endMs g) times).

(** The speaker shown is the one of the open segment, when there is
    one. *)
Definition shows (shown : option SpeakerId) (s : State) : Prop :=
  forall spk, currentSpeakerId s = Some spk -> shown = Some spk.

(** A vector of zeros. *)
Definition zero_vector (v : list float) : Prop :=
  Forall (fun x => (x =? 0) = true) v.

End SessionSpec.

(* ================================================================== *)
(** * The audio worklet of the worker-isolated hook *)
(* ================================================================== *)

Module Worklet.

Definition CHUNK_SIZE : nat := 4096.

(** The fields of a [DiarizationAudioProcessor]; [buffer] is a
    [Float32Array] of [bufferSize] samples. *)
Record Processor := mkProcessor
  { bufferSize : nat; buffer : list float; bufferIndex : nat }.

(** [constructor()] *)
Definition create : Processor :=
  mkProcessor CHUNK_SIZE (repeat 0 CHUNK_SIZE) 0%nat.

Definition range_error : string := "RangeError: offset is out of bounds".

(** [target.set(source, offset)] on typed arrays: a source that does not
    fit raises a [RangeError] ([None]) and writes nothing. *)
Definition set (target source : list float) (offset : nat)
  : option (list float) :=
  if Nat.ltb (length target) (offset + length source)%nat then None
  else Some (firstn offset target ++ source
             ++ skipn (offset + length source)%nat target).

(** A call of [process]: the processor after it, the chunks posted to the
    main thread (each a structured clone of [buffer]) and the exception,
    if one was raised. *)
Record Outcome := mkOutcome
  { processor : Processor;
    posted : list (list float);
    thrown : option string }.

(** [process(inputs)], [channelData] being [inputs[0][0]] ([None] when the
    input has no channel).  [bufferIndex] never exceeds [bufferSize], so
    [remainingSpace] is a natural number. *)
Definition process (channelData : option (list float)) (p : Processor)
  : Outcome :=
  match channelData with
  | None => mkOutcome p [] None
  | Some channelData =>
      let remainingSpace := (bufferSize p - bufferIndex p)%nat in
      let toCopy := Nat.min (length channelData) remainingSpace in
      match set (buffer p) (firstn toCopy channelData) (bufferIndex p) with
      | None => mkOutcome p [] (Some range_error)
      | Some filled =>
          let p := mkProcessor (bufferSize p) filled
                     (bufferIndex p + toCopy)%nat in
          if Nat.leb (bufferSize p) (bufferIndex p) then
            let leftover := (length channelData - toCopy)%nat in
            if Nat.ltb 0%nat leftover then
              match set (buffer p) (skipn toCopy channelData) 0%nat with
              | None => mkOutcome p [buffer p] (Some range_error)
              | Some carried =>
                  mkOutcome (mkProcessor (bufferSize p) carried leftover)
                    [buffer p] None
              end
            else
              mkOutcome (mkProcessor (bufferSize p) (buffer p) 0%nat)
                [buffer p] None
          else mkOutcome p [] None
      end
  end.

(** The audio engine calls [process] once per render quantum and stops
    calling a processor whose [process] has thrown. *)
Fixpoint run (inputs : list (option (list float))) (p : Processor)
  : Outcome :=
  match inputs with
  | [] => mkOutcome p [] None
  | channelData :: inputs' =>
      let r := process channelData p in
      match thrown r with
      | Some _ => r
      | None =>
          let r' := run inputs' (processor r) in
          mkOutcome (processor r') (posted r ++ posted r') (thrown r')
      end
  end.

(** The samples waiting in the buffer. *)
Definition pending (p : Processor) : list float :=
  firstn (bufferIndex p) (buffer p).

(** The samples of the render quanta, in order. *)
Definition samples (inputs : list (option (list float))) : list float :=
  concat (map (fun channelData =>
                 match channelData with Some d => d | None => [] end)
              inputs).

(** A processor between two calls: the buffer has its size and is not
    full. *)
Definition ready (p : Processor) : Prop :=
  length (buffer p) = bufferSize p /\ (bufferIndex p < bufferSize p)%nat.

(** Render quanta no longer than the buffer. *)
Definition fits (p : Processor) (inputs : list (option (list float)))
  : Prop :=
  Forall (fun channelData =>
            match channelData with
            | Some d => (length d <= bufferSize p)%nat
            | None => True
            end) inputs.

(** What a call that fits does: nothing is thrown, the processor is ready
    again, and the chunks posted and the samples waiting are the samples
    that waited before and the new ones [d]. *)
Definition step_ok (p : Processor) (d : list float) (r : Outcome) : Prop :=
  thrown r = None /\ ready (processor r)
  /\ bufferSize (processor r) = bufferSize p
  /\ Forall (fun c => length c = bufferSize p) (posted r)
  /\ concat (posted r) ++ pending (processor r) = pending p ++ d.

End Worklet.

(* ================================================================== *)
(** * The audio path and the callbacks of the worker-isolated hook *)
(* ================================================================== *)

Module Capture.
Import Supervisor.

Section Capture.

(** [startTime!] of the hook and [context.sampleRate] of the running
    [start]. *)
Variable startTime : float.
Variable sampleRate : float.

(** The timestamp of the chunk that follows [total] samples. *)
Definition stamp (total : nat) : float :=
  startTime + (JS.of_nat total / sampleRate) * 1000.

(** [workletNode.port.onmessage]: the chunk is stamped with the samples
    counted so far, counted, and posted to the worker when there is
    one. *)
Definition on_chunk (frame : list float) (h : Hook) : Hook :=
  let t0ms := stamp (totalSamplesRef h) in
  let total := (totalSamplesRef h + length frame)%nat in
  mkHook (workerRef h) (workers h)
    (match workerRef h with
     | Some _ => inbox h ++ [Worker.MAudio frame t0ms]
     | None => inbox h
     end)
    (heartbeatIntervalRef h) (gotPong h) (restartAttemptsRef h)
    (segmentsRef h) (activeSpeaker h) total (onNewSegments h) (console h)
    (isCancelled h).

(** The chunks of the worklet, in the order they are posted. *)
Definition feed (frames : list (list float)) (h : Hook) : Hook :=
  fold_left (fun h frame => on_chunk frame h) frames h.

(** The [k] chunks that follow [total] samples, stamped. *)
Fixpoint stamped (total : nat) (frames : list (list float))
  : list Worker.Msg :=
  match frames with
  | [] => []
  | frame :: frames' =>
      Worker.MAudio frame (stamp total)
      :: stamped (total + length frame) frames'
  end.

End Capture.

(** The frames of the audio messages. *)
Fixpoint frames_of (msgs : list Worker.Msg) : list (list float) :=
  match msgs with
  | [] => []
  | Worker.MAudio frame _ :: msgs' => frame :: frames_of msgs'
  | _ :: msgs' => frames_of msgs'
  end.

(** The messages of a worker, handed to [worker.onmessage] in order. *)
Definition deliveries (out : list Worker.Posted) : list Event :=
  map FromWorker out.

(** Event sequences in which the worker answers every ping before the
    next tick; [pending] tells whether a ping is waiting for its pong. *)
Fixpoint answered (pending : bool) (es : list Event) : bool :=
  match es with
  | [] => true
  | Tick :: es' => negb pending && answered true es'
  | FromWorker Worker.Pong :: es' => answered false es'
  | FromWorker _ :: es' => answered pending es'
  end.

(** The messages of the worker among the events. *)
Fixpoint received (es : list Event) : list Worker.Posted :=
  match es with
  | [] => []
  | FromWorker m :: es' => m :: received es'
  | Tick :: es' => received es'
  end.

(** The lists handed to [onNewSegments] grow from [before] to [after]. *)
Definition growing (before after : list Worker.Segment)
  (calls : list (list Worker.Segment)) : Prop :=
  Forall (fun l => (exists more, l = before ++ more)
                   /\ exists rest, after = l ++ rest) calls.

(** The arguments of the calls of [onNewSegments] that [out] causes. *)
Fixpoint calls_of (before : list Worker.Segment) (out : list Worker.Posted)
  : list (list Worker.Segment) :=
  match out with
  | [] => []
  | Worker.Segments q :: out' => (before ++ q) :: calls_of (before ++ q) out'
  | _ :: out' => calls_of before out'
  end.

Definition is_tick (e : Event) : bool :=
  match e with Tick => true | _ => false end.

(** The lines the heartbeat and [start()] write. *)
Definition is_restart_line (c : Console) : bool :=
  match c with
  | WarnUnresponsive | LogRestart _ | ErrorRestartFailed
  | ErrorResume | ErrorLoading => true
  | ErrorWorker _ => false
  end.

End Capture.

(* ================================================================== *)
(** * The same-thread hook: features, speaker models and segments *)
(* ================================================================== *)

Module SameThread.

(** [AudioFeatures] and [SpeakerModel]; [timestamp] and [lastSeen] are
    readings of [Date.now()], whole milliseconds. *)
Record AudioFeatures := mkFeatures
  { energy : float;
    pitch : float;
    spectralCentroid : float;
    timestamp : Z }.

Record SpeakerModel := mkModel
  { id : string;
    features : list AudioFeatures;
    avgEnergy : float;
    avgPitch : float;
    avgSpectralCentroid : float;
    lastSeen : Z }.

(** The refs and the state of the hook.  [speakerModelsRef] is a [Map]
    whose values are stored under their own [id]: it is kept as the list of
    its values, in insertion order. *)
Record Refs := mkRefs
  { view : Hook.State;
    speakerModelsRef : list SpeakerModel;
    silenceCountRef : nat;
    featureBufferRef : list AudioFeatures }.

(** An element of a [Uint8Array], [0 <= d < 256], as a number. *)
Definition number_of_byte (d : Z) : float := of_uint63 (Uint63.of_Z d).

(** [samples[i] = (dataArray[i] - 128) / 128]; the quotient of a byte is
    exact in a [Float32Array]. *)
Definition sample (d : Z) : float := (number_of_byte d - 128) / 128.

(** The loop over [i >= 1] that counts the changes of
    [samples[i] >= 0]. *)
Fixpoint zeroCrossings (samples : list float) : nat :=
  match samples with
  | previous :: (current :: _) as rest =>
      Nat.add
        (if Bool.eqb (0 <=? current) (0 <=? previous) then 0%nat else 1%nat)
        (zeroCrossings rest)
  | _ => 0%nat
  end.

(** [arr.slice(-n)]: the last [n] elements, and the whole array for
    [n = 0]. *)
Definition slice_last {A} (n : nat) (l : list A) : list A :=
  match n with
  | O => l
  | _ => skipn (length l - n) l
  end.

(** [fs.reduce((sum, f) => sum + f.field, 0) / fs.length] *)
Definition average (field : AudioFeatures -> float)
  (fs : list AudioFeatures) : float :=
  fold_left (fun sum f => sum + field f) fs 0 / JS.of_nat (length fs).

(** [models.set(model.id, model)]: the value under an existing key is
    replaced in place, a new key is appended. *)
Fixpoint models_set (model : SpeakerModel) (models : list SpeakerModel)
  : list SpeakerModel :=
  match models with
  | [] => [model]
  | m :: models' =>
      if String.eqb (id m) (id model) then model :: models'
      else m :: models_set model models'
  end.

(** The in-place update of [models.get(key)]. *)
Fixpoint models_update (key : string) (f : SpeakerModel -> SpeakerModel)
  (models : list SpeakerModel) : list SpeakerModel :=
  match models with
  | [] => []
  | m :: models' =>
      if String.eqb (id m) key then f m :: models'
      else m :: models_update key f models'
  end.

Section Functions.

(** [AUDIO_CONSTANTS], whose module is not among the sources, and
    [settings.expectedSpeakers]. *)
Variable SILENCE_THRESHOLD : float.
Variable SILENCE_DURATION_MS : float.
Variable FEATURE_WINDOW_SIZE : nat.
Variable SPEAKER_CHANGE_THRESHOLD : float.
Variable MIN_SEGMENT_DURATION_MS : Z.
Variable FFT_SIZE : nat.
Variable expectedSpeakers : Z.

(** [fft]: [FFT_SIZE] zeros overwritten by the first samples. *)
Definition spectrum (samples : list float) : list float :=
  firstn FFT_SIZE samples ++ repeat 0 (FFT_SIZE - length samples)%nat.

(** The loop over [i < fftSize / 2]: [(weightedSum, magnitudeSum)]. *)
Definition magnitudes (fft : list float) : float * float :=
  fold_left
    (fun '(weightedSum, magnitudeSum) i =>
       let magnitude := abs (nth i fft 0) in
       (weightedSum + magnitude * JS.of_nat i, magnitudeSum + magnitude))
    (seq 0 (Nat.div2 (S FFT_SIZE))) (0, 0).

(** [calculateFeatures]; [now] is the reading of [Date.now()]. *)
Definition calculateFeatures (dataArray : list Z) (sampleRate : float)
  (now : Z) : AudioFeatures :=
  let samples := map sample dataArray in
  let sum := fold_left (fun sum x => sum + x * x) samples 0 in
  let energy := PrimFloat.sqrt (sum / JS.of_nat (length samples)) in
  let pitch :=
    (JS.of_nat (zeroCrossings samples) * sampleRate)
    / (2 * JS.of_nat (length samples)) in
  let '(weightedSum, magnitudeSum) := magnitudes (spectrum samples) in
  let spectralCentroid :=
    if 0 <? magnitudeSum
    then (weightedSum / magnitudeSum) * (sampleRate / JS.of_nat FFT_SIZE)
    else 0 in
  mkFeatures energy pitch spectralCentroid now.

(** [Math.abs(a - b) / (Math.max(a, b) || 1)] *)
Definition relative_difference (a b : float) : float :=
  abs (a - b) / JS.or_else (JS.Math_max a b) 1.

Definition calculateSimilarity (features1 features2 : list AudioFeatures)
  : float :=
  if Nat.eqb (length features1) 0 || Nat.eqb (length features2) 0 then 0
  else
    let energyDiff :=
      relative_difference (average energy features1)
        (average energy features2) in
    let pitchDiff :=
      relative_difference (average pitch features1)
        (average pitch features2) in
    let spectralDiff :=
      relative_difference (average spectralCentroid features1)
        (average spectralCentroid features2) in
    let distance :=
      energyDiff * 0.2 + pitchDiff * 0.4 + spectralDiff * 0.4 in
    JS.Math_max 0 (1 - distance).

(** The model of a new speaker. *)
Definition newModel (now : Z) (newSpeakerId : string)
  (currentFeatures : list AudioFeatures) : SpeakerModel :=
  mkModel newSpeakerId currentFeatures
    (average energy currentFeatures) (average pitch currentFeatures)
    (average spectralCentroid currentFeatures) now.

Definition newSpeakerId (models : list SpeakerModel) : string :=
  ("S" ++ JS.string_of_nat (length models + 1))%string.

(** The [models.forEach] that looks for the most similar model:
    [(bestMatch, bestSimilarity)]. *)
Definition best_match (currentFeatures : list AudioFeatures)
  (models : list SpeakerModel) : option string * float :=
  fold_left
    (fun '(bestMatch, bestSimilarity) model =>
       let similarity :=
         calculateSimilarity currentFeatures
           (slice_last FEATURE_WINDOW_SIZE (features model)) in
       if bestSimilarity <? similarity
       then (Some (id model), similarity)
       else (bestMatch, bestSimilarity))
    models (None, 0).

(** The update of the matched model. *)
Definition refresh (now : Z) (currentFeatures : list AudioFeatures)
  (model : SpeakerModel) : SpeakerModel :=
  let allFeatures :=
    slice_last FEATURE_WINDOW_SIZE (features model) ++ currentFeatures in
  mkModel (id model) allFeatures
    (average energy allFeatures) (average pitch allFeatures)
    (average spectralCentroid allFeatures) now.

(** [detectSpeaker]: the speaker and the models after the call.  The ids
    are ['S' + n], never the empty string, so [if (bestMatch)] and
    [bestMatch || 'S1'] test for [null]. *)
Definition detectSpeaker (now : Z) (currentFeatures : list AudioFeatures)
  (models : list SpeakerModel) : string * list SpeakerModel :=
  let below := (Z.of_nat (length models) <? expectedSpeakers)%Z in
  if Nat.eqb (length models) 0 || below then
    (newSpeakerId models,
     models_set (newModel now (newSpeakerId models) currentFeatures) models)
  else
    let '(bestMatch, bestSimilarity) :=
      best_match currentFeatures models in
    if (bestSimilarity <? 1 - SPEAKER_CHANGE_THRESHOLD) && below then
      (newSpeakerId models,
       models_set (newModel now (newSpeakerId models) currentFeatures)
         models)
    else
      match bestMatch with
      | Some matched =>
          (matched, models_update matched (refresh now currentFeatures)
                      models)
      | None => ("S1"%string, models)
      end.

Definition endCurrentSegment (endTime : Z) (r : Refs) : Refs :=
  mkRefs (Hook.endCurrentSegment MIN_SEGMENT_DURATION_MS endTime (view r))
    (speakerModelsRef r) (silenceCountRef r) (featureBufferRef r).

Definition is_open (r : Refs) : bool :=
  match Hook.currentSegmentRef (view r) with
  | Some _ => true
  | None => false
  end.

(** From [detectSpeaker(featureBufferRef.current)] on. *)
Definition decide (now currentTime : Z) (r : Refs) : Refs :=
  let '(detectedSpeaker, models) :=
    detectSpeaker now (featureBufferRef r) (speakerModelsRef r) in
  let r := mkRefs (view r) models (silenceCountRef r)
             (featureBufferRef r) in
  let same :=
    match Hook.currentSegmentRef (view r) with
    | Some segment => String.eqb (Hook.speakerId segment) detectedSpeaker
    | None => false
    end in
  if negb same then
    let r := if is_open r then endCurrentSegment currentTime r else r in
    mkRefs
      (Hook.mkState
         (Some (Hook.mkSegment detectedSpeaker currentTime
                  (currentTime + 100)%Z))
         (Hook.segments (view r)) (Some detectedSpeaker))
      (speakerModelsRef r) (silenceCountRef r) (featureBufferRef r)
  else
    mkRefs
      (Hook.mkState
         (option_map
            (fun segment =>
               Hook.mkSegment (Hook.speakerId segment)
                 (Hook.startMs segment) currentTime)
            (Hook.currentSegmentRef (view r)))
         (Hook.segments (view r)) (Hook.activeSpeaker (view r)))
      (speakerModelsRef r) (silenceCountRef r) (featureBufferRef r).

(** [processAudioData]; [startTime] is the prop of the hook ([None] for
    [null]) and [now] the reading of [Date.now()] of the call.  The later
    readings of the same call only fill [timestamp] and [lastSeen], which
    nothing reads; they are taken equal to [now]. *)
Definition processAudioData (startTime : option Z) (now : Z)
  (dataArray : list Z) (sampleRate : float) (r : Refs) : Refs :=
  match startTime with
  | None => r
  | Some start =>
      if (start =? 0)%Z then r
      else
        let currentTime := (now - start)%Z in
        let features := calculateFeatures dataArray sampleRate now in
        if energy features <? SILENCE_THRESHOLD then
          let r := mkRefs (view r) (speakerModelsRef r)
                     (S (silenceCountRef r)) (featureBufferRef r) in
          let silenceDuration :=
            (JS.of_nat (silenceCountRef r) * JS.of_nat (length dataArray)
             / sampleRate) * 1000 in
          if (SILENCE_DURATION_MS <? silenceDuration) && is_open r then
            let r := endCurrentSegment currentTime r in
            mkRefs (view r) (speakerModelsRef r) (silenceCountRef r) []
          else r
        else
          let buffer := featureBufferRef r ++ [features] in
          let buffer :=
            if Nat.ltb FEATURE_WINDOW_SIZE (length buffer)
            then slice_last FEATURE_WINDOW_SIZE buffer
            else buffer in
          let r := mkRefs (view r) (speakerModelsRef r) 0 buffer in
          if Nat.ltb (length buffer) 3 then r
          else decide now currentTime r
  end.

(** [resetDiarization] *)
Definition resetDiarization (r : Refs) : Refs :=
  mkRefs (Hook.mkState None [] None) [] 0 [].

(** The part of [cleanup] that touches the segments. *)
Definition cleanup (startTime : option Z) (now : Z) (r : Refs) : Refs :=
  match startTime with
  | None => r
  | Some start =>
      if is_open r && negb (start =? 0)%Z
      then endCurrentSegment (now - start)%Z r
      else r
  end.

(** What happens to a mounted hook: an audio message of the worklet, a
    reset, a cleanup. *)
Inductive Event :=
| Frame (now : Z) (dataArray : list Z) (sampleRate : float)
| Reset
| Cleanup (now : Z).

Definition step (startTime : option Z) (e : Event) (r : Refs) : Refs :=
  match e with
  | Frame now dataArray sampleRate =>
      processAudioData startTime now dataArray sampleRate r
  | Reset => resetDiarization r
  | Cleanup now => cleanup startTime now r
  end.

Definition run (startTime : option Z) (es : list Event) (r : Refs)
  : Refs :=
  fold_left (fun r e => step startTime e r) es r.

End Functions.

(** The hook when it mounts. *)
Definition mounted : Refs := mkRefs (Hook.mkState None [] None) [] 0 [].

(** The readings of the clock, in order. *)
Definition clock_of (e : Event) : option Z :=
  match e with
  | Frame now _ _ | Cleanup now => Some now
  | Reset => None
  end.

Fixpoint clock_from (lo : Z) (es : list Event) : Prop :=
  match es with
  | [] => True
  | e :: es' =>
      match clock_of e with
      | Some now => (lo <= now)%Z /\ clock_from now es'
      | None => clock_from lo es'
      end
  end.

End SameThread.


(** The vocabulary of the statements about the same-thread hook. *)
Module SameThreadSpec.
Import SameThread.

(** The models are those of [S1 .. Sn], in creation order. *)
Definition enrolled (models : list SpeakerModel) : Prop :=
  map id models = WorkerSpec.speaker_ids (length models).

Section Spec.

Variable expectedSpeakers : Z.
Variable MIN_SEGMENT_DURATION_MS : Z.

(** The speakers of the hook: the models are [S1 .. Sn] with [n] at most
    the expected count (and one at least is allowed), and every speaker
    of a segment or shown as active is one of them. *)
Definition speakers_known (r : Refs) : Prop :=
  let ids := map id (speakerModelsRef r) in
  enrolled (speakerModelsRef r)
  /\ (Z.of_nat (length (speakerModelsRef r)) <= Z.max 1 expectedSpeakers)%Z
  /\ Forall (fun g => In (Hook.speakerId g) ids) (Hook.segments (view r))
  /\ (forall g, Hook.currentSegmentRef (view r) = Some g ->
                In (Hook.speakerId g) ids)
  /\ (forall spk, Hook.activeSpeaker (view r) = Some spk -> In spk ids).

(** The stored segments last long enough, and the speaker shown is the
    one of the open segment. *)
Definition view_consistent (r : Refs) : Prop :=
  Forall (fun g => (MIN_SEGMENT_DURATION_MS
                    <= Hook.endMs g - Hook.startMs g)%Z)
    (Hook.segments (view r))
  /\ Hook.activeSpeaker (view r)
     = option_map Hook.speakerId (Hook.currentSegmentRef (view r)).

(** [g] is over when [h] starts. *)
Definition before (g h : Hook.DiarizationSegment) : Prop :=
  (Hook.endMs g <= Hook.startMs h)%Z.

(** The stored segments at time [t]: in order, over by [t], and over by
    the start of the open segment, which is not after [t]. *)
Definition in_order (t : Z) (r : Refs) : Prop :=
  StronglySorted before (Hook.segments (view r))
  /\ Forall (fun g => (Hook.startMs g <= Hook.endMs g)%Z
                      /\ (Hook.endMs g <= t)%Z)
       (Hook.segments (view r))
  /\ forall g, Hook.currentSegmentRef (view r) = Some g ->
       (Hook.startMs g <= t)%Z
       /\ Forall (fun h => (Hook.endMs h <= Hook.startMs g)%Z)
            (Hook.segments (view r)).

(** The two clock-free invariants together. *)
Definition sound (r : Refs) : Prop :=
  speakers_known r /\ view_consistent r.

End Spec.



(** The time the hook subtracts from its clock. *)
Definition origin (startTime : option Z) : Z :=
  match startTime with
  | Some start => start
  | None => 0%Z
  end.

End SameThreadSpec.

(* ================================================================== *)
(** * The audio worklet of the same-thread hook *)
(* ================================================================== *)

Module Quantize.

(** [ToUint8] of the assignment to an element of a [Uint8Array]: NaN and
    the infinities give 0, any other number is truncated toward zero and
    taken modulo 256. *)
Definition truncate (x : float) : Z :=
  match Prim2SF x with
  | S754_finite s m e =>
      let magnitude :=
        if (0 <=? e)%Z then Z.shiftl (Zpos m) e
        else Z.shiftr (Zpos m) (- e) in
      if s then (- magnitude)%Z else magnitude
  | _ => 0%Z
  end.

Definition ToUint8 (x : float) : Z := (truncate x mod 256)%Z.

(** [uint8Data[i] = (channel[i] * 128) + 128] *)
Definition quantize (x : float) : Z := ToUint8 (x * 128 + 128).

(** [DiarizationProcessor.process]: the message posted for
    [channel = inputs[0][0]], if there is a channel. *)
Definition process (channel : option (list float)) : option (list Z) :=
  option_map (map quantize) channel.

(** The elements of a [Uint8Array]. *)
Definition bytes : list Z := map Z.of_nat (seq 0 256).

End Quantize.

(* ================================================================== *)
(** * The speaker of a transcript entry (hooks/useTranscript.ts) *)
(* ================================================================== *)

Module Transcript.

(** The time of a new entry: [entryTimestamp - (startTimeRef.current ||
    entryTimestamp)]. *)
Definition entryStartMs (entryTimestamp : Z) (startTimeRef : option Z) : Z :=
  match startTimeRef with
  | Some start =>
      if (start =? 0)%Z then 0%Z else (entryTimestamp - start)%Z
  | None => 0%Z
  end.

(** [[...segments].reverse().find(seg => entryStartMs >= seg.startMs &&
    entryStartMs <= seg.endMs)] *)
Definition overlappingSegment (segments : list Hook.DiarizationSegment)
  (entryStartMs : Z) : option Hook.DiarizationSegment :=
  find (fun seg => (Hook.startMs seg <=? entryStartMs)%Z
                   && (entryStartMs <=? Hook.endMs seg)%Z)
    (rev segments).

(** [speakerIds] of the new entry; the ids are never the empty string. *)
Definition speakerIds (segments : list Hook.DiarizationSegment)
  (activeSpeaker : option string) (entryStartMs : Z) : list string :=
  let speakerId :=
    match overlappingSegment segments entryStartMs with
    | Some seg => Some (Hook.speakerId seg)
    | None => activeSpeaker
    end in
  match speakerId with
  | Some spk => [spk]
  | None => []
  end.

End Transcript.

(** Concrete inputs for the statements about the audio path, the
    callbacks and the same-thread hook. *)
Module Cases.
Import Worker.

(** Five frames: one short of a decision. *)
Definition five_frames : list Msg :=
  Scenario.config2
  :: WorkerSpec.audio (Scenario.at_times Scenario.voice_a
                         [100; 200; 300; 400; 500]).

(** The first voice, then five frames of the second: the next frame of
    the second voice changes the speaker. *)
Definition before_change : list Msg :=
  Scenario.config2
  :: Scenario.talk
     ++ WorkerSpec.audio (Scenario.at_times Scenario.voice_b
                            [1900; 2000; 2100; 2200; 2300]).

(** An object whose cepstral coefficients are not numbers. *)
Definition nan_mfcc : Meyda.Object :=
  Meyda.mkObject true (fun _ => None)
    (fun frame =>
       Meyda.Returns
         (Some (Meyda.mkFeatures (Meyda.featureExtractors.rms frame)
                  (Some [nan])))).

(** The worker as the script stands, after the configuration the hook
    posts for two speakers. *)
Definition configured : State :=
  fst (run Meyda.shipped [Scenario.config2] init).

(** What an unconfigured worker may receive. *)
Definition stray : list Msg :=
  [MPing; MAudio Scenario.voice_a 100; MStop None; MOther; MPing].

(** A processor with a buffer of four samples, and render quanta of
    three. *)
Definition small : Worklet.Processor :=
  Worklet.mkProcessor 4 [0; 0; 0; 0] 0.

Definition quanta : list (option (list float)) :=
  [Some [0.1; 0.2; 0.3]; None; Some [0.4; 0.5; 0.6]].

(** A render quantum of nine samples, more than twice the buffer. *)
Definition oversize : list float :=
  [0.1; 0.2; 0.3; 0.4; 0.5; 0.6; 0.7; 0.8; 0.9].

(** Thirty-three render quanta of 128 samples: one chunk and one quantum
    more. *)
Definition quantum : list float := repeat 0.25 128.

Definition microphone : list (option (list float)) :=
  repeat (Some quantum) 33.

(** A heartbeat that is answered, with a segment in between. *)
Definition answered_cycles : list Supervisor.Event :=
  [Supervisor.Tick; Supervisor.FromWorker Pong; Supervisor.Tick;
   Supervisor.FromWorker (Segments [mkSegment "S1"%string 600 700]);
   Supervisor.FromWorker Pong; Supervisor.Tick].

(** The constants of the script-processor variant of the hook, with the
    [fftSize] of its analyser. *)
Definition SILENCE_THRESHOLD : float := 0.01.
Definition SILENCE_DURATION_MS : float := 500.
Definition FEATURE_WINDOW_SIZE : nat := 10.
Definition SPEAKER_CHANGE_THRESHOLD : float := 0.35.
Definition MIN_SEGMENT_DURATION_MS : Z := 300.
Definition FFT_SIZE : nat := 2048.

(** Data arrays of the same-thread hook: a loud one and a silent one. *)
Definition loud : list Z := [228; 28; 228; 28]%Z.
Definition still : list Z := [128; 128; 128; 128]%Z.

(** A hook mounted at time 1000 hears four loud frames, 400 ms apart,
    and is cleaned up. *)
Definition hearing : list SameThread.Event :=
  [SameThread.Frame 1100 loud 48000; SameThread.Frame 1500 loud 48000;
   SameThread.Frame 1900 loud 48000; SameThread.Frame 2300 loud 48000;
   SameThread.Frame 2700 loud 48000; SameThread.Cleanup 3100].

(** The same-thread hook for two speakers. *)
Definition hear (es : list SameThread.Event) : SameThread.Refs :=
  SameThread.run SILENCE_THRESHOLD SILENCE_DURATION_MS FEATURE_WINDOW_SIZE
    SPEAKER_CHANGE_THRESHOLD MIN_SEGMENT_DURATION_MS FFT_SIZE 2
    (Some 1000%Z) es SameThread.mounted.

End Cases.

(* ================================================================== *)
(** * Facts about binary64 comparison and NaN *)
(* ================================================================== *)

(** The order of the specification floats, case by case. *)
Module SFOrder.

Ltac cases :=
  repeat match goal with
    | s : bool |- _ => destruct s
    end;
  cbn [SFleb SFltb SFeqb SFcompare] in *;
  change (Pos.compare_cont Eq) with Pos.compare in *;
  repeat match goal with
    | H : context [Z.compare ?a ?b] |- _ =>
        destruct (Z.compare_spec a b); subst
    | |- context [Z.compare ?a ?b] =>
        destruct (Z.compare_spec a b); subst
    | H : context [Pos.compare ?a ?b] |- _ =>
        destruct (Pos.compare_spec a b); subst
    | |- context [Pos.compare ?a ?b] =>
        destruct (Pos.compare_spec a b); subst
    end;
  cbn in *; try reflexivity; try discriminate; try lia.

Lemma sf_leb_trans x y z :
  SFleb x y = true -> SFleb y z = true -> SFleb x z = true.
Proof. destruct x, y, z; intros; cases. Qed.

Lemma sf_ltb_leb_trans x y z :
  SFltb x y = true -> SFleb y z = true -> SFltb x z = true.
Proof. destruct x, y, z; intros; cases. Qed.

Lemma sf_ltb_leb x y : SFltb x y = true -> SFleb x y = true.
Proof. destruct x, y; intros; cases. Qed.

Lemma sf_leb_refl x : SFeqb x x = true -> SFleb x x = true.
Proof. destruct x; intros; cases. Qed.

Lemma sf_nlt_leb x y :
  SFeqb x x = true -> SFeqb y y = true ->
  SFltb x y = false -> SFleb y x = true.
Proof. destruct x, y; intros; cases. Qed.

Lemma sf_nlt_of_leb x y : SFleb y x = true -> SFltb x y = false.
Proof. destruct x, y; intros; cases. Qed.

Lemma sf_leb_neq_ltb x y :
  SFleb x y = true -> SFeqb y x = false -> SFltb x y = true.
Proof. destruct x, y; intros; cases. Qed.

Lemma sf_eqb_leb x y : SFeqb x y = true -> SFleb x y = true.
Proof. destruct x, y; intros; cases. Qed.

Lemma sf_eqb_sym x y : SFeqb x y = SFeqb y x.
Proof. destruct x, y; cases. Qed.

Lemma sf_eqb_ltb_r x y z : SFeqb x y = true -> SFltb z x = SFltb z y.
Proof. destruct x, y, z; intros; cases. Qed.

Lemma sf_leb_nonnan x y :
  SFleb x y = true -> SFeqb x x = true /\ SFeqb y y = true.
Proof. destruct x, y; intros; split; cases. Qed.

Lemma sf_ltb_nonnan x y :
  SFltb x y = true -> SFeqb x x = true /\ SFeqb y y = true.
Proof. destruct x, y; intros; split; cases. Qed.

Lemma sf_eqb_nonnan x y :
  SFeqb x y = true -> SFeqb x x = true /\ SFeqb y y = true.
Proof. destruct x, y; intros; split; cases. Qed.

Lemma sf_nan_iff x : SFeqb x x = false <-> x = S754_nan.
Proof.
  split; [| intros ->; reflexivity ].
  destruct x; intros; try reflexivity; cases.
Qed.

Lemma sf_top x :
  SFeqb x x = true -> SFltb x (S754_infinity false) = false ->
  SFeqb (S754_infinity false) x = true.
Proof. destruct x; intros; cases. Qed.

End SFOrder.

(** The same facts on the primitive floats, through their specification. *)
Module FloatOrder.

Ltac to_spec :=
  unfold is_nan in *;
  rewrite ?negb_true_iff, ?negb_false_iff in *;
  rewrite ?FloatAxioms.eqb_spec, ?ltb_spec, ?leb_spec in *.

Lemma leb_trans x y z :
  (x <=? y) = true -> (y <=? z) = true -> (x <=? z) = true.
Proof. to_spec. apply SFOrder.sf_leb_trans. Qed.

Lemma ltb_leb_trans x y z :
  (x <? y) = true -> (y <=? z) = true -> (x <? z) = true.
Proof. to_spec. apply SFOrder.sf_ltb_leb_trans. Qed.

Lemma ltb_leb x y : (x <? y) = true -> (x <=? y) = true.
Proof. to_spec. apply SFOrder.sf_ltb_leb. Qed.

Lemma leb_refl x : is_nan x = false -> (x <=? x) = true.
Proof. to_spec. apply SFOrder.sf_leb_refl. Qed.

Lemma nlt_leb x y :
  is_nan x = false -> is_nan y = false ->
  (x <? y) = false -> (y <=? x) = true.
Proof. to_spec. apply SFOrder.sf_nlt_leb. Qed.

Lemma nlt_of_leb x y : (y <=? x) = true -> (x <? y) = false.
Proof. to_spec. apply SFOrder.sf_nlt_of_leb. Qed.

Lemma leb_neq_ltb x y :
  (x <=? y) = true -> (y =? x) = false -> (x <? y) = true.
Proof. to_spec. apply SFOrder.sf_leb_neq_ltb. Qed.

Lemma eqb_leb x y : (x =? y) = true -> (x <=? y) = true.
Proof. to_spec. apply SFOrder.sf_eqb_leb. Qed.

Lemma eqb_sym x y : (x =? y) = (y =? x).
Proof. to_spec. apply SFOrder.sf_eqb_sym. Qed.

Lemma eqb_ltb_r x y z : (x =? y) = true -> (z <? x) = (z <? y).
Proof. to_spec. apply SFOrder.sf_eqb_ltb_r. Qed.

Lemma leb_nonnan x y :
  (x <=? y) = true -> is_nan x = false /\ is_nan y = false.
Proof. to_spec. apply SFOrder.sf_leb_nonnan. Qed.

Lemma ltb_nonnan x y :
  (x <? y) = true -> is_nan x = false /\ is_nan y = false.
Proof. to_spec. apply SFOrder.sf_ltb_nonnan. Qed.

Lemma eqb_nonnan x y :
  (x =? y) = true -> is_nan x = false /\ is_nan y = false.
Proof. to_spec. apply SFOrder.sf_eqb_nonnan. Qed.

Lemma top x :
  is_nan x = false -> (x <? infinity) = false -> (infinity =? x) = true.
Proof. to_spec. apply SFOrder.sf_top. Qed.

Lemma nan_spec x : is_nan x = true <-> Prim2SF x = S754_nan.
Proof. to_spec. apply SFOrder.sf_nan_iff. Qed.

(** NaN is absorbing for the arithmetic of [Meyda.rms]. *)
Lemma add_nan_l x y : is_nan x = true -> is_nan (x + y) = true.
Proof.
  rewrite !nan_spec, add_spec. intros ->. reflexivity.
Qed.

Lemma add_nan_r x y : is_nan y = true -> is_nan (x + y) = true.
Proof.
  rewrite !nan_spec, add_spec. intros ->.
  destruct (Prim2SF x); reflexivity.
Qed.

Lemma mul_nan x : is_nan x = true -> is_nan (x * x) = true.
Proof. rewrite !nan_spec, mul_spec. intros ->. reflexivity. Qed.

Lemma div_nan_l x y : is_nan x = true -> is_nan (x / y) = true.
Proof. rewrite !nan_spec, div_spec. intros ->. reflexivity. Qed.

Lemma sqrt_nan x : is_nan x = true -> is_nan (PrimFloat.sqrt x) = true.
Proof. rewrite !nan_spec, sqrt_spec. intros ->. reflexivity. Qed.

End FloatOrder.

(** The sign of products, sums and square roots: what keeps the noise
    floor a number. *)
Module SFSign.

Import Sign.

Lemma shr_1_nonneg mrs : (0 <= shr_m mrs)%Z -> (0 <= shr_m (shr_1 mrs))%Z.
Proof.
  destruct mrs as [m r s]. simpl.
  destruct m as [| p | p]; [ | destruct p | destruct p ]; simpl; lia.
Qed.

Lemma iter_pos_nonneg p : forall mrs,
  (0 <= shr_m mrs)%Z -> (0 <= shr_m (iter_pos shr_1 p mrs))%Z.
Proof.
  induction p as [p IH | p IH |]; intros mrs H; simpl.
  - apply IH, IH. now apply shr_1_nonneg.
  - now apply IH, IH.
  - now apply shr_1_nonneg.
Qed.

Lemma shr_fexp_nonneg prec emax m e l :
  (0 <= m)%Z -> (0 <= shr_m (fst (shr_fexp prec emax m e l)))%Z.
Proof.
  intros H. unfold shr_fexp, shr.
  assert (H0 : (0 <= shr_m (shr_record_of_loc m l))%Z).
  { destruct l as [| []]; exact H. }
  destruct (_ - e)%Z; simpl; auto.
  now apply iter_pos_nonneg.
Qed.

Lemma round_nearest_even_nonneg m l :
  (0 <= m)%Z -> (0 <= round_nearest_even m l)%Z.
Proof.
  intros H. destruct l as [| []]; simpl; try lia.
  destruct (Z.even m); lia.
Qed.

Lemma binary_round_aux_nonneg prec emax mx ex lx :
  (0 <= mx)%Z ->
  sf_nonneg (binary_round_aux prec emax false mx ex lx) = true.
Proof.
  intros H. unfold binary_round_aux.
  pose proof (shr_fexp_nonneg prec emax mx ex lx H) as H1.
  destruct (shr_fexp prec emax mx ex lx) as [mrs' e']. simpl in H1.
  pose proof (shr_fexp_nonneg prec emax _ e' loc_Exact
                (round_nearest_even_nonneg _ (loc_of_shr_record mrs') H1))
    as H2.
  destruct (shr_fexp prec emax _ e' loc_Exact) as [mrs'' e'']. simpl in H2.
  destruct (shr_m mrs'') as [| m | m]; [ reflexivity | | lia ].
  destruct (_ <=? _)%Z; reflexivity.
Qed.

Lemma SFmul_nonneg prec emax x y :
  sf_nonneg x = true -> sf_positive_finite y = true ->
  sf_nonneg (SFmul prec emax x y) = true.
Proof.
  destruct x as [[] | [] | | [] mx ex]; try discriminate;
    destruct y as [[] | [] | | [] my ey]; try discriminate; intros _ _;
    try reflexivity.
  simpl. now apply binary_round_aux_nonneg.
Qed.

Lemma SFadd_nonneg prec emax x y :
  sf_nonneg x = true -> sf_nonneg y = true ->
  sf_nonneg (SFadd prec emax x y) = true.
Proof.
  destruct x as [[] | [] | | [] mx ex]; try discriminate;
    destruct y as [[] | [] | | [] my ey]; try discriminate; intros _ _;
    try reflexivity.
  simpl. unfold binary_round.
  destruct (shl_align _ _ _) as [mz ez].
  now apply binary_round_aux_nonneg.
Qed.

Lemma SFsqrt_nonneg prec emax x :
  match SFsqrt prec emax x with
  | S754_nan | S754_zero _ => True
  | r => sf_nonneg r = true
  end.
Proof.
  destruct x as [[] | [] | | [] mx ex]; simpl; auto.
  destruct (SFsqrt_core_binary prec emax (Z.pos mx) ex) as [[mz ez] lz] eqn:E.
  assert (Hmz : (0 <= mz)%Z).
  { unfold SFsqrt_core_binary in E. cbv zeta in E.
    match type of E with
    | context [Z.sqrtrem ?m] =>
        pose proof (Z.sqrtrem_sqrt m) as Hs;
        pose proof (Z.sqrt_nonneg m) as Hn;
        destruct (Z.sqrtrem m) as [q r]
    end.
    cbn [fst] in Hs. injection E as E _ _. lia. }
  pose proof (binary_round_aux_nonneg prec emax mz ez lz Hmz) as H.
  destruct (binary_round_aux prec emax false mz ez lz); auto.
Qed.

End SFSign.

Module FloatSign.
Import Sign SFSign.

Lemma constants_positive :
  positive_finite 0.995 = true /\ positive_finite 0.005 = true
  /\ positive_finite 2.5 = true /\ positive_finite 0.0045 = true.
Proof. repeat split; vm_compute; reflexivity. Qed.

Lemma mul_nonneg x c :
  nonneg x = true -> positive_finite c = true -> nonneg (x * c) = true.
Proof. unfold nonneg. rewrite mul_spec. apply SFmul_nonneg. Qed.

Lemma add_nonneg x y :
  nonneg x = true -> nonneg y = true -> nonneg (x + y) = true.
Proof. unfold nonneg. rewrite add_spec. apply SFadd_nonneg. Qed.

Lemma nonneg_nonnan x : nonneg x = true -> is_nan x = false.
Proof.
  unfold nonneg. intros H.
  destruct (is_nan x) eqn:E; [| reflexivity ].
  apply FloatOrder.nan_spec in E. rewrite E in H. discriminate.
Qed.

Lemma positive_nonneg x : positive_finite x = true -> nonneg x = true.
Proof.
  unfold positive_finite, nonneg.
  destruct (Prim2SF x) as [| | | [] ? ?]; simpl; congruence.
Qed.

Lemma sqrt_truthy_nonneg x :
  JS.truthy (PrimFloat.sqrt x) = true -> nonneg (PrimFloat.sqrt x) = true.
Proof.
  unfold JS.truthy, nonneg. rewrite andb_true_iff, !negb_true_iff.
  intros [Hz Hn].
  assert (Hn' : Prim2SF (PrimFloat.sqrt x) <> S754_nan).
  { intros E. apply FloatOrder.nan_spec in E. congruence. }
  rewrite FloatAxioms.eqb_spec in Hz.
  rewrite sqrt_spec in *.
  pose proof (SFsqrt_nonneg prec emax (Prim2SF x)) as H.
  unfold SF64sqrt in *.
  destruct (SFsqrt prec emax (Prim2SF x)) as [s | s | | s m e];
    [ | exact H | | exact H ].
  - vm_compute in Hz. destruct s; discriminate Hz.
  - congruence.
Qed.

End FloatSign.

(* ================================================================== *)
(** * The worker: frames that are dropped, configuration, stop *)
(* ================================================================== *)

Module WorkerFacts.
Import Worker WorkerSpec.

Lemma sum_squares_nan_acc signal t :
  is_nan t = true ->
  is_nan (fold_left (fun t x => t + x * x) signal t) = true.
Proof.
  revert t. induction signal as [| x signal IH]; intros t Ht; simpl.
  - exact Ht.
  - apply IH. now apply FloatOrder.add_nan_l.
Qed.

Lemma sum_squares_nan signal t x :
  In x signal -> is_nan x = true ->
  is_nan (fold_left (fun t x => t + x * x) signal t) = true.
Proof.
  revert t. induction signal as [| y signal IH]; intros t Hin Hx; simpl.
  - destruct Hin.
  - destruct Hin as [-> | Hin].
    + apply sum_squares_nan_acc.
      now apply FloatOrder.add_nan_r, FloatOrder.mul_nan.
    + now apply IH.
Qed.

(** The RMS of a frame that holds a NaN sample is NaN. *)
Lemma rms_nan signal x :
  In x signal -> is_nan x = true ->
  is_nan (Meyda.featureExtractors.rms signal) = true.
Proof.
  intros Hin Hx.
  unfold Meyda.featureExtractors.rms, Meyda.featureExtractors.sum_squares.
  apply FloatOrder.sqrt_nan, FloatOrder.div_nan_l.
  now apply sum_squares_nan with x.
Qed.

Lemma truthy_nan x : is_nan x = true -> JS.truthy x = false.
Proof. unfold JS.truthy. intros ->. now rewrite andb_false_r. Qed.

Lemma truthy_nonnan x : JS.truthy x = true -> is_nan x = false.
Proof.
  unfold JS.truthy. rewrite andb_true_iff, !negb_true_iff. tauto.
Qed.

(** The object of the script has none of the properties the worker
    uses. *)
Lemma exports_lack :
  Meyda.own "_m" = false /\ Meyda.own "process" = false
  /\ Meyda.own "get" = false /\ Meyda.own "signal" = false.
Proof. repeat split. Qed.

Section Handlers.

Variable self_Meyda : Meyda.Object.

Lemma run_app msgs1 msgs2 s :
  run self_Meyda (msgs1 ++ msgs2) s =
  let '(s1, out1) := run self_Meyda msgs1 s in
  let '(s2, out2) := run self_Meyda msgs2 s1 in
  (s2, out1 ++ out2).
Proof.
  revert s. induction msgs1 as [| m msgs1 IH]; intros s; simpl.
  - now destruct (run self_Meyda msgs2 s).
  - destruct (onmessage self_Meyda m s) as [s1 out1].
    rewrite IH.
    destruct (run self_Meyda msgs1 s1) as [s2 out2].
    destruct (run self_Meyda msgs2 s2) as [s3 out3].
    now rewrite app_assoc.
Qed.

(** A frame that reaches the detector is handled by [detect] on its
    features. *)
Lemma processFrame_detected frame t0ms s rms mfcc :
  features_of self_Meyda s frame = Some (rms, mfcc) ->
  processFrame self_Meyda frame t0ms s = detect rms mfcc t0ms s.
Proof.
  unfold features_of, processFrame.
  destruct (Nat.eqb (length frame) 0 || negb (meyda s)); [ discriminate |].
  destruct (Meyda.process self_Meyda frame); [ discriminate |].
  destruct (Meyda.get self_Meyda frame) as [[f |] | err];
    try discriminate.
  destruct (JS.truthy (Meyda.rms f)); [| discriminate ].
  destruct (Meyda.mfcc f); [| discriminate ].
  now intros [= <- <-].
Qed.

(** Any other frame leaves the state as it is and posts nothing; it ends
    with an exception exactly when [process] or [get] raises. *)
Lemma processFrame_dropped frame t0ms s :
  features_of self_Meyda s frame = None ->
  processFrame self_Meyda frame t0ms s = done s
  \/ exists err, processFrame self_Meyda frame t0ms s
                 = mkOutcome s [] (Some err).
Proof.
  unfold features_of, processFrame.
  destruct (Nat.eqb (length frame) 0 || negb (meyda s)); [ now left |].
  destruct (Meyda.process self_Meyda frame) as [err |]; [ right; eauto |].
  destruct (Meyda.get self_Meyda frame) as [[f |] | err];
    [| now left | right; eauto ].
  destruct (JS.truthy (Meyda.rms f)); [| now left ].
  destruct (Meyda.mfcc f); [ discriminate | now left ].
Qed.

(** The same on the side of [self.onmessage]. *)
Lemma onmessage_dropped frame t0ms s :
  features_of self_Meyda s frame = None ->
  onmessage self_Meyda (MAudio frame t0ms) s = (s, [])
  \/ exists err, onmessage self_Meyda (MAudio frame t0ms) s
                 = (s, [Error err]).
Proof.
  intros H. unfold onmessage, handle.
  destruct (processFrame_dropped frame t0ms s H) as [-> | [err ->]];
    [ left; reflexivity | right; exists err; reflexivity ].
Qed.

(** An empty frame is returned at the first guard, whatever the object:
    nothing is posted, the state is unchanged, and the rest of the session
    runs as if the frame had never been sent. *)
Lemma empty_frame_dropped t0ms s :
  onmessage self_Meyda (MAudio [] t0ms) s = (s, [])
  /\ forall before after,
       run self_Meyda (before ++ MAudio [] t0ms :: after) s
       = run self_Meyda (before ++ after) s.
Proof.
  assert (Hdrop : forall s', onmessage self_Meyda (MAudio [] t0ms) s'
                             = (s', [])) by reflexivity.
  split; [ apply Hdrop |].
  intros before after. rewrite !run_app.
  destruct (run self_Meyda before s) as [s1 out1].
  cbn [run]. rewrite Hdrop.
  now destruct (run self_Meyda after s1).
Qed.

(** A frame that holds a NaN sample never reaches the detector when the
    [rms] feature is the RMS of the frame: the state is unchanged, and
    what is posted is nothing, or one [error] when [process] or [get]
    raises. *)
Lemma nan_frame_state frame t0ms s x :
  energy_is_rms self_Meyda -> In x frame -> is_nan x = true ->
  features_of self_Meyda s frame = None
  /\ (onmessage self_Meyda (MAudio frame t0ms) s = (s, [])
      \/ exists err, onmessage self_Meyda (MAudio frame t0ms) s
                     = (s, [Error err])).
Proof.
  intros Hrms Hin Hx.
  assert (H : features_of self_Meyda s frame = None).
  { unfold features_of.
    destruct (Nat.eqb (length frame) 0 || negb (meyda s)); [ reflexivity |].
    destruct (Meyda.process self_Meyda frame); [ reflexivity |].
    destruct (Meyda.get self_Meyda frame) as [[f |] | err] eqn:Hg;
      try reflexivity.
    rewrite (Hrms frame f Hg), (truthy_nan _ (rms_nan _ _ Hin Hx)).
    reflexivity. }
  split; [ exact H | now apply onmessage_dropped ].
Qed.

Lemma flushQueue_empty s :
  segmentQueue s = [] -> flushQueue s = (s, []).
Proof. unfold flushQueue. now intros ->. Qed.

(** What closing a segment posts, with the queue empty as it is between
    two messages. *)
Lemma endCurrentSegment_open timestamp s spk :
  currentSpeakerId s = Some spk -> segmentQueue s = [] ->
  let endTime :=
    if 0 <? lastSpeechTimestamp s then lastSpeechTimestamp s
    else timestamp in
  endCurrentSegment timestamp s =
  (set_lastSpeechTimestamp 0 (set_currentSpeakerId None s),
   if currentSegmentStartMs s <? endTime
   then [Segments [mkSegment spk (currentSegmentStartMs s) endTime]]
   else []).
Proof.
  intros Hspk Hq. unfold endCurrentSegment. rewrite Hspk, Hq. simpl.
  destruct (currentSegmentStartMs s <? _); [| reflexivity ].
  unfold flushQueue. simpl. destruct s; simpl in *. now subst.
Qed.

Lemma endCurrentSegment_closed timestamp s :
  currentSpeakerId s = None -> endCurrentSegment timestamp s = (s, []).
Proof. unfold endCurrentSegment. now intros ->. Qed.

(** Closing a segment leaves the noise floor, the centroids, the
    window, the silence counter and the configuration alone. *)
Lemma endCurrentSegment_frame timestamp s :
  let s' := fst (endCurrentSegment timestamp s) in
  noiseFloor s' = noiseFloor s /\ centroids s' = centroids s
  /\ featureBuffer s' = featureBuffer s
  /\ silenceFrames s' = silenceFrames s /\ cfg s' = cfg s
  /\ meyda s' = meyda s
  /\ currentSegmentStartMs s' = currentSegmentStartMs s.
Proof.
  unfold endCurrentSegment.
  destruct (currentSpeakerId s); [| simpl; tauto ].
  destruct (currentSegmentStartMs s <? _); [| simpl; tauto ].
  unfold flushQueue. simpl.
  destruct (segmentQueue s ++ _); simpl; tauto.
Qed.

(** What a [config] message does, whether or not it raises: [cfg] and
    [meyda] are assigned, and the reply is [ready], or one [error] when
    Meyda is set up for the first time on an object without [_m]. *)
Lemma onmessage_config expected rate s :
  onmessage self_Meyda (MConfig expected rate) s =
  (set_meyda true
     (set_cfg (mkCfg (z_or_else expected 2) (z_or_else rate 16000)) s),
   if meyda s || Meyda.has_m self_Meyda then [Ready]
   else [Error Meyda.no_m]).
Proof.
  unfold onmessage, handle. cbn [meyda set_cfg].
  destruct s as [m fb cs cur st ls sf nf q c]. cbn.
  destruct m; [ reflexivity |].
  destruct (Meyda.has_m self_Meyda); reflexivity.
Qed.

(** The stop branch never assigns the noise floor. *)
Lemma stop_noiseFloor (t0ms : option float) (s : State) :
  noiseFloor (fst (onmessage self_Meyda (MStop t0ms) s)) = noiseFloor s.
Proof.
  unfold onmessage, handle.
  set (stopTs := match t0ms with Some t => t | None => _ end).
  pose proof (endCurrentSegment_frame stopTs s) as Hf.
  destruct (endCurrentSegment stopTs s) as [s1 out1]. simpl in Hf.
  unfold flushQueue. destruct (segmentQueue s1); simpl; tauto.
Qed.

(** C10: a [stop] message resets the centroids, the feature buffer, the
    current speaker id, the last speech timestamp and the silence counter,
    and leaves [noiseFloor] at its adapted value, so that a session
    configured afterwards on the same worker starts from that value. *)
Theorem stop_keeps_noiseFloor (t0ms : option float) (s : State) :
  let s' := fst (onmessage self_Meyda (MStop t0ms) s) in
  centroids s' = [] /\ featureBuffer s' = []
  /\ currentSpeakerId s' = None /\ lastSpeechTimestamp s' = 0
  /\ silenceFrames s' = 0%nat
  /\ noiseFloor s' = noiseFloor s
  /\ forall expected rate,
       noiseFloor
         (fst (run self_Meyda [MStop t0ms; MConfig expected rate] s))
       = noiseFloor s.
Proof.
  pose proof (stop_noiseFloor t0ms s) as H.
  repeat split; try exact H.
  all: try (unfold onmessage, handle;
            destruct (endCurrentSegment _ s) as [s1 out1];
            destruct (flushQueue s1) as [s2 out2]; reflexivity).
  intros expected rate. cbn [run].
  destruct (onmessage self_Meyda (MStop t0ms) s) as [s1 out1] eqn:E.
  rewrite onmessage_config. simpl in *. exact H.
Qed.

End Handlers.

(** The worker as the script stands: a frame that passes the first guard
    raises at [meyda.process()], which posts one [error] and leaves the
    state as it was. *)
Lemma shipped_frame_raises frame t0ms s :
  frame <> [] -> meyda s = true ->
  onmessage Meyda.shipped (MAudio frame t0ms) s
  = (s, [Error Meyda.no_process]).
Proof.
  intros Hf Hm. unfold onmessage, handle, processFrame.
  destruct frame; [ congruence |]. rewrite Hm. reflexivity.
Qed.






End WorkerFacts.

(* ================================================================== *)
(** * The heartbeat *)
(* ================================================================== *)

Module SupervisorFacts.
Import Supervisor.

Section Heartbeat.

Variable expectedSpeakers : option Z.
Variable sampleRate : Z.
Variable browser : nat -> Browser.

#[local] Abbreviation steps :=
  (Supervisor.steps expectedSpeakers sampleRate browser).
#[local] Abbreviation start :=
  (Supervisor.start expectedSpeakers sampleRate browser).

Lemma steps_app es1 es2 h :
  steps (es1 ++ es2) h = steps es2 (steps es1 h).
Proof. unfold Supervisor.steps. apply fold_left_app. Qed.

Lemma count_restart_failed_log c h :
  count_restart_failed (log c h) =
  (count_restart_failed h
   + match c with ErrorRestartFailed => 1 | _ => 0 end)%nat.
Proof.
  unfold count_restart_failed, log. simpl.
  rewrite filter_app, length_app. simpl. now destruct c.
Qed.

(** [start()] when the worklet module loads: a new worker that has only
    received its configuration, a new interval, a clean hook. *)
Lemma start_loads h :
  isCancelled h = false -> moduleLoads (browser (workers h)) = true ->
  let h' := start h in
  started h' /\ isCancelled h' = false
  /\ workers h' = S (workers h) /\ workerRef h' = Some (workers h)
  /\ restartAttemptsRef h' = restartAttemptsRef h
  /\ inbox h' = [config expectedSpeakers sampleRate]
  /\ segmentsRef h' = [] /\ activeSpeaker h' = None
  /\ totalSamplesRef h' = 0%nat
  /\ count_restart_failed h' = count_restart_failed h.
Proof.
  intros Hc Hl. cbv zeta. unfold Supervisor.start. rewrite Hc.
  unfold start_finish, start_begin, stopDiarization, started.
  cbn [workers isCancelled]. rewrite Hl.
  destruct (resumeFails (browser (workers h))); cbn; rewrite Hc; cbn;
    repeat split; try congruence.
  unfold count_restart_failed. cbn.
  rewrite filter_app, length_app. simpl. lia.
Qed.

(** [start()] when the worklet module does not load: the new worker is
    terminated before it is configured, no interval is set, and the
    console gets the line of the [catch]. *)
Lemma start_fails h :
  isCancelled h = false -> moduleLoads (browser (workers h)) = false ->
  let h' := start h in
  workerRef h' = None /\ heartbeatIntervalRef h' = false
  /\ inbox h' = [] /\ workers h' = S (workers h)
  /\ restartAttemptsRef h' = restartAttemptsRef h
  /\ In ErrorLoading (console h')
  /\ segmentsRef h' = [] /\ activeSpeaker h' = None
  /\ count_restart_failed h' = count_restart_failed h.
Proof.
  intros Hc Hl. cbv zeta. unfold Supervisor.start. rewrite Hc.
  unfold start_finish, start_begin, stopDiarization.
  cbn [workers isCancelled]. rewrite Hl.
  destruct (resumeFails (browser (workers h))); cbn;
    repeat split; try (apply in_or_app; right; now left).
  all: unfold count_restart_failed; cbn;
    rewrite ?filter_app, ?length_app; simpl; lia.
Qed.

(** The tick that sends a ping. *)
Lemma tick_pings h :
  heartbeatIntervalRef h = true -> gotPong h = true ->
  tick expectedSpeakers sampleRate browser h =
  mkHook (workerRef h) (workers h) (inbox h ++ [Worker.MPing])
    (heartbeatIntervalRef h) false (restartAttemptsRef h)
    (segmentsRef h) (activeSpeaker h) (totalSamplesRef h)
    (onNewSegments h) (console h) (isCancelled h).
Proof. intros Hi Hp. unfold tick. now rewrite Hi, Hp. Qed.

(** The tick that finds the last ping unanswered, below the cap. *)
Lemma tick_restarts h :
  heartbeatIntervalRef h = true -> gotPong h = false ->
  (restartAttemptsRef h < MAX_RESTARTS)%nat ->
  tick expectedSpeakers sampleRate browser h =
  start
    (mkHook (workerRef h) (workers h) (inbox h) false
       false (S (restartAttemptsRef h)) (segmentsRef h) (activeSpeaker h)
       (totalSamplesRef h) (onNewSegments h)
       ((console h ++ [WarnUnresponsive])
          ++ [LogRestart (S (restartAttemptsRef h))])
       (isCancelled h)).
Proof.
  intros Hi Hp Hlt. apply Nat.ltb_lt in Hlt.
  unfold tick. rewrite Hi, Hp. cbn [negb].
  unfold log.
  cbn [restartAttemptsRef workerRef workers inbox heartbeatIntervalRef
         gotPong segmentsRef activeSpeaker totalSamplesRef onNewSegments
         console isCancelled].
  rewrite Hlt, Hp. reflexivity.
Qed.

Lemma missed_cycle_tick h :
  started h -> (restartAttemptsRef h < MAX_RESTARTS)%nat ->
  steps missed_cycle h =
  start
    (mkHook (workerRef h) (workers h) (inbox h ++ [Worker.MPing]) false
       false (S (restartAttemptsRef h)) (segmentsRef h) (activeSpeaker h)
       (totalSamplesRef h) (onNewSegments h)
       ((console h ++ [WarnUnresponsive])
          ++ [LogRestart (S (restartAttemptsRef h))])
       (isCancelled h)).
Proof.
  intros (Hi & Hp & Hw) Hlt.
  unfold Supervisor.steps, missed_cycle. cbn [fold_left step].
  rewrite (tick_pings h Hi Hp).
  rewrite tick_restarts; [ reflexivity | exact Hi | reflexivity | exact Hlt ].
Qed.

(** One unanswered ping below the cap, the module loading: one new
    worker, a clean hook, one more attempt on the counter. *)
Lemma missed_cycle_restarts h :
  started h -> isCancelled h = false ->
  (restartAttemptsRef h < MAX_RESTARTS)%nat ->
  moduleLoads (browser (workers h)) = true ->
  let h' := steps missed_cycle h in
  started h' /\ isCancelled h' = false
  /\ workers h' = S (workers h)
  /\ workerRef h' = Some (workers h)
  /\ restartAttemptsRef h' = S (restartAttemptsRef h)
  /\ inbox h' = [config expectedSpeakers sampleRate]
  /\ segmentsRef h' = [] /\ activeSpeaker h' = None
  /\ totalSamplesRef h' = 0%nat
  /\ count_restart_failed h' = count_restart_failed h.
Proof.
  intros Hs Hc Hlt Hl. cbv zeta.
  rewrite (missed_cycle_tick h Hs Hlt).
  match goal with
  | |- context [start ?x] =>
      destruct (start_loads x Hc Hl)
        as (H1 & H2 & H3 & H4 & H5 & H6 & H7 & H8 & H9 & H10)
  end.
  repeat split; try apply H1; auto.
  rewrite H10. unfold count_restart_failed. cbn.
  rewrite !filter_app, !length_app. simpl. lia.
Qed.

(** One unanswered ping below the cap, the module not loading: the hook
    is left without worker and without heartbeat. *)
Lemma missed_cycle_unloaded h :
  started h -> isCancelled h = false ->
  (restartAttemptsRef h < MAX_RESTARTS)%nat ->
  moduleLoads (browser (workers h)) = false ->
  let h' := steps missed_cycle h in
  workerRef h' = None /\ heartbeatIntervalRef h' = false
  /\ inbox h' = [] /\ workers h' = S (workers h)
  /\ In ErrorLoading (console h')
  /\ count_restart_failed h' = count_restart_failed h.
Proof.
  intros Hs Hc Hlt Hl. cbv zeta.
  rewrite (missed_cycle_tick h Hs Hlt).
  match goal with
  | |- context [start ?x] =>
      destruct (start_fails x Hc Hl)
        as (H1 & H2 & H3 & H4 & H5 & H6 & H7 & H8 & H9)
  end.
  repeat split; auto.
  rewrite H9. unfold count_restart_failed. cbn.
  rewrite !filter_app, !length_app. simpl. lia.
Qed.

(** One unanswered ping at the cap: no new worker, the interval is
    cleared, one line on the console, and the caller sees nothing. *)
Lemma missed_cycle_gives_up h :
  started h -> (MAX_RESTARTS <= restartAttemptsRef h)%nat ->
  let h' := steps missed_cycle h in
  heartbeatIntervalRef h' = false
  /\ workers h' = workers h
  /\ restartAttemptsRef h' = restartAttemptsRef h
  /\ count_restart_failed h' = S (count_restart_failed h)
  /\ activeSpeaker h' = activeSpeaker h
  /\ onNewSegments h' = onNewSegments h.
Proof.
  intros (Hi & Hp & Hw) Hle.
  apply Nat.ltb_ge in Hle.
  destruct h as [w n i hb gp ra sr spk ts ons c ic]. simpl in *. subst.
  unfold Supervisor.steps, missed_cycle, step, Supervisor.tick.
  simpl. rewrite Hle. simpl.
  repeat split.
  unfold count_restart_failed. simpl.
  rewrite !filter_app, !length_app. simpl. lia.
Qed.

(** [k] unanswered pings in a row, all below the cap, the module loading
    each time. *)
Lemma missed_cycles_restart k : forall h,
  started h -> isCancelled h = false ->
  (restartAttemptsRef h + k <= MAX_RESTARTS)%nat ->
  (forall j, (j < k)%nat ->
             moduleLoads (browser (workers h + j)) = true) ->
  let h' := steps (missed_cycles k) h in
  started h'
  /\ workers h' = (workers h + k)%nat
  /\ restartAttemptsRef h' = (restartAttemptsRef h + k)%nat
  /\ count_restart_failed h' = count_restart_failed h.
Proof.
  induction k as [| k IH]; intros h Hs Hc Hle Hl.
  - simpl. repeat split; try apply Hs; lia.
  - change (missed_cycles (S k)) with (missed_cycle ++ missed_cycles k).
    cbv zeta. rewrite steps_app.
    destruct (missed_cycle_restarts h Hs Hc)
      as (Hs' & Hc' & Hw & _ & Ha & _ & _ & _ & _ & Hf);
      [ lia | rewrite <- (Nat.add_0_r (workers h)); apply Hl; lia |].
    destruct (IH (steps missed_cycle h) Hs' Hc')
      as (Hs'' & Hw' & Ha' & Hf');
      [ rewrite Ha; lia
      | intros j Hj; rewrite Hw;
        replace (S (workers h) + j)%nat with (workers h + S j)%nat by lia;
        apply Hl; lia |].
    repeat split; try apply Hs''; try lia; congruence.
Qed.

Lemma stopped_stays n h :
  heartbeatIntervalRef h = false -> steps (repeat Tick n) h = h.
Proof.
  intros Hi. induction n as [| n IH]; [ reflexivity |].
  assert (Ht : tick expectedSpeakers sampleRate browser h = h).
  { unfold tick. now rewrite Hi. }
  unfold Supervisor.steps in *. simpl. now rewrite Ht.
Qed.

(** C2 (amended): from a started hook with the restart counter at 0, one
    unanswered ping already causes a restart.  When the worklet module
    loads, the restart gives a new worker that has only received its
    configuration, cleared segments, active speaker and sample count, and
    the counter is 1; when it does not load, the new worker is terminated
    at once and the hook is left without worker and without heartbeat,
    for good.  A pong resets the counter to 0.  After [MAX_RESTARTS]
    restarts in a row the next unanswered ping starts no worker, writes
    one line to the console, changes nothing the caller sees, and clears
    the interval, so that no later tick restarts. *)
Theorem heartbeat_policy h :
  started h -> isCancelled h = false -> restartAttemptsRef h = 0%nat ->
  (moduleLoads (browser (workers h)) = true ->
   let h1 := steps missed_cycle h in
   started h1 /\ workers h1 = S (workers h)
   /\ restartAttemptsRef h1 = 1%nat
   /\ inbox h1 = [config expectedSpeakers sampleRate] /\ segmentsRef h1 = []
   /\ activeSpeaker h1 = None /\ totalSamplesRef h1 = 0%nat)
  /\ (moduleLoads (browser (workers h)) = false ->
      let h1 := steps missed_cycle h in
      workerRef h1 = None /\ heartbeatIntervalRef h1 = false
      /\ inbox h1 = [] /\ workers h1 = S (workers h)
      /\ In ErrorLoading (console h1)
      /\ count_restart_failed h1 = count_restart_failed h
      /\ forall n, steps (repeat Tick n) h1 = h1)
  /\ (forall h', workerRef h' <> None ->
        restartAttemptsRef (step expectedSpeakers sampleRate browser
                              (FromWorker Worker.Pong) h') = 0%nat
        /\ gotPong (step expectedSpeakers sampleRate browser
                      (FromWorker Worker.Pong) h') = true)
  /\ ((forall j, (j < MAX_RESTARTS)%nat ->
                 moduleLoads (browser (workers h + j)) = true) ->
      let hk := steps (missed_cycles MAX_RESTARTS) h in
      let hf := steps (missed_cycles (S MAX_RESTARTS)) h in
      workers hk = (workers h + MAX_RESTARTS)%nat
      /\ restartAttemptsRef hk = MAX_RESTARTS
      /\ workers hf = (workers h + MAX_RESTARTS)%nat
      /\ count_restart_failed hf = S (count_restart_failed h)
      /\ heartbeatIntervalRef hf = false
      /\ activeSpeaker hf = activeSpeaker hk
      /\ onNewSegments hf = onNewSegments hk
      /\ forall n, steps (repeat Tick n) hf = hf).
Proof.
  intros Hs Hc Ha. split; [| split; [| split ] ].
  - intros Hl.
    destruct (missed_cycle_restarts h Hs Hc)
      as (H1 & _ & H2 & _ & H3 & H4 & H5 & H6 & H7 & _); auto.
    { rewrite Ha. unfold MAX_RESTARTS. lia. }
    cbv zeta. rewrite H3, Ha. repeat split; try apply H1; auto.
  - intros Hl.
    destruct (missed_cycle_unloaded h Hs Hc)
      as (H1 & H2 & H3 & H4 & H5 & H6); auto.
    { rewrite Ha. unfold MAX_RESTARTS. lia. }
    cbv zeta. repeat split; auto.
    intros n. now apply stopped_stays.
  - intros h' Hw. unfold step, Supervisor.from_worker.
    destruct (workerRef h'); [ split; reflexivity | congruence ].
  - intros Hl. cbv zeta.
    destruct (missed_cycles_restart MAX_RESTARTS h Hs Hc)
      as (Hs' & Hw & Ha' & Hf); auto.
    { rewrite Ha. simpl. lia. }
    replace (missed_cycles (S MAX_RESTARTS))
      with (missed_cycles MAX_RESTARTS ++ missed_cycle)
      by reflexivity.
    rewrite steps_app.
    set (hk := steps (missed_cycles MAX_RESTARTS) h) in *.
    destruct (missed_cycle_gives_up hk Hs') as (G1 & G2 & G3 & G4 & G5 & G6).
    { rewrite Ha', Ha. simpl. lia. }
    rewrite Ha in Ha'. simpl in Ha'.
    split; [ exact Hw |]. split; [ exact Ha' |].
    split; [ now rewrite G2 |]. split; [ now rewrite G4, Hf |].
    split; [ exact G1 |]. split; [ exact G5 |]. split; [ exact G6 |].
    intros n. now apply stopped_stays.
Qed.

(** A cleanup of the effect while [start()] waits for the worklet module:
    whether or not the module loads then, the worker that [start()] had
    created stays terminated, it is never configured and no interval is
    set. *)
Lemma cancelled_start b h :
  let h' :=
    start_finish expectedSpeakers sampleRate b (cleanup (start_begin h)) in
  workerRef h' = None /\ heartbeatIntervalRef h' = false /\ inbox h' = [].
Proof.
  destruct h as [w n i hb gp ra sr spk ts ons c ic].
  cbv zeta. unfold start_finish.
  destruct (resumeFails b), (moduleLoads b); cbn; repeat split.
Qed.

End Heartbeat.

End SupervisorFacts.

(* ================================================================== *)
(** * Voice activity detection and the silence counter *)
(* ================================================================== *)

Module VadFacts.
Import Worker WorkerSpec WorkerFacts.

(** [Math.max] on two numbers is their maximum. *)
Lemma Math_max_spec a b :
  is_nan a = false -> is_nan b = false ->
  (a <=? JS.Math_max a b) = true /\ (b <=? JS.Math_max a b) = true
  /\ (JS.Math_max a b = a \/ JS.Math_max a b = b).
Proof.
  intros Ha Hb. unfold JS.Math_max. rewrite Ha, Hb. simpl.
  destruct (a <? b) eqn:Hlt.
  - repeat split; auto using FloatOrder.ltb_leb, FloatOrder.leb_refl.
  - pose proof (FloatOrder.nlt_leb a b Ha Hb Hlt) as Hle.
    destruct (JS.is_neg_zero a && JS.is_pos_zero b) eqn:Hz.
    + repeat split; auto using FloatOrder.leb_refl.
      apply andb_true_iff in Hz. destruct Hz as [Hza Hzb].
      unfold JS.is_neg_zero, JS.is_pos_zero in *.
      apply andb_true_iff in Hza, Hzb.
      destruct Hza as [Hza _], Hzb as [Hzb _].
      apply FloatOrder.leb_trans with 0.
      * now apply FloatOrder.eqb_leb.
      * apply FloatOrder.eqb_leb. now rewrite FloatOrder.eqb_sym.
    + repeat split; auto using FloatOrder.leb_refl.
Qed.

(** The clustering half of [processFrame] leaves the detector's variables
    and the window alone. *)
Lemma cluster_frame t0ms s :
  let s' := state (cluster t0ms s) in
  noiseFloor s' = noiseFloor s /\ silenceFrames s' = silenceFrames s
  /\ cfg s' = cfg s /\ meyda s' = meyda s
  /\ featureBuffer s' = featureBuffer s.
Proof.
  unfold cluster.
  destruct (Nat.ltb _ _); [ simpl; tauto |].
  destruct (detectSpeaker _ _ _) as [spk cs | err]; [| simpl; tauto ].
  destruct (negb _); [| simpl; tauto ].
  pose proof (endCurrentSegment_frame t0ms (set_centroids cs s)) as Hf.
  destruct (endCurrentSegment t0ms (set_centroids cs s)) as [s1 out].
  simpl in *. tauto.
Qed.

(** The detector's variables after [detect]. *)
Lemma detect_vad rms mfcc t0ms s :
  let s' := state (detect rms mfcc t0ms s) in
  let noise := noiseFloor s * 0.995 + rms * 0.005 in
  noiseFloor s' = noise
  /\ silenceFrames s'
     = if rms <? vadThreshold noise then S (silenceFrames s) else 0%nat.
Proof.
  cbv zeta. unfold detect.
  cbn [noiseFloor set_noiseFloor].
  destruct (rms <? vadThreshold _).
  - cbn [silenceFrames set_silenceFrames].
    destruct (Nat.ltb _ _); [| simpl; tauto ].
    match goal with
    | |- context [endCurrentSegment ?t ?x] =>
        pose proof (endCurrentSegment_frame t x) as Hf;
        destruct (endCurrentSegment t x) as [s1 out]
    end.
    simpl in *. tauto.
  - destruct (Nat.eqb (length mfcc) 0); [ simpl; tauto |].
    match goal with
    | |- context [cluster ?t ?x] =>
        pose proof (cluster_frame t x) as Hf
    end.
    simpl in *. tauto.
Qed.

Lemma endCurrentSegment_closes timestamp s :
  currentSpeakerId (fst (endCurrentSegment timestamp s)) = None.
Proof.
  unfold endCurrentSegment.
  destruct (currentSpeakerId s) eqn:E; [| exact E ].
  destruct (currentSegmentStartMs s <? _); [| reflexivity ].
  destruct (flushQueue _). reflexivity.
Qed.

(** [detect] on features below the threshold. *)
Lemma detect_silent rms mfcc t0ms s :
  (rms <? vadThreshold (noiseFloor s * 0.995 + rms * 0.005)) = true ->
  detect rms mfcc t0ms s =
  let s1 := set_silenceFrames (S (silenceFrames s))
              (set_noiseFloor (noiseFloor s * 0.995 + rms * 0.005) s) in
  if Nat.ltb SILENCE_THRESHOLD_FRAMES (S (silenceFrames s))
  then let '(s2, out) := endCurrentSegment t0ms s1 in mkOutcome s2 out None
  else done s1.
Proof.
  intros H. unfold detect. cbn [noiseFloor set_noiseFloor].
  rewrite H. reflexivity.
Qed.

Section Vad.

Variable self_Meyda : Meyda.Object.

Lemma classify_features s frame rms mfcc :
  features_of self_Meyda s frame = Some (rms, mfcc) ->
  classify self_Meyda s frame =
  Some (negb (rms <? vadThreshold (noiseFloor s * 0.995 + rms * 0.005))).
Proof. unfold classify. now intros ->. Qed.

Lemma classify_silent s frame :
  classify self_Meyda s frame = Some false ->
  exists rms mfcc,
    features_of self_Meyda s frame = Some (rms, mfcc)
    /\ (rms <? vadThreshold (noiseFloor s * 0.995 + rms * 0.005)) = true.
Proof.
  unfold classify.
  destruct (features_of self_Meyda s frame) as [[rms mfcc] |];
    [| discriminate ].
  intros [= H]. exists rms, mfcc. split; [ reflexivity |].
  now apply negb_false_iff.
Qed.

(** What reaches the detector has an [rms] that is a number and not 0. *)
Lemma features_truthy s frame rms mfcc :
  features_of self_Meyda s frame = Some (rms, mfcc) ->
  JS.truthy rms = true
  /\ exists features,
       Meyda.get self_Meyda frame = Meyda.Returns (Some features)
       /\ Meyda.rms features = rms /\ Meyda.mfcc features = Some mfcc
       /\ frame <> [] /\ meyda s = true
       /\ Meyda.process self_Meyda frame = None.
Proof.
  unfold features_of.
  destruct frame as [| x frame]; [ discriminate |].
  destruct (meyda s); [| discriminate ]. cbn [length Nat.eqb negb orb].
  destruct (Meyda.process self_Meyda (x :: frame)); [ discriminate |].
  destruct (Meyda.get self_Meyda (x :: frame)) as [[f |] | err];
    try discriminate.
  destruct (JS.truthy (Meyda.rms f)) eqn:Ht; [| discriminate ].
  destruct (Meyda.mfcc f) eqn:Hm; [| discriminate ].
  intros [= <- <-]. split; [ exact Ht |].
  exists f. repeat split; auto; discriminate.
Qed.

(** The detector's variables after a frame, by what reaches the
    detector. *)
Lemma processFrame_vad frame t0ms s :
  let r := processFrame self_Meyda frame t0ms s in
  match features_of self_Meyda s frame with
  | None => state r = s /\ posted r = []
  | Some (rms, _) =>
      let noise := noiseFloor s * 0.995 + rms * 0.005 in
      noiseFloor (state r) = noise
      /\ silenceFrames (state r)
         = if rms <? vadThreshold noise then S (silenceFrames s)
           else 0%nat
  end.
Proof.
  cbv zeta.
  destruct (features_of self_Meyda s frame) as [[rms mfcc] |] eqn:Hf.
  - rewrite (processFrame_detected self_Meyda frame t0ms s rms mfcc Hf).
    apply detect_vad.
  - destruct (processFrame_dropped self_Meyda frame t0ms s Hf)
      as [-> | [err ->]]; now split.
Qed.

Lemma onmessage_state frame t0ms s :
  fst (onmessage self_Meyda (MAudio frame t0ms) s)
  = state (processFrame self_Meyda frame t0ms s).
Proof. unfold onmessage, handle. now destruct (thrown _). Qed.

(** The noise floor stays a number of sign [+]: it starts at 0.003 and is
    only ever mixed with the RMS of a frame. *)
Lemma noise_update_nonneg noise energy :
  Sign.nonneg noise = true -> Sign.nonneg energy = true ->
  Sign.nonneg (noise * 0.995 + energy * 0.005) = true.
Proof.
  intros Hn He.
  apply FloatSign.add_nonneg; apply FloatSign.mul_nonneg;
    try assumption; apply FloatSign.constants_positive.
Qed.

Lemma rms_truthy_nonneg frame :
  JS.truthy (Meyda.featureExtractors.rms frame) = true ->
  Sign.nonneg (Meyda.featureExtractors.rms frame) = true.
Proof.
  unfold Meyda.featureExtractors.rms. apply FloatSign.sqrt_truthy_nonneg.
Qed.

Lemma threshold_is_number noise :
  Sign.nonneg noise = true ->
  is_nan (vadThreshold noise) = false
  /\ (noise * 2.5 <=? vadThreshold noise) = true
  /\ (0.0045 <=? vadThreshold noise) = true.
Proof.
  intros Hn. unfold vadThreshold.
  assert (Ha : is_nan (noise * 2.5) = false).
  { apply FloatSign.nonneg_nonnan, FloatSign.mul_nonneg;
      [ assumption | apply FloatSign.constants_positive ]. }
  destruct (Math_max_spec (noise * 2.5) 0.0045 Ha eq_refl)
    as (H1 & H2 & Hor).
  split; [| split; assumption ].
  destruct Hor as [-> | ->]; [ exact Ha | reflexivity ].
Qed.

(** With an [rms] feature that is the RMS of the frame, what reaches the
    detector has sign [+]. *)
Lemma features_nonneg s frame rms mfcc :
  energy_is_rms self_Meyda ->
  features_of self_Meyda s frame = Some (rms, mfcc) ->
  rms = Meyda.featureExtractors.rms frame /\ Sign.nonneg rms = true.
Proof.
  intros Hrms Hf.
  destruct (features_truthy s frame rms mfcc Hf)
    as (Ht & f & Hg & Hr & _).
  assert (E : rms = Meyda.featureExtractors.rms frame).
  { rewrite <- Hr. now apply Hrms. }
  split; [ exact E |]. rewrite E in *. now apply rms_truthy_nonneg.
Qed.

Lemma onmessage_noiseFloor_nonneg m s :
  energy_is_rms self_Meyda ->
  Sign.nonneg (noiseFloor s) = true ->
  Sign.nonneg (noiseFloor (fst (onmessage self_Meyda m s))) = true.
Proof.
  intros Hrms Hn.
  destruct m as [expected rate | frame t0ms | t0ms | |].
  - rewrite onmessage_config. exact Hn.
  - rewrite onmessage_state.
    pose proof (processFrame_vad frame t0ms s) as Hv. cbv zeta in Hv.
    destruct (features_of self_Meyda s frame) as [[rms mfcc] |] eqn:Hf.
    + destruct Hv as [-> _]. apply noise_update_nonneg; [ exact Hn |].
      now apply (features_nonneg s frame rms mfcc).
    + destruct Hv as [-> _]. exact Hn.
  - now rewrite stop_noiseFloor.
  - exact Hn.
  - exact Hn.
Qed.

Lemma run_noiseFloor_nonneg msgs : forall s,
  energy_is_rms self_Meyda ->
  Sign.nonneg (noiseFloor s) = true ->
  Sign.nonneg (noiseFloor (fst (run self_Meyda msgs s))) = true.
Proof.
  induction msgs as [| m msgs IH]; intros s Hrms Hn; [ exact Hn |].
  simpl. pose proof (onmessage_noiseFloor_nonneg m s Hrms Hn) as H1.
  destruct (onmessage self_Meyda m s) as [s1 out1].
  specialize (IH s1 Hrms H1).
  now destruct (run self_Meyda msgs s1).
Qed.

(** C6 (amended): at any point of the life of a worker, a frame that
    does not reach the detector (it is empty, Meyda is not set up,
    [process] or [get] raises, or the features, their [rms], 0 and NaN
    included, or their [mfcc] are missing) leaves the state as it is,
    noise floor and silence counter included.  For a frame that reaches it
    the noise floor becomes [noiseFloor*0.995 + energy*0.005] with
    [energy] the [rms] of the features, the threshold is the maximum of
    [noiseFloor*2.5] (on the updated floor) and 0.0045, and the frame
    counts as silence (the silence counter grows by one) exactly when
    [energy < threshold], as speech (the counter is reset) otherwise.
    When the [rms] feature is the root mean square of the frame, the
    threshold is a number, at least the positive constant 0.0045, and the
    frame counts as speech exactly when [energy >= threshold]. *)
Theorem vad_classifies_by_adaptive_threshold msgs frame t0ms :
  let s := fst (run self_Meyda msgs init) in
  let r := processFrame self_Meyda frame t0ms s in
  (features_of self_Meyda s frame = None ->
   state r = s /\ posted r = [])
  /\ forall energy mfcc,
       features_of self_Meyda s frame = Some (energy, mfcc) ->
       let noise := noiseFloor s * 0.995 + energy * 0.005 in
       let threshold := JS.Math_max (noise * 2.5) 0.0045 in
       noiseFloor (state r) = noise
       /\ ((energy <? threshold) = true
           <-> silenceFrames (state r) = S (silenceFrames s))
       /\ ((energy <? threshold) = false
           <-> silenceFrames (state r) = 0%nat)
       /\ (energy_is_rms self_Meyda ->
           energy
           = PrimFloat.sqrt
               (fold_left (fun t x => t + x * x) frame 0
                / JS.of_nat (length frame))
           /\ (0 <? 0.0045) = true
           /\ (noise * 2.5 <=? threshold) = true
           /\ (0.0045 <=? threshold) = true
           /\ (threshold = noise * 2.5 \/ threshold = 0.0045)
           /\ ((threshold <=? energy) = true
               <-> silenceFrames (state r) = 0%nat)
           /\ ((threshold <=? energy) = false
               <-> silenceFrames (state r) = S (silenceFrames s))).
Proof.
  intros s r.
  pose proof (processFrame_vad frame t0ms s) as Hv. cbv zeta in Hv.
  fold r in Hv.
  split.
  { intros Hf. now rewrite Hf in Hv. }
  intros energy mfcc Hf noise threshold. rewrite Hf in Hv.
  fold noise in Hv. unfold vadThreshold in Hv. fold threshold in Hv.
  destruct Hv as [Hnoise Hcount].
  assert (Hlt : ((energy <? threshold) = true
                 <-> silenceFrames (state r) = S (silenceFrames s))
                /\ ((energy <? threshold) = false
                    <-> silenceFrames (state r) = 0%nat)).
  { rewrite Hcount. destruct (energy <? threshold);
      split; split; intros; try discriminate; reflexivity. }
  split; [ exact Hnoise |]. split; [ apply Hlt |]. split; [ apply Hlt |].
  intros Hrms.
  destruct (features_nonneg s frame energy mfcc Hrms Hf) as [He Hpos].
  split; [ exact He |].
  assert (Hs : Sign.nonneg (noiseFloor s) = true).
  { apply run_noiseFloor_nonneg; [ exact Hrms |]. vm_compute. reflexivity. }
  assert (Hn : Sign.nonneg noise = true)
    by now apply noise_update_nonneg.
  destruct (threshold_is_number noise Hn) as (Hnan & Hge & Habs).
  fold threshold in Hnan, Hge, Habs. unfold vadThreshold in Hnan, Hge, Habs.
  fold threshold in Hnan, Hge, Habs.
  split; [ reflexivity |]. split; [ exact Hge |]. split; [ exact Habs |].
  assert (Ha : is_nan (noise * 2.5) = false).
  { apply FloatSign.nonneg_nonnan, FloatSign.mul_nonneg;
      [ assumption | apply FloatSign.constants_positive ]. }
  destruct (Math_max_spec (noise * 2.5) 0.0045 Ha eq_refl)
    as (_ & _ & Hor).
  fold threshold in Hor.
  split; [ exact Hor |].
  assert (Hen : is_nan energy = false)
    by now apply FloatSign.nonneg_nonnan.
  rewrite Hcount.
  destruct (energy <? threshold) eqn:Hcmp.
  - assert (Hle : (threshold <=? energy) = false).
    { destruct (threshold <=? energy) eqn:Hle; [| reflexivity ].
      apply FloatOrder.nlt_of_leb in Hle. congruence. }
    rewrite Hle. split; split; intros; try discriminate; reflexivity.
  - rewrite (FloatOrder.nlt_leb _ _ Hen Hnan Hcmp).
    split; split; intros; try discriminate; reflexivity.
Qed.

(** A frame classified as silence counts, and closes the segment once the
    counter is above the threshold. *)
Lemma onmessage_silent frame t0ms s :
  classify self_Meyda s frame = Some false ->
  let '(s', out) := onmessage self_Meyda (MAudio frame t0ms) s in
  silenceFrames s' = S (silenceFrames s)
  /\ (S (silenceFrames s) <= SILENCE_THRESHOLD_FRAMES ->
      currentSpeakerId s' = currentSpeakerId s /\ out = [])%nat
  /\ (SILENCE_THRESHOLD_FRAMES < S (silenceFrames s) ->
      currentSpeakerId s' = None)%nat.
Proof.
  intros Hc. destruct (classify_silent s frame Hc) as (rms & mfcc & Hf & Hlt).
  unfold onmessage, handle.
  rewrite (processFrame_detected self_Meyda frame t0ms s rms mfcc Hf).
  rewrite (detect_silent rms mfcc t0ms s Hlt). cbv zeta.
  destruct (Nat.ltb SILENCE_THRESHOLD_FRAMES (S (silenceFrames s))) eqn:Hk.
  - apply Nat.ltb_lt in Hk.
    match goal with
    | |- context [endCurrentSegment ?t ?x] =>
        pose proof (endCurrentSegment_frame t x) as Hfr;
        pose proof (endCurrentSegment_closes t x) as Hcl;
        destruct (endCurrentSegment t x) as [s1 out]
    end.
    simpl in *. split; [ tauto |].
    split; [ intros; lia | intros; exact Hcl ].
  - apply Nat.ltb_ge in Hk. simpl.
    split; [ reflexivity |]. split; [ auto | intros; lia ].
Qed.

(** C7: the silence counter counts the consecutive frames classified as
    silence: it grows by one with each of them and a single frame
    classified as speech resets it to zero.  An open segment is kept
    through the first [SILENCE_THRESHOLD_FRAMES] of them; from the moment
    [SILENCE_THRESHOLD_FRAMES] have accumulated, and not before, the
    silence closes the segment: the next silent frame does it, and a
    segment closed that way stays closed while the silence lasts. *)
Theorem silence_closes_at_threshold frames : forall s,
  all_silent self_Meyda s frames ->
  let '(s', out) := run self_Meyda (audio frames) s in
  silenceFrames s' = (silenceFrames s + length frames)%nat
  /\ (silenceFrames s + length frames <= SILENCE_THRESHOLD_FRAMES ->
      currentSpeakerId s' = currentSpeakerId s /\ out = [])%nat
  /\ (forall frame t0ms spk,
        classify self_Meyda s' frame = Some false ->
        currentSpeakerId s' = Some spk ->
        (currentSpeakerId
           (fst (onmessage self_Meyda (MAudio frame t0ms) s')) = None
         <-> (SILENCE_THRESHOLD_FRAMES
              <= silenceFrames s + length frames)%nat))
  /\ (SILENCE_THRESHOLD_FRAMES < silenceFrames s + length frames ->
      frames <> [] -> currentSpeakerId s' = None)%nat
  /\ (currentSpeakerId s = None -> currentSpeakerId s' = None)
  /\ forall frame t0ms,
       classify self_Meyda s frame = Some true ->
       silenceFrames (fst (onmessage self_Meyda (MAudio frame t0ms) s))
       = 0%nat.
Proof.
  assert (Hspeech : forall s frame t0ms,
             classify self_Meyda s frame = Some true ->
             silenceFrames
               (fst (onmessage self_Meyda (MAudio frame t0ms) s)) = 0%nat).
  { intros s frame t0ms Hc. rewrite onmessage_state.
    pose proof (processFrame_vad frame t0ms s) as Hv. cbv zeta in Hv.
    revert Hc. unfold classify.
    destruct (features_of self_Meyda s frame) as [[rms mfcc] |];
      [| discriminate ].
    intros [= Hc]. apply negb_true_iff in Hc. unfold vadThreshold in *.
    destruct Hv as [_ ->]. now rewrite Hc. }
  assert (Hnext : forall s frame t0ms spk,
             classify self_Meyda s frame = Some false ->
             currentSpeakerId s = Some spk ->
             (currentSpeakerId
                (fst (onmessage self_Meyda (MAudio frame t0ms) s)) = None
              <-> (SILENCE_THRESHOLD_FRAMES <= silenceFrames s)%nat)).
  { intros s frame t0ms spk Hc Hopen.
    pose proof (onmessage_silent frame t0ms s Hc) as Hs.
    destruct (onmessage self_Meyda (MAudio frame t0ms) s) as [s1 out1].
    destruct Hs as (_ & Hk & Hz). cbn [fst].
    split.
    - intros Hnone.
      destruct (Nat.le_gt_cases SILENCE_THRESHOLD_FRAMES (silenceFrames s))
        as [Hle | Hgt]; [ exact Hle |].
      destruct Hk as [Hk _]; [ lia | congruence ].
    - intros Hle. apply Hz. lia. }
  induction frames as [| [frame t0ms] frames IH]; intros s Hall.
  - simpl. rewrite Nat.add_0_r.
    split; [ reflexivity |]. split; [ auto |].
    split; [ intros frame t0ms spk Hc Hopen; now apply Hnext with spk |].
    split; [ intros _ H; now contradiction H |].
    split; [ auto | apply Hspeech ].
  - simpl in Hall. destruct Hall as [Hc Hall].
    pose proof (onmessage_silent frame t0ms s Hc) as Hs.
    simpl. destruct (onmessage self_Meyda (MAudio frame t0ms) s)
      as [s1 out1].
    simpl in Hall. specialize (IH s1 Hall).
    destruct (run self_Meyda (audio frames) s1) as [s2 out2].
    destruct Hs as (Hn1 & Hk1 & Hz1).
    destruct IH as (Hn2 & Hk2 & He2 & Hz2 & Hclosed & _).
    rewrite Hn1 in *.
    assert (Hstay : currentSpeakerId s = None -> currentSpeakerId s2 = None).
    { intros Hnone. apply Hclosed.
      destruct (Nat.le_gt_cases (S (silenceFrames s))
                  SILENCE_THRESHOLD_FRAMES) as [Hle | Hgt].
      - destruct (Hk1 Hle) as [-> _]. exact Hnone.
      - now apply Hz1. }
    split; [ lia |]. split; [| split; [| split; [| split ] ] ].
    + intros Hle.
      destruct Hk1 as [Hk1 ->]; [ lia |].
      destruct Hk2 as [Hk2 ->]; [ lia |].
      split; [ congruence | reflexivity ].
    + intros frame' t' spk Hc' Hopen.
      rewrite (He2 frame' t' spk Hc' Hopen). split; intros; lia.
    + intros Hlt _.
      destruct (Nat.le_gt_cases (S (silenceFrames s))
                  SILENCE_THRESHOLD_FRAMES) as [Hle | Hgt].
      * apply Hz2; [ lia |]. intros ->. simpl in Hlt. lia.
      * apply Hclosed. now apply Hz1.
    + exact Hstay.
    + now apply Hspeech.
Qed.

End Vad.

End VadFacts.

(* ================================================================== *)
(** * Nearest-centroid clustering *)
(* ================================================================== *)

Module ClusterFacts.
Import Worker WorkerSpec.

Lemma nonnan_eqb_refl x : is_nan x = false -> (x =? x) = true.
Proof. unfold is_nan. now rewrite negb_false_iff. Qed.

Lemma min_step_spec lowest x :
  is_nan lowest = false -> is_nan x = false ->
  let m := JS.min_step lowest x in
  is_nan m = false /\ (m <=? lowest) = true /\ (m <=? x) = true
  /\ (m = lowest \/ m = x).
Proof.
  intros Hl Hx. unfold JS.min_step. rewrite Hl, Hx. simpl.
  destruct (JS.is_neg_zero x && JS.is_pos_zero lowest) eqn:Hz.
  - apply andb_true_iff in Hz. destruct Hz as [Hzx Hzl].
    unfold JS.is_neg_zero, JS.is_pos_zero in *.
    apply andb_true_iff in Hzx, Hzl.
    destruct Hzx as [Hzx _], Hzl as [Hzl _].
    repeat split; auto using FloatOrder.leb_refl.
    apply FloatOrder.leb_trans with 0.
    + now apply FloatOrder.eqb_leb.
    + apply FloatOrder.eqb_leb. now rewrite FloatOrder.eqb_sym.
  - destruct (x <? lowest) eqn:Hlt.
    + repeat split; auto using FloatOrder.leb_refl, FloatOrder.ltb_leb.
    + repeat split; auto using FloatOrder.leb_refl, FloatOrder.nlt_leb.
Qed.

Lemma fold_min_spec values : forall lowest,
  is_nan lowest = false ->
  Forall (fun d => is_nan d = false) values ->
  let m := fold_left JS.min_step values lowest in
  is_nan m = false /\ (m <=? lowest) = true
  /\ Forall (fun d => (m <=? d) = true) values
  /\ (m = lowest \/ In m values).
Proof.
  induction values as [| x values IH]; intros lowest Hl Hall; simpl.
  - repeat split; auto using FloatOrder.leb_refl.
  - inversion Hall as [| ? ? Hx Hall']; subst.
    destruct (min_step_spec lowest x Hl Hx) as (Hm & Hml & Hmx & Hor).
    destruct (IH (JS.min_step lowest x) Hm Hall') as (Hn & Hle & Hfa & Hin).
    repeat split; auto.
    + eauto using FloatOrder.leb_trans.
    + constructor; [ eauto using FloatOrder.leb_trans | exact Hfa ].
    + destruct Hin as [-> | Hin]; [| now right; right ].
      destruct Hor as [-> | ->]; [ now left | now right; left ].
Qed.

(** [Math.min] of a non-empty array without NaN is below every element and
    equal, as numbers, to one of them. *)
Lemma Math_min_spec values :
  values <> [] ->
  Forall (fun d => is_nan d = false) values ->
  let m := JS.Math_min values in
  Forall (fun d => (m <=? d) = true) values
  /\ exists d, In d values /\ (d =? m) = true.
Proof.
  intros Hne Hall. unfold JS.Math_min.
  destruct (fold_min_spec values infinity eq_refl Hall)
    as (Hn & _ & Hfa & Hin).
  split; [ exact Hfa |].
  destruct Hin as [Heq | Hin].
  - destruct values as [| d values]; [ congruence |].
    exists d. split; [ now left |].
    inversion Hfa as [| ? ? Hd _]; subst.
    inversion Hall as [| ? ? Hdn _]; subst.
    rewrite Heq in *. rewrite FloatOrder.eqb_sym.
    apply FloatOrder.top; [ exact Hdn |].
    now apply FloatOrder.nlt_of_leb.
  - eexists. split; [ exact Hin |]. now apply nonnan_eqb_refl.
Qed.

(** [indexOf] finds the first element equal to [x]. *)
Lemma indexOf_spec arr x :
  (exists d, In d arr /\ (d =? x) = true) ->
  exists i d,
    JS.indexOf arr x = Some i /\ nth_error arr i = Some d
    /\ (d =? x) = true
    /\ forall j dj, (j < i)%nat -> nth_error arr j = Some dj ->
                    (dj =? x) = false.
Proof.
  induction arr as [| y arr IH]; intros (d & Hin & Hd).
  - destruct Hin.
  - simpl. destruct (y =? x) eqn:Hy.
    + exists O, y. repeat split; auto. intros j dj Hj. lia.
    + destruct Hin as [-> | Hin]; [ congruence |].
      destruct IH as (i & d' & Hi & Hnth & Hd' & Hfirst); [ eauto |].
      exists (S i), d'. rewrite Hi. repeat split; auto.
      intros [| j] dj Hj Hnj; simpl in Hnj.
      * congruence.
      * apply Hfirst with j; [ lia | exact Hnj ].
Qed.

(** The exponential moving average, on vectors of one dimension. *)
Lemma ema_spec cvec : forall mean,
  length cvec = length mean ->
  ema cvec mean =
  map (fun cm => fst cm * (1 - alpha) + snd cm * alpha) (combine cvec mean).
Proof.
  induction cvec as [| c cvec IH]; intros [| m mean] Hlen;
    try discriminate; [ reflexivity |].
  simpl. f_equal. apply IH. simpl in Hlen. lia.
Qed.

(** [update_at] rewrites one centroid and keeps the others. *)
Lemma update_at_spec f cs : forall i j,
  nth_error (update_at i f cs) j =
  if Nat.eqb j i then option_map f (nth_error cs j) else nth_error cs j.
Proof.
  induction cs as [| c cs IH]; intros i j.
  - destruct i; simpl; destruct (Nat.eqb j _); destruct j; reflexivity.
  - destruct i as [| i], j as [| j]; simpl; try reflexivity.
    apply IH.
Qed.

Lemma update_at_ids f cs : forall i,
  (forall c, id (f c) = id c) ->
  map id (update_at i f cs) = map id cs.
Proof.
  induction cs as [| c cs IH]; intros i Hf; [ now destruct i |].
  destruct i; simpl; [ now rewrite Hf | now rewrite IH ].
Qed.

(** The loop of [cosineDistance] computes the three sums. *)
Lemma dot_norms_spec v1 : forall v2 d a b,
  length v1 = length v2 ->
  dot_norms v1 v2 d a b =
  (fold_left (fun acc ab => acc + fst ab * snd ab) (combine v1 v2) d,
   fold_left (fun acc ab => acc + fst ab * snd ab) (combine v1 v1) a,
   fold_left (fun acc ab => acc + fst ab * snd ab) (combine v2 v2) b).
Proof.
  induction v1 as [| x v1 IH]; intros [| y v2] d a b Hlen;
    try discriminate; [ reflexivity |].
  simpl. apply IH. simpl in Hlen. lia.
Qed.

(** [cosineDistance] is the cosine distance on vectors of one length, and
    1 on vectors of different lengths. *)
Lemma cosineDistance_spec v1 v2 :
  cosineDistance v1 v2 =
  if Nat.eqb (length v1) (length v2) then cosine_distance v1 v2 else 1.
Proof.
  unfold cosineDistance, cosine_distance, norm, dot.
  destruct (Nat.eqb (length v1) (length v2)) eqn:Hlen; [| reflexivity ].
  apply Nat.eqb_eq in Hlen. cbn [negb].
  rewrite (dot_norms_spec v1 v2 0 0 0 Hlen). reflexivity.
Qed.

(** C5 (amended): for a clustering call with at least one centroid whose
    distances are all numbers.  The distances are the cosine distances to
    the centroids (1 for a centroid of another dimension); the minimum is
    below the distance to every centroid, and the closest centroid is the
    first one at that distance.  When the minimum is strictly above 0.4 and
    there are fewer centroids than expected speakers, a centroid with the
    next id ['S' + (n+1)] seeded with the vector is appended and its id
    returned; otherwise the id of the closest centroid is returned, its
    vector becomes [centroid*(1-0.02) + vector*0.02] in every dimension,
    and the other centroids are as before. *)
Theorem clustering_step expected mean cs :
  cs <> [] ->
  Forall (fun d => is_nan d = false) (distances mean cs) ->
  let minDistance := JS.Math_min (distances mean cs) in
  let adapt := fun c => mkCentroid (id c) (ema (vector c) mean) in
  distances mean cs
  = map (fun c =>
           if Nat.eqb (length mean) (length (vector c))
           then cosine_distance mean (vector c) else 1) cs
  /\ exists closestIdx closest,
    nth_error cs closestIdx = Some closest
    /\ (cosineDistance mean (vector closest) =? minDistance) = true
    /\ (forall c, In c cs ->
          (minDistance <=? cosineDistance mean (vector c)) = true)
    /\ (forall j c, (j < closestIdx)%nat -> nth_error cs j = Some c ->
          (minDistance <? cosineDistance mean (vector c)) = true)
    /\ detectSpeaker expected mean cs =
       (if (0.4 <? minDistance) && (Z.of_nat (length cs) <? expected)%Z
        then Detected (newSpeakerId cs)
               (cs ++ [mkCentroid (newSpeakerId cs) mean])
        else Detected (id closest) (update_at closestIdx adapt cs))
    /\ newSpeakerId cs = ("S" ++ JS.string_of_nat (length cs + 1))%string
    /\ (length (vector closest) = length mean ->
        vector (adapt closest) =
        map (fun cm => fst cm * (1 - 0.02) + snd cm * 0.02)
          (combine (vector closest) mean))
    /\ (forall j,
          nth_error (update_at closestIdx adapt cs) j =
          if Nat.eqb j closestIdx then Some (adapt closest)
          else nth_error cs j).
Proof.
  intros Hne Hall minDistance adapt.
  split.
  { unfold distances. apply map_ext. intros c. apply cosineDistance_spec. }
  assert (Hds : distances mean cs <> []).
  { destruct cs; [ congruence | discriminate ]. }
  destruct (Math_min_spec _ Hds Hall) as (Hmin & Hex).
  fold minDistance in Hmin, Hex.
  destruct (indexOf_spec _ _ Hex) as (i & d & Hi & Hnth & Hd & Hfirst).
  unfold distances in Hnth.
  rewrite nth_error_map in Hnth.
  destruct (nth_error cs i) as [c |] eqn:Hc; [| discriminate ].
  injection Hnth as <-.
  exists i, c. split; [ exact Hc |]. split; [ exact Hd |].
  split; [| split; [| split; [| split; [| split ] ] ] ].
  - intros c' Hin. rewrite Forall_forall in Hmin. apply Hmin.
    unfold distances. now apply in_map with (f := fun c => cosineDistance mean (vector c)).
  - intros j c' Hj Hc'.
    apply FloatOrder.leb_neq_ltb.
    + rewrite Forall_forall in Hmin. apply Hmin.
      unfold distances.
      apply in_map with (f := fun c => cosineDistance mean (vector c)).
      eapply nth_error_In; eauto.
    + apply Hfirst with j; [ exact Hj |].
      unfold distances. rewrite nth_error_map, Hc'. reflexivity.
  - unfold detectSpeaker. destruct cs as [| c0 cs']; [ congruence |].
    fold minDistance. rewrite Hi, Hc. reflexivity.
  - reflexivity.
  - intros Hlen. simpl. now apply ema_spec.
  - intros j. rewrite update_at_spec.
    destruct (Nat.eqb j i) eqn:Hj; [| reflexivity ].
    apply Nat.eqb_eq in Hj. subst. now rewrite Hc.
Qed.

End ClusterFacts.

(* ================================================================== *)
(** * The speakers of a session *)
(* ================================================================== *)

Module SpeakerFacts.
Import Worker WorkerSpec WorkerFacts ClusterFacts.

Lemma string_of_nat_inj n m :
  JS.string_of_nat n = JS.string_of_nat m -> n = m.
Proof.
  unfold JS.string_of_nat. intros H.
  apply DecimalNat.Unsigned.to_uint_inj.
  assert (E : Some (Nat.to_uint n) = Some (Nat.to_uint m)).
  { rewrite <- !NilEmpty.usu. now rewrite H. }
  now injection E.
Qed.

Lemma speaker_ids_NoDup n : NoDup (speaker_ids n).
Proof.
  unfold speaker_ids. apply Injective_map_NoDup; [| apply seq_NoDup ].
  intros a b H. injection H as H. now apply string_of_nat_inj.
Qed.

Lemma speaker_ids_S n :
  speaker_ids (S n) =
  speaker_ids n ++ [("S" ++ JS.string_of_nat (n + 1))%string].
Proof.
  unfold speaker_ids. rewrite seq_S, map_app. simpl.
  now rewrite (Nat.add_comm n 1).
Qed.

Lemma detectSpeaker_nonempty expected mean cs :
  cs <> [] ->
  detectSpeaker expected mean cs =
  let ds := distances mean cs in
  let minDistance := JS.Math_min ds in
  if (CHANGE_THRESHOLD <? minDistance)
     && (Z.of_nat (length cs) <? expected)%Z
  then Detected (newSpeakerId cs) (cs ++ [mkCentroid (newSpeakerId cs) mean])
  else
    match JS.indexOf ds minDistance with
    | Some i =>
        match nth_error cs i with
        | Some c =>
            Detected (id c)
              (update_at i
                 (fun c => mkCentroid (id c) (ema (vector c) mean)) cs)
        | None => Thrown type_error
        end
    | None => Thrown type_error
    end.
Proof. destruct cs; [ congruence | reflexivity ]. Qed.

(** What the clustering step does to the list of speakers. *)
Lemma detectSpeaker_known expected mean cs spk cs' :
  detectSpeaker expected mean cs = Detected spk cs' ->
  map id cs = speaker_ids (length cs) ->
  (Z.of_nat (length cs) <= expected)%Z -> (1 <= expected)%Z ->
  map id cs' = speaker_ids (length cs')
  /\ (Z.of_nat (length cs') <= expected)%Z
  /\ In spk (map id cs')
  /\ exists extra, map id cs' = map id cs ++ extra.
Proof.
  intros Hd Hids Hle H1.
  destruct (Nat.eq_dec (length cs) 0) as [He | Hne].
  - destruct cs; [| discriminate ].
    injection Hd as <- <-. simpl. repeat split; auto; try lia.
    exists ["S1"%string]. reflexivity.
  - assert (Hcs : cs <> []) by (intros ->; now apply Hne).
    rewrite (detectSpeaker_nonempty _ _ _ Hcs) in Hd. cbv zeta in Hd.
    destruct ((CHANGE_THRESHOLD <? _) && _) eqn:Hnew.
    + injection Hd as <- <-.
      apply andb_true_iff in Hnew. destruct Hnew as [_ Hlt].
      apply Z.ltb_lt in Hlt.
      rewrite map_app, length_app, Hids.
      cbn [length map id]. rewrite Nat.add_1_r, speaker_ids_S.
      unfold newSpeakerId.
      split; [ reflexivity |]. split; [ lia |].
      split; [ apply in_or_app; right; now left |].
      eauto.
    + destruct (JS.indexOf _ _) as [i |]; [| discriminate ].
      destruct (nth_error cs i) as [c |] eqn:Hc; [| discriminate ].
      injection Hd as <- <-.
      assert (Hsame : map id (update_at i
                         (fun c => mkCentroid (id c) (ema (vector c) mean))
                         cs) = map id cs)
        by now apply update_at_ids.
      assert (Hlen : length (update_at i
                         (fun c => mkCentroid (id c) (ema (vector c) mean))
                         cs) = length cs).
      { rewrite <- (length_map id), Hsame. apply length_map. }
      rewrite Hsame, Hlen. repeat split; auto.
      * apply in_map. eapply nth_error_In; eauto.
      * exists []. now rewrite app_nil_r.
Qed.

Lemma endCurrentSegment_known timestamp s :
  Known s ->
  let '(s', out) := endCurrentSegment timestamp s in
  Known s' /\ centroids s' = centroids s /\ cfg s' = cfg s
  /\ currentSpeakerId s' = None
  /\ forall spk, In spk (speakers_of out) -> In spk (map id (centroids s)).
Proof.
  intros (Hq & Hids & Hle & H1 & Hcur).
  destruct (currentSpeakerId s) as [spk |] eqn:Hspk.
  - rewrite (endCurrentSegment_open timestamp s spk Hspk Hq). cbv zeta.
    unfold Known. simpl.
    split; [ repeat split; auto; discriminate |].
    repeat split.
    intros x. destruct (currentSegmentStartMs s <? _); simpl; [| tauto ].
    intros [<- | []]. now apply Hcur.
  - rewrite (endCurrentSegment_closed timestamp s Hspk).
    unfold Known. simpl.
    split; [ repeat split; auto; intros; congruence |].
    repeat split; auto; simpl; tauto.
Qed.

Lemma cluster_known t0ms s :
  Known s ->
  let r := cluster t0ms s in
  Known (state r) /\ cfg (state r) = cfg s
  /\ (exists extra,
        map id (centroids (state r)) = map id (centroids s) ++ extra)
  /\ forall spk, In spk (speakers_of (posted r)) ->
                 In spk (map id (centroids (state r))).
Proof.
  intros HK. pose proof HK as (Hq & Hids & Hle & H1 & Hcur).
  assert (Hrefl : exists extra : list SpeakerId,
             map id (centroids s) = map id (centroids s) ++ extra).
  { exists []. now rewrite app_nil_r. }
  unfold cluster.
  destruct (Nat.ltb _ _); [ simpl; repeat split; auto; simpl; tauto |].
  destruct (detectSpeaker _ _ _) as [spk cs | err] eqn:Hd;
    [| simpl; repeat split; auto; simpl; tauto ].
  destruct (detectSpeaker_known _ _ _ _ _ Hd Hids Hle H1)
    as (Hids' & Hle' & Hin & Hext).
  assert (HK1 : Known (set_centroids cs s)).
  { unfold Known. simpl. repeat split; auto.
    intros x Hx. destruct Hext as [extra ->].
    apply in_or_app. left. now apply Hcur. }
  destruct (negb _).
  - pose proof (endCurrentSegment_known t0ms _ HK1) as He.
    destruct (endCurrentSegment t0ms (set_centroids cs s)) as [s1 out].
    destruct He as ((Hq1 & Hids1 & Hle1 & H11 & Hcur1) & Hc1 & Hcfg1 & _ & Hout).
    simpl in Hc1, Hcfg1, Hout. unfold Known. simpl.
    rewrite Hc1 in *. rewrite Hcfg1 in *.
    repeat split; auto.
    + intros x Hx. injection Hx as <-. exact Hin.
    + intros x Hx. clear - Hx Hout Hin.
      induction out as [| p out IH]; simpl in *.
      * destruct Hx as [<- | []]. exact Hin.
      * destruct p; simpl in *; auto.
        -- apply in_app_or in Hx. destruct Hx as [Hx | Hx].
           ++ apply Hout. apply in_or_app. now left.
           ++ apply IH; auto. intros y Hy. apply Hout.
              apply in_or_app. now right.
        -- destruct Hx as [<- | Hx]; [ apply Hout; now left |].
           apply IH; auto.
  - simpl. repeat split; auto; try apply HK1. simpl. tauto.
Qed.

Lemma grows_refl s : Known s -> grows s s [].
Proof.
  intros HK. repeat split; try apply HK.
  - exists []. now rewrite app_nil_r.
  - intros spk [].
Qed.

Lemma detect_known rms mfcc t0ms s :
  Known s ->
  let r := detect rms mfcc t0ms s in
  grows s (state r) (posted r).
Proof.
  intros HK. unfold detect.
  cbn [noiseFloor set_noiseFloor].
  destruct (rms <? vadThreshold _).
  - cbn [silenceFrames set_silenceFrames].
    destruct (Nat.ltb _ _); [| now apply (grows_refl _ HK) ].
    match goal with
    | |- context [endCurrentSegment ?t ?x] =>
        pose proof (endCurrentSegment_known t x HK) as He;
        destruct (endCurrentSegment t x) as [s1 out]
    end.
    destruct He as (HK1 & Hc & Hcfg & _ & Hout). simpl in *.
    repeat split; try apply HK1; auto.
    + exists []. now rewrite app_nil_r, Hc.
    + intros spk Hin. rewrite Hc. now apply Hout.
  - destruct (Nat.eqb (length mfcc) 0); [ now apply (grows_refl _ HK) |].
    match goal with
    | |- context [cluster ?t ?x] =>
        exact (cluster_known t x HK)
    end.
Qed.

Section Session.

Variable self_Meyda : Meyda.Object.

Lemma processFrame_known frame t0ms s :
  Known s ->
  let r := processFrame self_Meyda frame t0ms s in
  grows s (state r) (posted r).
Proof.
  intros HK. cbv zeta.
  destruct (features_of self_Meyda s frame) as [[rms mfcc] |] eqn:Hf.
  - rewrite (processFrame_detected self_Meyda frame t0ms s rms mfcc Hf).
    now apply detect_known.
  - destruct (processFrame_dropped self_Meyda frame t0ms s Hf)
      as [-> | [err ->]]; now apply grows_refl.
Qed.

Lemma onmessage_known m s :
  Known s -> in_session m = true ->
  let '(s', out) := onmessage self_Meyda m s in grows s s' out.
Proof.
  intros HK Hm. unfold onmessage.
  assert (Hg : grows s (state (handle self_Meyda m s))
                 (posted (handle self_Meyda m s))).
  { destruct m; try discriminate; cbn [handle].
    - now apply processFrame_known.
    - destruct (grows_refl s HK) as (H1 & H2 & H3 & H4).
      split; [ exact H1 |]. split; [ exact H2 |]. split; [ exact H3 |].
      simpl. tauto.
    - now apply grows_refl. }
  destruct (thrown _); [| exact Hg ].
  destruct Hg as (H1 & H2 & H3 & H4).
  split; [ exact H1 |]. split; [ exact H2 |]. split; [ exact H3 |].
  intros spk Hin. apply H4.
  clear - Hin. induction (posted _) as [| p out IH]; simpl in *;
    [ destruct Hin |].
  destruct p; simpl in *; auto.
  - apply in_app_or in Hin. apply in_or_app. tauto.
  - tauto.
Qed.

Lemma speakers_of_app out1 out2 :
  speakers_of (out1 ++ out2) = speakers_of out1 ++ speakers_of out2.
Proof.
  induction out1 as [| p out1 IH]; [ reflexivity |].
  destruct p; simpl; rewrite ?IH, ?app_assoc; reflexivity.
Qed.

Lemma run_known msgs : forall s,
  Known s -> forallb in_session msgs = true ->
  let '(s', out) := run self_Meyda msgs s in grows s s' out.
Proof.
  induction msgs as [| m msgs IH]; intros s HK Hall.
  - simpl. now apply grows_refl.
  - simpl in Hall. apply andb_true_iff in Hall. destruct Hall as [Hm Hall].
    pose proof (onmessage_known m s HK Hm) as H1.
    simpl. destruct (onmessage self_Meyda m s) as [s1 out1].
    destruct H1 as (HK1 & Hcfg1 & [e1 He1] & Hout1).
    specialize (IH s1 HK1 Hall).
    destruct (run self_Meyda msgs s1) as [s2 out2].
    destruct IH as (HK2 & Hcfg2 & [e2 He2] & Hout2).
    repeat split; try apply HK2; try congruence.
    + exists (e1 ++ e2). now rewrite He2, He1, app_assoc.
    + intros spk Hin. rewrite speakers_of_app in Hin.
      apply in_app_or in Hin. destruct Hin as [Hin | Hin]; auto.
      rewrite He2. apply in_or_app. left. now apply Hout1.
Qed.

(** C9: in a session configured for [expected >= 1] speakers, at every
    point the number of centroids is at most [expected], their ids are
    exactly [S1 .. Sn] in creation order and pairwise different, every
    speaker id posted is one of them, so that at most [expected] distinct
    ids are ever posted, and the ids of an earlier point are a prefix of
    the later ones (none is renamed, dropped or reused). *)
Theorem speakers_bounded_and_sequential expected rate msgs :
  (1 <= expected)%Z -> forallb in_session msgs = true ->
  let '(s, out) :=
    run self_Meyda (MConfig (Some expected) rate :: msgs) init in
  let n := length (centroids s) in
  (Z.of_nat n <= expected)%Z
  /\ map id (centroids s) = speaker_ids n
  /\ NoDup (map id (centroids s))
  /\ (forall spk, In spk (speakers_of out) -> In spk (speaker_ids n))
  /\ (Z.of_nat (length (nodup string_dec (speakers_of out))) <= expected)%Z
  /\ forall before after,
       msgs = before ++ after ->
       let earlier :=
         fst (run self_Meyda (MConfig (Some expected) rate :: before) init)
       in
       exists extra,
         map id (centroids s) = map id (centroids earlier) ++ extra.
Proof.
  intros H1 Hall.
  assert (HK0 : Known (fst (onmessage self_Meyda
                              (MConfig (Some expected) rate) init))).
  { rewrite onmessage_config. unfold Known. simpl. unfold z_or_else.
    destruct (expected =? 0)%Z eqn:E;
      [ apply Z.eqb_eq in E; lia |].
    simpl. repeat split; auto; try lia. discriminate. }
  assert (Hcfg0 : expectedSpeakers
                    (cfg (fst (onmessage self_Meyda
                                 (MConfig (Some expected) rate) init)))
                  = expected).
  { rewrite onmessage_config. simpl. unfold z_or_else.
    destruct (expected =? 0)%Z eqn:E;
      [ apply Z.eqb_eq in E; lia | reflexivity ]. }
  assert (Hout1 : speakers_of
                    (snd (onmessage self_Meyda
                            (MConfig (Some expected) rate) init)) = []).
  { rewrite onmessage_config. cbn.
    now destruct (Meyda.has_m self_Meyda). }
  change (run self_Meyda (MConfig (Some expected) rate :: msgs) init)
    with (let '(s1, out1) :=
            onmessage self_Meyda (MConfig (Some expected) rate) init in
          let '(s2, out2) := run self_Meyda msgs s1 in
          (s2, out1 ++ out2)).
  destruct (onmessage self_Meyda (MConfig (Some expected) rate) init)
    as [s1 out1] eqn:E1.
  simpl in HK0, Hcfg0, Hout1.
  pose proof (run_known msgs s1 HK0 Hall) as Hrun.
  destruct (run self_Meyda msgs s1) as [s2 out2] eqn:E2.
  destruct Hrun as (HK2 & Hcfg2 & _ & Hout2).
  pose proof HK2 as (_ & Hids & Hle & _ & _).
  cbv zeta. rewrite Hcfg2, Hcfg0 in Hle.
  split; [ exact Hle |]. split; [ exact Hids |].
  split; [ rewrite Hids; apply speaker_ids_NoDup |].
  assert (Hposted : forall spk, In spk (speakers_of (out1 ++ out2)) ->
                                In spk (speaker_ids (length (centroids s2)))).
  { intros spk Hin. rewrite <- Hids. apply Hout2.
    rewrite speakers_of_app, Hout1 in Hin. exact Hin. }
  split; [ exact Hposted |]. split.
  - assert (Hlen : (length (nodup string_dec (speakers_of (out1 ++ out2)))
                    <= length (speaker_ids (length (centroids s2))))%nat).
    { apply NoDup_incl_length; [ apply NoDup_nodup |].
      intros spk Hin. apply Hposted. now apply nodup_In in Hin. }
    unfold speaker_ids in Hlen. rewrite length_map, length_seq in Hlen.
    lia.
  - intros before after ->.
    change (run self_Meyda (MConfig (Some expected) rate :: before) init)
      with (let '(s1, out1) :=
              onmessage self_Meyda (MConfig (Some expected) rate) init in
            let '(s2, out2) := run self_Meyda before s1 in
            (s2, out1 ++ out2)).
    rewrite E1.
    rewrite forallb_app in Hall. apply andb_true_iff in Hall.
    destruct Hall as [Hb Ha].
    rewrite WorkerFacts.run_app in E2.
    pose proof (run_known before s1 HK0 Hb) as Hrb.
    destruct (run self_Meyda before s1) as [sb outb].
    destruct Hrb as (HKb & _).
    pose proof (run_known after sb HKb Ha) as Hra.
    destruct (run self_Meyda after sb) as [sa outa].
    injection E2 as <- _.
    destruct Hra as (_ & _ & Hext & _). exact Hext.
Qed.

End Session.

End SpeakerFacts.

(* ================================================================== *)
(** * The order of the finalized segments *)
(* ================================================================== *)

Module OrderFacts.
Import Worker WorkerSpec WorkerFacts.

Lemma segments_of_app out1 out2 :
  segments_of (out1 ++ out2) = segments_of out1 ++ segments_of out2.
Proof.
  induction out1 as [| p out1 IH]; [ reflexivity |].
  destruct p; simpl; rewrite ?IH, ?app_assoc; reflexivity.
Qed.

Lemma StronglySorted_snoc {A} (R : A -> A -> Prop) l x :
  StronglySorted R l -> Forall (fun y => R y x) l ->
  StronglySorted R (l ++ [x]).
Proof.
  induction 1 as [| y l Hs IH Hy]; intros Hall; simpl.
  - repeat constructor.
  - inversion Hall as [| ? ? Hyx Hall']; subst.
    constructor; [ now apply IH |].
    apply Forall_app. split; [ exact Hy | now constructor ].
Qed.

(** Time moves on: the invariant holds against any later frame time. *)
Lemma Ordered_later lo t s segs :
  Ordered lo s segs -> (lo <=? t) = true -> Ordered t s segs.
Proof.
  intros (Hq & Hs & Hp & Hb & Ho & Hl) Hle.
  repeat split; auto.
  - eapply Forall_impl; [| exact Hb ]. simpl.
    intros g Hg. eauto using FloatOrder.leb_trans.
  - intros H0. eauto using FloatOrder.leb_trans.
Qed.

(** Closing the open segment at a time within [lo]. *)
Lemma endCurrentSegment_ordered lo timestamp s segs :
  Ordered lo s segs -> (timestamp <=? lo) = true ->
  let '(s', out) := endCurrentSegment timestamp s in
  Ordered lo s' (segs ++ segments_of out)
  /\ currentSpeakerId s' = None
  /\ currentSegmentStartMs s' = currentSegmentStartMs s.
Proof.
  intros (Hq & Hs & Hp & Hb & Ho & Hl) Hts.
  destruct (currentSpeakerId s) as [spk |] eqn:Hspk.
  - rewrite (endCurrentSegment_open timestamp s spk Hspk Hq). cbv zeta.
    set (endTime := if 0 <? lastSpeechTimestamp s
                    then lastSpeechTimestamp s else timestamp).
    assert (Hend : (endTime <=? lo) = true).
    { unfold endTime. destruct (0 <? lastSpeechTimestamp s); auto. }
    specialize (Ho ltac:(discriminate)).
    destruct (currentSegmentStartMs s <? endTime) eqn:Hlt.
    + simpl. split; [| split; reflexivity ].
      unfold Ordered. simpl.
      split; [ exact Hq |]. split; [| split; [| split; [| split ] ] ].
      * apply StronglySorted_snoc; [ exact Hs |].
        rewrite Forall_forall in *. intros h Hh. split; simpl.
        -- now apply Ho.
        -- eapply FloatOrder.ltb_leb_trans; [ apply Hp, Hh | now apply Ho ].
      * apply Forall_app. split; [ exact Hp |].
        constructor; [ exact Hlt | constructor ].
      * apply Forall_app. split; [ exact Hb |].
        constructor; [ exact Hend | constructor ].
      * congruence.
      * discriminate.
    + simpl. rewrite app_nil_r. split; [| split; reflexivity ].
      unfold Ordered. simpl. repeat split; auto; try congruence;
        discriminate.
  - rewrite (endCurrentSegment_closed timestamp s Hspk). simpl.
    rewrite app_nil_r. split; [| split; auto ].
    unfold Ordered. repeat split; auto; congruence.
Qed.

Lemma cluster_ordered t0ms s segs :
  Ordered t0ms s segs -> (t0ms <=? t0ms) = true ->
  let r := cluster t0ms s in
  Ordered t0ms (state r) (segs ++ segments_of (posted r)).
Proof.
  intros HO Ht. unfold cluster.
  destruct (Nat.ltb _ _); [ simpl; now rewrite app_nil_r |].
  destruct (detectSpeaker _ _ _) as [spk cs | err];
    [| simpl; now rewrite app_nil_r ].
  destruct (negb _); [| simpl; now rewrite app_nil_r ].
  assert (HO1 : Ordered t0ms (set_centroids cs s) segs) by exact HO.
  pose proof (endCurrentSegment_ordered t0ms t0ms _ segs HO1 Ht) as He.
  destruct (endCurrentSegment t0ms (set_centroids cs s)) as [s1 out].
  destruct He as ((Hq & Hs & Hp & Hb & Ho & Hl) & Hnone & Hstart).
  simpl. rewrite segments_of_app. simpl. rewrite app_nil_r.
  unfold Ordered. simpl. repeat split; auto.
Qed.

Lemma detect_ordered lo rms mfcc t0ms s segs :
  Ordered lo s segs -> (lo <=? t0ms) = true ->
  let r := detect rms mfcc t0ms s in
  Ordered t0ms (state r) (segs ++ segments_of (posted r)).
Proof.
  intros HO Hle.
  pose proof (Ordered_later lo t0ms s segs HO Hle) as HO'.
  assert (Ht : (t0ms <=? t0ms) = true).
  { apply FloatOrder.leb_refl. now apply FloatOrder.leb_nonnan in Hle. }
  unfold detect.
  cbn [noiseFloor set_noiseFloor].
  destruct (rms <? vadThreshold _).
  - cbn [silenceFrames set_silenceFrames].
    destruct (Nat.ltb _ _); [| simpl; now rewrite app_nil_r ].
    match goal with
    | |- context [endCurrentSegment ?t ?x] =>
        assert (HO1 : Ordered t0ms x segs) by exact HO';
        pose proof (endCurrentSegment_ordered t0ms t x segs HO1 Ht) as He;
        destruct (endCurrentSegment t x) as [s1 out]
    end.
    simpl. apply He.
  - match goal with
    | |- context [set_lastSpeechTimestamp t0ms ?x] =>
        assert (HO1 : Ordered t0ms (set_lastSpeechTimestamp t0ms x) segs)
    end.
    { destruct HO' as (Hq & Hs & Hp & Hb & Ho & Hl).
      unfold Ordered. simpl. repeat split; auto. }
    destruct (Nat.eqb (length mfcc) 0); [ simpl; now rewrite app_nil_r |].
    match goal with
    | |- context [cluster ?t ?x] =>
        apply (cluster_ordered t x segs); [ exact HO1 | exact Ht ]
    end.
Qed.

Section Session.

Variable self_Meyda : Meyda.Object.

Lemma processFrame_ordered lo frame t0ms s segs :
  Ordered lo s segs -> (lo <=? t0ms) = true ->
  let r := processFrame self_Meyda frame t0ms s in
  Ordered t0ms (state r) (segs ++ segments_of (posted r)).
Proof.
  intros HO Hle. cbv zeta.
  destruct (features_of self_Meyda s frame) as [[rms mfcc] |] eqn:Hf.
  - rewrite (processFrame_detected self_Meyda frame t0ms s rms mfcc Hf).
    now apply detect_ordered with lo.
  - pose proof (Ordered_later lo t0ms s segs HO Hle) as HO'.
    destruct (processFrame_dropped self_Meyda frame t0ms s Hf)
      as [-> | [err ->]]; simpl; now rewrite app_nil_r.
Qed.

Lemma onmessage_ordered lo m s segs :
  Ordered lo s segs -> not_stop m = true ->
  nondecreasing_from lo (audio_times [m]) = true ->
  let '(s', out) := onmessage self_Meyda m s in
  Ordered (clock lo m) s' (segs ++ segments_of out).
Proof.
  intros HO Hm Hle. unfold onmessage.
  assert (Hg : Ordered (clock lo m) (state (handle self_Meyda m s))
                 (segs ++ segments_of (posted (handle self_Meyda m s)))).
  { destruct m; try discriminate; cbn [handle clock].
    - destruct (meyda _); [| destruct (Meyda.has_m self_Meyda) ];
        simpl; rewrite app_nil_r; exact HO.
    - apply processFrame_ordered with lo; [ exact HO |].
      simpl in Hle. now rewrite andb_true_r in Hle.
    - simpl. rewrite app_nil_r. exact HO.
    - simpl. rewrite app_nil_r. exact HO. }
  destruct (thrown _); [| exact Hg ].
  rewrite segments_of_app. simpl. now rewrite app_nil_r.
Qed.

Lemma run_ordered msgs : forall lo s segs,
  Ordered lo s segs -> forallb not_stop msgs = true ->
  nondecreasing_from lo (audio_times msgs) = true ->
  let '(s', out) := run self_Meyda msgs s in
  exists lo', Ordered lo' s' (segs ++ segments_of out).
Proof.
  induction msgs as [| m msgs IH]; intros lo s segs HO Hall Ht.
  - simpl. rewrite app_nil_r. eauto.
  - simpl in Hall. apply andb_true_iff in Hall. destruct Hall as [Hm Hall].
    assert (Hle : nondecreasing_from lo (audio_times [m]) = true
                  /\ nondecreasing_from (clock lo m) (audio_times msgs)
                     = true).
    { destruct m; simpl in *; try (split; [ reflexivity | exact Ht ]).
      apply andb_true_iff in Ht. now rewrite andb_true_r. }
    destruct Hle as [Hle Ht'].
    pose proof (onmessage_ordered lo m s segs HO Hm Hle) as H1.
    simpl. destruct (onmessage self_Meyda m s) as [s1 out1].
    specialize (IH _ s1 _ H1 Hall Ht').
    destruct (run self_Meyda msgs s1) as [s2 out2].
    now rewrite segments_of_app, app_assoc.
Qed.

Lemma Ordered_init lo : Ordered lo init [].
Proof.
  unfold Ordered. simpl. repeat split; try constructor; discriminate.
Qed.

(** The stop message closes the open segment in order too. *)
Lemma stop_ordered lo final s segs :
  Ordered lo s segs ->
  let out := snd (onmessage self_Meyda (MStop final) s) in
  StronglySorted precedes (segs ++ segments_of out)
  /\ Forall positive (segs ++ segments_of out).
Proof.
  intros (Hq & Hs & Hp & Hb & Ho & Hl).
  unfold onmessage, handle.
  set (stopTs := match final with Some t => t | None => _ end).
  destruct (currentSpeakerId s) as [spk |] eqn:Hspk.
  - rewrite (endCurrentSegment_open stopTs s spk Hspk Hq). cbv zeta.
    set (endTime := if 0 <? lastSpeechTimestamp s
                    then lastSpeechTimestamp s else stopTs).
    specialize (Ho ltac:(discriminate)).
    rewrite flushQueue_empty by exact Hq.
    destruct (currentSegmentStartMs s <? endTime) eqn:Hlt; simpl.
    + split.
      * apply StronglySorted_snoc; [ exact Hs |].
        rewrite Forall_forall in *. intros h Hh. split; simpl.
        -- now apply Ho.
        -- eapply FloatOrder.ltb_leb_trans; [ apply Hp, Hh | now apply Ho ].
      * apply Forall_app. split; [ exact Hp |].
        constructor; [ exact Hlt | constructor ].
    + rewrite app_nil_r. now split.
  - rewrite (endCurrentSegment_closed stopTs s Hspk).
    rewrite flushQueue_empty by exact Hq.
    simpl. rewrite app_nil_r. now split.
Qed.

Lemma StronglySorted_nth {A} (R : A -> A -> Prop) l :
  StronglySorted R l ->
  forall i j a b, (i < j)%nat ->
    nth_error l i = Some a -> nth_error l j = Some b -> R a b.
Proof.
  induction 1 as [| x l Hs IH Hx]; intros i j a b Hij Ha Hb.
  - destruct i; discriminate.
  - destruct j as [| j]; [ lia |]. simpl in Hb.
    destruct i as [| i]; simpl in Ha.
    + injection Ha as <-. rewrite Forall_forall in Hx.
      apply Hx. eapply nth_error_In; eauto.
    + apply IH with i j; auto. lia.
Qed.

(** C8: in a session whose frames carry timestamps that never decrease,
    the finalized segments, those posted at the stop included, have
    positive length, and any segment posted before another one ends at
    or before the start of the other and starts strictly before it. *)
Theorem finalized_segments_sorted_disjoint msgs final :
  forallb not_stop msgs = true ->
  nondecreasing (audio_times msgs) = true ->
  let during := segments_of (snd (run self_Meyda msgs init)) in
  let whole :=
    segments_of (snd (run self_Meyda (msgs ++ [MStop final]) init)) in
  (exists last, whole = during ++ last)
  /\ Forall positive whole
  /\ forall i j g h, (i < j)%nat ->
       nth_error whole i = Some g -> nth_error whole j = Some h ->
       (endMs g <=? startMs h) = true /\ (startMs g <? startMs h) = true.
Proof.
  intros Hall Ht during whole.
  set (lo := hd 0 (audio_times msgs)).
  assert (Ht' : nondecreasing_from lo (audio_times msgs) = true).
  { unfold lo, nondecreasing in *. now destruct (audio_times msgs). }
  pose proof (run_ordered msgs lo init [] (Ordered_init lo) Hall Ht') as Hr.
  unfold whole, during. rewrite run_app.
  destruct (run self_Meyda msgs init) as [s1 out1].
  destruct Hr as [lo' HO]. simpl in HO.
  pose proof (stop_ordered lo' final s1 _ HO) as (Hsorted & Hpos).
  simpl run.
  destruct (onmessage self_Meyda (MStop final) s1) as [s2 out2].
  simpl in *. rewrite app_nil_r, segments_of_app.
  split; [ eauto |]. split; [ exact Hpos |].
  intros i j g h Hij Hg Hh.
  exact (StronglySorted_nth precedes _ Hsorted i j g h Hij Hg Hh).
Qed.

End Session.

End OrderFacts.

(* ================================================================== *)
(** * Whole sessions of the worker *)
(* ================================================================== *)

Module SessionFacts.
Import Worker WorkerSpec SessionSpec WorkerFacts VadFacts.

Lemma flushQueue_posts s :
  forallb about_speech (snd (flushQueue s)) = true
  /\ segmentQueue (fst (flushQueue s)) = [].
Proof.
  unfold flushQueue. destruct (segmentQueue s) eqn:E; simpl; auto.
Qed.

Lemma endCurrentSegment_posts timestamp s :
  forallb about_speech (snd (endCurrentSegment timestamp s)) = true
  /\ (segmentQueue s = [] ->
      segmentQueue (fst (endCurrentSegment timestamp s)) = []).
Proof.
  unfold endCurrentSegment.
  destruct (currentSpeakerId s); [| simpl; auto ].
  destruct (currentSegmentStartMs s <? _); [| simpl; auto ].
  match goal with
  | |- context [flushQueue ?x] =>
      pose proof (flushQueue_posts x) as [H1 H2];
      destruct (flushQueue x) as [s1 out]
  end.
  simpl in *. auto.
Qed.

Lemma forallb_about_app out1 out2 :
  forallb about_speech out1 = true -> forallb about_speech out2 = true ->
  forallb about_speech (out1 ++ out2) = true.
Proof. intros. rewrite forallb_app. now apply andb_true_iff. Qed.

Lemma cluster_posts t0ms s :
  forallb about_speech (posted (cluster t0ms s)) = true
  /\ (segmentQueue s = [] -> segmentQueue (state (cluster t0ms s)) = []).
Proof.
  unfold cluster.
  destruct (Nat.ltb _ _); [ simpl; auto |].
  destruct (detectSpeaker _ _ _) as [spk cs | err]; [| simpl; auto ].
  destruct (negb _); [| simpl; auto ].
  match goal with
  | |- context [endCurrentSegment ?t ?x] =>
      pose proof (endCurrentSegment_posts t x) as [H1 H2];
      destruct (endCurrentSegment t x) as [s1 out]
  end.
  simpl in *. split; [| exact H2 ].
  apply forallb_about_app; auto.
Qed.

Lemma detect_posts rms mfcc t0ms s :
  forallb about_speech (posted (detect rms mfcc t0ms s)) = true
  /\ (segmentQueue s = [] ->
      segmentQueue (state (detect rms mfcc t0ms s)) = []).
Proof.
  unfold detect.
  destruct (rms <? vadThreshold _).
  - destruct (Nat.ltb _ _); [| simpl; auto ].
    match goal with
    | |- context [endCurrentSegment ?t ?x] =>
        pose proof (endCurrentSegment_posts t x) as [H1 H2];
        destruct (endCurrentSegment t x) as [s1 out]
    end.
    simpl in *. auto.
  - destruct (Nat.eqb (length mfcc) 0); [ simpl; auto |].
    match goal with
    | |- context [cluster ?t ?x] => exact (cluster_posts t x)
    end.
Qed.

Section Session.

Variable self_Meyda : Meyda.Object.

Lemma processFrame_posts frame t0ms s :
  forallb about_speech (posted (processFrame self_Meyda frame t0ms s)) = true
  /\ (segmentQueue s = [] ->
      segmentQueue (state (processFrame self_Meyda frame t0ms s)) = []).
Proof.
  destruct (features_of self_Meyda s frame) as [[rms mfcc] |] eqn:Hf.
  - rewrite (processFrame_detected self_Meyda frame t0ms s rms mfcc Hf).
    apply detect_posts.
  - destruct (processFrame_dropped self_Meyda frame t0ms s Hf)
      as [-> | [err ->]]; simpl; auto.
Qed.

(** The queue is empty between messages. *)
Lemma onmessage_queue m s :
  segmentQueue s = [] -> segmentQueue (fst (onmessage self_Meyda m s)) = [].
Proof.
  intros Hq. unfold onmessage.
  assert (H : segmentQueue (state (handle self_Meyda m s)) = []).
  { destruct m; cbn [handle]; auto.
    - destruct (meyda _); [| destruct (Meyda.has_m self_Meyda) ];
        exact Hq.
    - now apply processFrame_posts.
    - destruct (endCurrentSegment _ s) as [s1 out1].
      pose proof (flushQueue_posts s1) as [_ H2].
      destruct (flushQueue s1) as [s2 out2]. exact H2. }
  destruct (thrown _); exact H.
Qed.

Lemma run_queue msgs : forall s,
  segmentQueue s = [] -> segmentQueue (fst (run self_Meyda msgs s)) = [].
Proof.
  induction msgs as [| m msgs IH]; intros s Hq; [ exact Hq |].
  simpl. pose proof (onmessage_queue m s Hq) as H1.
  destruct (onmessage self_Meyda m s) as [s1 out1].
  specialize (IH s1 H1). destruct (run self_Meyda msgs s1) as [s2 out2].
  exact IH.
Qed.

Lemma count_app {A} (f : A -> bool) l1 l2 :
  count f (l1 ++ l2) = (count f l1 + count f l2)%nat.
Proof. unfold count. now rewrite filter_app, length_app. Qed.

Lemma count_about (f : Posted -> bool) out :
  (forall p, about_speech p = true -> f p = false) ->
  forallb about_speech out = true -> count f out = 0%nat.
Proof.
  intros Hf. induction out as [| p out IH]; intros H; [ reflexivity |].
  simpl in H. apply andb_true_iff in H. destruct H as [Hp H].
  unfold count in *. simpl. rewrite (Hf p Hp). auto.
Qed.

(** The [pong]s a message causes. *)
Lemma onmessage_pongs m s :
  count is_pong (snd (onmessage self_Meyda m s))
  = (if is_ping m then 1 else 0)%nat.
Proof.
  assert (Hp : forall p, about_speech p = true -> is_pong p = false)
    by (intros []; simpl; congruence).
  destruct m as [expected rate | frame t0ms | t0ms | |];
    try reflexivity.
  - rewrite onmessage_config. cbn [snd is_ping].
    now destruct (meyda s || _).
  - unfold onmessage, handle.
    pose proof (processFrame_posts frame t0ms s) as [H _].
    destruct (thrown _); cbn [snd is_ping]; rewrite ?count_app;
      rewrite (count_about is_pong _ Hp H); reflexivity.
  - unfold onmessage, handle.
    destruct (endCurrentSegment _ s) as [s1 out1] eqn:E1.
    pose proof (endCurrentSegment_posts
                  (match t0ms with
                   | Some t => t
                   | None => JS.or_else (lastSpeechTimestamp s) 0
                   end) s) as [H1 _].
    rewrite E1 in H1. simpl in H1.
    pose proof (flushQueue_posts s1) as [H2 _].
    destruct (flushQueue s1) as [s2 out2]. simpl in *.
    rewrite !count_about; auto using forallb_about_app.
Qed.

(** The [ready]s a message causes: one per [config], but for the one
    that sets Meyda up on an object without [_m]. *)
Lemma onmessage_readies m s :
  count is_ready (snd (onmessage self_Meyda m s))
  = (if is_config m
     then if meyda s || Meyda.has_m self_Meyda then 1 else 0
     else 0)%nat.
Proof.
  assert (Hr : forall p, about_speech p = true -> is_ready p = false)
    by (intros []; simpl; congruence).
  destruct m as [expected rate | frame t0ms | t0ms | |];
    try reflexivity.
  - rewrite onmessage_config. cbn [snd is_config].
    now destruct (meyda s || _).
  - unfold onmessage, handle.
    pose proof (processFrame_posts frame t0ms s) as [H _].
    destruct (thrown _); cbn [snd is_config]; rewrite ?count_app;
      rewrite (count_about is_ready _ Hr H); reflexivity.
  - unfold onmessage, handle.
    destruct (endCurrentSegment _ s) as [s1 out1] eqn:E1.
    pose proof (endCurrentSegment_posts
                  (match t0ms with
                   | Some t => t
                   | None => JS.or_else (lastSpeechTimestamp s) 0
                   end) s) as [H1 _].
    rewrite E1 in H1. simpl in H1.
    pose proof (flushQueue_posts s1) as [H2 _].
    destruct (flushQueue s1) as [s2 out2]. simpl in *.
    rewrite !count_about; auto using forallb_about_app.
Qed.

(** [meyda] is set by the first [config] and stays set. *)
Lemma onmessage_meyda m s :
  meyda (fst (onmessage self_Meyda m s)) = meyda s || is_config m.
Proof.
  destruct m as [expected rate | frame t0ms | t0ms | |].
  - rewrite onmessage_config. cbn. now rewrite orb_true_r.
  - rewrite VadFacts.onmessage_state.
    cbn [is_config]. rewrite orb_false_r.
    destruct (features_of self_Meyda s frame) as [[rms mfcc] |] eqn:Hf.
    + rewrite (processFrame_detected self_Meyda frame t0ms s rms mfcc Hf).
      unfold detect.
      destruct (rms <? vadThreshold _).
      * destruct (Nat.ltb _ _); [| reflexivity ].
        match goal with
        | |- context [endCurrentSegment ?t ?x] =>
            pose proof (endCurrentSegment_frame t x) as He;
            destruct (endCurrentSegment t x) as [s1 out]
        end.
        cbn in *. tauto.
      * destruct (Nat.eqb (length mfcc) 0); [ reflexivity |].
        match goal with
        | |- context [cluster ?t ?x] =>
            pose proof (cluster_frame t x) as Hc
        end.
        cbn in *. tauto.
    + destruct (processFrame_dropped self_Meyda frame t0ms s Hf)
        as [-> | [err ->]]; cbn; reflexivity.
  - unfold onmessage, handle.
    match goal with
    | |- context [endCurrentSegment ?t ?x] =>
        pose proof (endCurrentSegment_frame t x) as He;
        destruct (endCurrentSegment t x) as [s1 out1]
    end.
    unfold flushQueue. destruct (segmentQueue s1); cbn in *;
      rewrite orb_false_r; tauto.
  - cbn. now rewrite orb_false_r.
  - cbn. now rewrite orb_false_r.
Qed.

(** X9: whatever the state and whatever else is received, the worker
    posts exactly one [pong] per [ping], and never a [ready] that no
    [config] asked for.  Every [config] is answered with [ready] when
    Meyda is already set up or the object has its [_m]; on an object
    without it, as in the script as it stands, the [config] that sets
    Meyda up is answered with an [error] instead, and the later ones with
    [ready]. *)
Theorem worker_replies msgs : forall s,
  let out := snd (run self_Meyda msgs s) in
  count is_pong out = count is_ping msgs
  /\ (count is_ready out <= count is_config msgs)%nat
  /\ (meyda s || Meyda.has_m self_Meyda = true ->
      count is_ready out = count is_config msgs)
  /\ (meyda s || Meyda.has_m self_Meyda = false ->
      count is_ready out = Nat.pred (count is_config msgs)
      /\ (Nat.min 1 (count is_config msgs) <= count is_error out)%nat).
Proof.
  induction msgs as [| m msgs IH]; intros s.
  { cbv zeta. simpl. unfold count. simpl. repeat split; auto. }
  cbv zeta. cbn [run].
  pose proof (onmessage_pongs m s) as H1.
  pose proof (onmessage_readies m s) as H2.
  pose proof (onmessage_meyda m s) as H3.
  destruct (onmessage self_Meyda m s) as [s1 out1] eqn:E.
  specialize (IH s1). destruct (run self_Meyda msgs s1) as [s2 out2].
  cbv zeta in IH. cbn [fst snd] in *.
  destruct IH as (IH1 & IH2 & IH3 & IH4).
  assert (Hc : forall f, count f (m :: msgs)
                         = ((if f m then 1 else 0) + count f msgs)%nat).
  { intros f. unfold count. simpl. now destruct (f m). }
  rewrite !count_app, H1, H2, IH1, !Hc.
  split; [ reflexivity |].
  destruct (is_config m) eqn:Hm.
  - rewrite orb_true_r in H3.
    assert (Hall : count is_ready out2 = count is_config msgs).
    { apply IH3. now rewrite H3. }
    rewrite Hall.
    destruct (meyda s || Meyda.has_m self_Meyda) eqn:Hs.
    + repeat split; auto; discriminate.
    + split; [ lia |]. split; [ discriminate |]. intros _.
      split; [ simpl; lia |].
      assert (He : (1 <= count is_error out1)%nat).
      { destruct m; try discriminate.
        rewrite onmessage_config in E. injection E as _ <-.
        rewrite Hs. unfold count. simpl. lia. }
      simpl. lia.
  - rewrite orb_false_r in H3. rewrite H3 in *.
    split; [ lia |]. split; [ intros Hs; now rewrite IH3 |].
    intros Hs. destruct (IH4 Hs) as [I1 I2].
    split; [ simpl; exact I1 |].
    simpl in *. lia.
Qed.

(** X10: a worker that has received no [config] message ignores its
    audio: whatever else it receives, it stays in its initial state and
    posts nothing but one [pong] per [ping]. *)
Theorem unconfigured_worker_inert msgs :
  forallb (fun m => negb (is_config m)) msgs = true ->
  run self_Meyda msgs init = (init, repeat Pong (count is_ping msgs)).
Proof.
  induction msgs as [| m msgs IH]; intros H; [ reflexivity |].
  simpl in H. apply andb_true_iff in H. destruct H as [Hm H].
  specialize (IH H).
  change (run self_Meyda (m :: msgs) init)
    with (let '(s1, out1) := onmessage self_Meyda m init in
          let '(s2, out2) := run self_Meyda msgs s1 in (s2, out1 ++ out2)).
  assert (Hm1 : onmessage self_Meyda m init
                = (init, if is_ping m then [Pong] else [])).
  { destruct m as [| frame t0ms | t0ms | |]; try discriminate.
    - unfold onmessage, handle, processFrame.
      change (meyda init) with false. now rewrite orb_true_r.
    - destruct t0ms; reflexivity.
    - reflexivity.
    - reflexivity. }
  rewrite Hm1, IH. unfold count. destruct m; reflexivity.
Qed.

Lemma stop_stopped t s : stopped (fst (onmessage self_Meyda (MStop t) s)).
Proof.
  unfold onmessage, handle.
  destruct (endCurrentSegment _ s) as [sa out1].
  pose proof (flushQueue_posts sa) as [_ Hq].
  destruct (flushQueue sa) as [sb out2]. simpl in Hq.
  cbn [state thrown fst]. unfold stopped. cbn. repeat split; auto.
Qed.

Lemma stopped_stop t s :
  stopped s -> onmessage self_Meyda (MStop t) s = (s, []).
Proof.
  destruct s as [m fb cs cur st ls sf nf q c].
  intros (H1 & H2 & H3 & H4 & H5 & H6). cbn in *. subst.
  reflexivity.
Qed.

(** X11: [stop] is idempotent: after a [stop] no segment is open, the
    queue, the centroids and the smoothing window are empty, and a second
    [stop] posts nothing and leaves the state as it is. *)
Theorem stop_idempotent t1 t2 s :
  let s1 := fst (onmessage self_Meyda (MStop t1) s) in
  onmessage self_Meyda (MStop t2) s1 = (s1, [])
  /\ currentSpeakerId s1 = None /\ segmentQueue s1 = []
  /\ centroids s1 = [] /\ featureBuffer s1 = [].
Proof.
  cbv zeta. pose proof (stop_stopped t1 s) as Hs.
  split; [ now apply stopped_stop |].
  destruct Hs as (H1 & H2 & H3 & H4 & H5 & H6). auto.
Qed.

Lemma push_window (buffer : list (list float)) mfcc :
  (length buffer <= MAX_FEATURE_BUFFER_LENGTH)%nat ->
  Forall (fun v => v <> []) buffer -> mfcc <> [] ->
  let buffer' :=
    (if Nat.leb MAX_FEATURE_BUFFER_LENGTH (length buffer)
     then tl buffer else buffer) ++ [mfcc] in
  (length buffer' <= MAX_FEATURE_BUFFER_LENGTH)%nat
  /\ Forall (fun v => v <> []) buffer'.
Proof.
  intros Hlen Hne Hm. cbv zeta. unfold MAX_FEATURE_BUFFER_LENGTH in *.
  destruct (Nat.leb_spec 12 (length buffer)) as [Hfull | Hfull].
  - destruct buffer as [| v buf]; simpl in *; [ lia |].
    split.
    + rewrite length_app. simpl. lia.
    + apply Forall_app. split; [ now inversion Hne | now constructor ].
  - split.
    + rewrite length_app. simpl. lia.
    + apply Forall_app. split; [ exact Hne | now constructor ].
Qed.

Lemma detect_window rms mfcc t0ms s :
  window_ok s -> window_ok (state (detect rms mfcc t0ms s)).
Proof.
  intros [Hlen Hne]. unfold detect.
  cbn [noiseFloor set_noiseFloor].
  destruct (rms <? vadThreshold _).
  - cbn [silenceFrames set_silenceFrames].
    destruct (Nat.ltb _ _); [| now split ].
    match goal with
    | |- context [endCurrentSegment ?t ?x] =>
        pose proof (endCurrentSegment_frame t x) as He;
        destruct (endCurrentSegment t x) as [s1 out]
    end.
    cbv zeta in He. simpl in He. destruct He as (_ & _ & Hb & _).
    unfold window_ok. simpl. rewrite Hb. now split.
  - destruct (Nat.eqb (length mfcc) 0) eqn:Hm; [ now split |].
    match goal with
    | |- context [cluster ?t ?x] =>
        pose proof (cluster_frame t x) as Hc
    end.
    cbv zeta in Hc. destruct Hc as (_ & _ & _ & _ & Hb).
    unfold window_ok. rewrite Hb.
    apply Nat.eqb_neq in Hm.
    apply push_window; auto. intros ->. now apply Hm.
Qed.

Lemma processFrame_window frame t0ms s :
  window_ok s -> window_ok (state (processFrame self_Meyda frame t0ms s)).
Proof.
  destruct (features_of self_Meyda s frame) as [[rms mfcc] |] eqn:Hf.
  - rewrite (processFrame_detected self_Meyda frame t0ms s rms mfcc Hf).
    apply detect_window.
  - destruct (processFrame_dropped self_Meyda frame t0ms s Hf)
      as [-> | [err ->]]; intros [? ?]; now split.
Qed.

Lemma onmessage_window m s :
  window_ok s -> window_ok (fst (onmessage self_Meyda m s)).
Proof.
  intros Hw. unfold onmessage.
  assert (H : window_ok (state (handle self_Meyda m s))).
  { destruct m; cbn [handle]; auto.
    - destruct (meyda _); [| destruct (Meyda.has_m self_Meyda) ];
        exact Hw.
    - now apply processFrame_window.
    - destruct (endCurrentSegment _ s) as [s1 out1].
      destruct (flushQueue s1) as [s2 out2]. simpl.
      split; simpl; [ unfold MAX_FEATURE_BUFFER_LENGTH; lia | constructor ]. }
  destruct (thrown _); exact H.
Qed.

Lemma run_window msgs : forall s,
  window_ok s -> window_ok (fst (run self_Meyda msgs s)).
Proof.
  induction msgs as [| m msgs IH]; intros s Hw; [ exact Hw |].
  simpl. pose proof (onmessage_window m s Hw) as H1.
  destruct (onmessage self_Meyda m s) as [s1 out1].
  specialize (IH s1 H1). destruct (run self_Meyda msgs s1) as [s2 out2].
  exact IH.
Qed.

(** X1: whatever the worker receives, its smoothing window never holds
    more than twelve vectors, and never an empty one. *)
Theorem feature_window_bounded msgs :
  let s := fst (run self_Meyda msgs init) in
  (length (featureBuffer s) <= 12)%nat
  /\ Forall (fun v => v <> []) (featureBuffer s).
Proof.
  apply run_window. split; simpl; [ lia | constructor ].
Qed.

End Session.
End SessionFacts.

Module BoundaryFacts.
Import Worker WorkerSpec SessionSpec WorkerFacts VadFacts SessionFacts.

(** The segments a call of [endCurrentSegment] posts: at most one, the
    open one, ended at the last speech or at [timestamp]. *)
Lemma endCurrentSegment_segments timestamp s :
  segmentQueue s = [] ->
  let out := snd (endCurrentSegment timestamp s) in
  count is_active out = 0%nat
  /\ (length (segments_of out) <= 1)%nat
  /\ forall g, In g (segments_of out) ->
       currentSpeakerId s = Some (speakerId g)
       /\ startMs g = currentSegmentStartMs s
       /\ endMs g = (if 0 <? lastSpeechTimestamp s
                     then lastSpeechTimestamp s else timestamp).
Proof.
  intros Hq. cbv zeta.
  destruct (currentSpeakerId s) as [spk |] eqn:Hspk.
  - rewrite (endCurrentSegment_open timestamp s spk Hspk Hq). cbv zeta.
    cbn [snd]. destruct (currentSegmentStartMs s <? _); simpl.
    + repeat split; auto; destruct H as [<- | []]; reflexivity.
    + repeat split; auto; contradiction.
  - rewrite (endCurrentSegment_closed timestamp s Hspk). simpl.
    repeat split; auto; contradiction.
Qed.

Lemma segments_of_snoc_active out spk :
  segments_of (out ++ [ActiveSpeaker spk]) = segments_of out.
Proof.
  rewrite OrderFacts.segments_of_app. simpl. now rewrite app_nil_r.
Qed.

Lemma in_active_about out spk :
  count is_active out = 0%nat -> ~ In (ActiveSpeaker spk) out.
Proof.
  unfold count. induction out as [| p out IH]; simpl; [ tauto |].
  destruct p; simpl; intros H [Hp | Hin]; try discriminate;
    try (now apply IH).
Qed.

Lemma speaker_eqb_false spk cur :
  speaker_eqb spk cur = false -> cur <> Some spk.
Proof.
  destruct cur as [x |]; simpl; [| discriminate ].
  intros H E. injection E as ->. now rewrite String.eqb_refl in H.
Qed.

(** A speaker change inside [cluster]: the open segment is closed at the
    frame time, where the new one starts. *)
Lemma cluster_change t0ms s :
  segmentQueue s = [] -> lastSpeechTimestamp s = t0ms ->
  let r := cluster t0ms s in
  forall spk, In (ActiveSpeaker spk) (posted r) ->
    currentSpeakerId (state r) = Some spk
    /\ currentSegmentStartMs (state r) = t0ms
    /\ currentSpeakerId s <> Some spk
    /\ forall g, In g (segments_of (posted r)) ->
         currentSpeakerId s = Some (speakerId g)
         /\ startMs g = currentSegmentStartMs s /\ endMs g = t0ms.
Proof.
  intros Hq Hl. cbv zeta. unfold cluster.
  destruct (Nat.ltb _ _); [ simpl; tauto |].
  destruct (detectSpeaker _ _ _) as [d cs | err]; [| simpl; tauto ].
  destruct (negb _) eqn:Hneq; [| simpl; tauto ].
  apply negb_true_iff in Hneq. apply speaker_eqb_false in Hneq.
  pose proof (endCurrentSegment_segments t0ms (set_centroids cs s) Hq)
    as (Hact & _ & Hseg).
  destruct (endCurrentSegment t0ms (set_centroids cs s)) as [s1 out].
  cbn [snd] in Hact, Hseg. cbn [state posted].
  intros spk Hin. apply in_app_or in Hin.
  destruct Hin as [Hin | [Hin | []]];
    [ now apply in_active_about in Hin |].
  injection Hin as <-. simpl in Hneq.
  repeat split; auto; rewrite segments_of_snoc_active in *;
    destruct (Hseg g H) as (H1 & H2 & H3); auto.
  simpl in H3. rewrite Hl in H3. now destruct (0 <? t0ms).
Qed.

Section Session.

Variable self_Meyda : Meyda.Object.

(** The states the worker reaches have an empty queue. *)
Lemma reached_queue msgs :
  segmentQueue (fst (run self_Meyda msgs init)) = [].
Proof. now apply run_queue. Qed.

Lemma detect_change rms mfcc t0ms s :
  segmentQueue s = [] ->
  let r := detect rms mfcc t0ms s in
  forall spk, In (ActiveSpeaker spk) (posted r) ->
    currentSpeakerId (state r) = Some spk
    /\ currentSegmentStartMs (state r) = t0ms
    /\ currentSpeakerId s <> Some spk
    /\ forall g, In g (segments_of (posted r)) ->
         currentSpeakerId s = Some (speakerId g)
         /\ startMs g = currentSegmentStartMs s /\ endMs g = t0ms.
Proof.
  intros Hq. cbv zeta. unfold detect.
  destruct (rms <? vadThreshold _).
  - destruct (Nat.ltb _ _); [| simpl; tauto ].
    match goal with
    | |- context [endCurrentSegment ?t ?x] =>
        pose proof (endCurrentSegment_segments t x Hq) as (Hact & _);
        destruct (endCurrentSegment t x) as [s1 out]
    end.
    cbn [snd] in Hact. cbn [posted]. intros spk Hin.
    now apply in_active_about in Hin.
  - destruct (Nat.eqb (length mfcc) 0); [ simpl; tauto |].
    match goal with
    | |- context [cluster ?t ?x] =>
        exact (cluster_change t x Hq eq_refl)
    end.
Qed.

Lemma processFrame_change frame t0ms s :
  segmentQueue s = [] ->
  let r := processFrame self_Meyda frame t0ms s in
  forall spk, In (ActiveSpeaker spk) (posted r) ->
    currentSpeakerId (state r) = Some spk
    /\ currentSegmentStartMs (state r) = t0ms
    /\ currentSpeakerId s <> Some spk
    /\ forall g, In g (segments_of (posted r)) ->
         currentSpeakerId s = Some (speakerId g)
         /\ startMs g = currentSegmentStartMs s /\ endMs g = t0ms.
Proof.
  destruct (features_of self_Meyda s frame) as [[rms mfcc] |] eqn:Hf.
  - rewrite (processFrame_detected self_Meyda frame t0ms s rms mfcc Hf).
    apply detect_change.
  - destruct (processFrame_dropped self_Meyda frame t0ms s Hf)
      as [-> | [err ->]]; cbv zeta; simpl; tauto.
Qed.

(** X3: in a state the worker reaches, a frame that posts an
    [activeSpeaker] message opens a segment of that speaker at the time
    of the frame; the speaker differs from the one of the segment that
    was open, and a segment posted by the same frame is that open
    segment, ended at the time of the frame: at a change of speaker the
    segments abut. *)
Theorem speaker_change_abuts msgs frame t0ms :
  let s := fst (run self_Meyda msgs init) in
  let '(s', out) := onmessage self_Meyda (MAudio frame t0ms) s in
  forall spk, In (ActiveSpeaker spk) out ->
    currentSpeakerId s' = Some spk
    /\ currentSegmentStartMs s' = t0ms
    /\ currentSpeakerId s <> Some spk
    /\ forall g, In g (segments_of out) ->
         currentSpeakerId s = Some (speakerId g)
         /\ startMs g = currentSegmentStartMs s /\ endMs g = t0ms.
Proof.
  cbv zeta. unfold onmessage, handle.
  pose proof (processFrame_change frame t0ms _ (reached_queue msgs)) as H.
  cbv zeta in H.
  destruct (thrown _); [| exact H ].
  intros spk Hin. apply in_app_or in Hin.
  destruct Hin as [Hin | [Hin | []]]; [| discriminate ].
  destruct (H spk Hin) as (H1 & H2 & H3 & H4).
  repeat split; auto; rewrite OrderFacts.segments_of_app in *;
    simpl in *; rewrite app_nil_r in *; now apply H4.
Qed.

End Session.
End BoundaryFacts.

Module SilenceFacts.
Import Worker WorkerSpec SessionSpec WorkerFacts VadFacts SessionFacts BoundaryFacts.

Section Session.

Variable self_Meyda : Meyda.Object.

(** [processFrame] on a frame classified as silence. *)
Lemma processFrame_silent frame t0ms s :
  classify self_Meyda s frame = Some false ->
  exists rms,
  processFrame self_Meyda frame t0ms s =
  let s1 := set_silenceFrames (S (silenceFrames s))
              (set_noiseFloor (noiseFloor s * 0.995 + rms * 0.005) s) in
  if Nat.ltb SILENCE_THRESHOLD_FRAMES (S (silenceFrames s))
  then let '(s2, out) := endCurrentSegment t0ms s1 in mkOutcome s2 out None
  else done s1.
Proof.
  intros Hc. destruct (classify_silent self_Meyda s frame Hc)
    as (rms & mfcc & Hf & Hlt).
  exists rms.
  rewrite (processFrame_detected self_Meyda frame t0ms s rms mfcc Hf).
  now apply detect_silent.
Qed.


Lemma silent_frame frame t0ms s :
  classify self_Meyda s frame = Some false -> segmentQueue s = [] ->
  let '(s', out) := onmessage self_Meyda (MAudio frame t0ms) s in
  silence_effect s s' out [t0ms].
Proof.
  intros Hc Hq. unfold onmessage, handle.
  destruct (processFrame_silent frame t0ms s Hc) as [rms ->]. cbv zeta.
  destruct (Nat.ltb _ _).
  - match goal with
    | |- context [endCurrentSegment ?t ?x] =>
        pose proof (endCurrentSegment_segments t x Hq) as (Hact & Hlen & Hseg);
        pose proof (endCurrentSegment_frame t x) as Hf;
        pose proof (endCurrentSegment_closes t x) as Hcl;
        pose proof (endCurrentSegment_posts t x) as [_ Hq1];
        pose proof (endCurrentSegment_closed t x) as Hnone;
        destruct (endCurrentSegment t x) as [s1 out] eqn:E
    end.
    cbv zeta in Hf. cbn [fst snd] in *. cbn [state posted thrown].
    destruct Hf as (_ & Hcs & Hfb & _).
    unfold silence_effect.
    split; [ exact Hcs |]. split; [ exact Hfb |].
    split; [ now apply Hq1 |]. split; [ exact Hact |].
    split; [ exact Hlen |].
    split; [ intros Hn; specialize (Hnone Hn); now inversion Hnone |].
    split; [ now right |]. split; [ now left |].
    intros g Hg. destruct (Hseg g Hg) as (H1 & H2 & H3).
    cbn in H1, H2, H3. repeat split; auto.
    + intros Hpos. now rewrite Hpos in H3.
    + intros Hpos. rewrite Hpos in H3. now left.
  - cbn. unfold silence_effect. cbn.
    repeat split; auto; try contradiction.
Qed.

Lemma silent_frames frames : forall s,
  segmentQueue s = [] -> all_silent self_Meyda s frames ->
  let '(s', out) := run self_Meyda (audio frames) s in
  silence_effect s s' out (map snd frames).
Proof.
  induction frames as [| [frame t0ms] frames IH]; intros s Hq Hall.
  - simpl. unfold silence_effect. simpl.
    repeat split; auto; try contradiction.
  - simpl in Hall. destruct Hall as [Hc Hall].
    pose proof (silent_frame frame t0ms s Hc Hq) as H1.
    simpl. destruct (onmessage self_Meyda (MAudio frame t0ms) s)
      as [s1 out1].
    simpl in Hall.
    destruct H1 as (Hcs1 & Hfb1 & Hq1 & Hact1 & Hlen1 & Hn1 & Hor1 & He1
                    & Hseg1).
    specialize (IH s1 Hq1 Hall).
    destruct (run self_Meyda (audio frames) s1) as [s2 out2].
    destruct IH as (Hcs2 & Hfb2 & Hq2 & Hact2 & Hlen2 & Hn2 & Hor2 & He2
                    & Hseg2).
    unfold silence_effect.
    rewrite OrderFacts.segments_of_app, count_app, Hact1, Hact2.
    split; [ congruence |]. split; [ congruence |].
    split; [ exact Hq2 |]. split; [ reflexivity |].
    destruct Hor1 as [Hnil | Hclosed].
    + (* the first frame closed nothing *)
      rewrite Hnil. cbn [app].
      destruct (He1 Hnil) as [Hnone | (Hcur & Hst & Hls)].
      * specialize (Hn2 Hnone). rewrite Hn2.
        split; [ simpl; lia |]. split; [ reflexivity |].
        split; [ now left |].
        split; [ intros _; left; destruct (He2 Hn2) as [|[-> _]]; auto |].
        contradiction.
      * split; [ exact Hlen2 |].
        split; [ intros Hn; apply Hn2; congruence |].
        split; [ exact Hor2 |].
        split.
        -- intros Hn. destruct (He2 Hn) as [| (Ha & Hb & Hd)];
             [ now left | right ].
           repeat split; congruence.
        -- intros g Hg. destruct (Hseg2 g Hg) as (Ha & Hb & Hd & Hf).
           rewrite Hcur, Hst, Hls in *. repeat split; auto.
           intros Hp. right. now apply Hf.
    + (* the first frame closed the segment *)
      specialize (Hn2 Hclosed). rewrite Hn2, app_nil_r.
      split; [ exact Hlen1 |]. split; [ exact Hn1 |].
      assert (Hend : currentSpeakerId s2 = None).
      { destruct (He2 Hn2) as [| [-> _]]; auto. }
      split; [ now right |]. split; [ now left |].
      intros g Hg. destruct (Hseg1 g Hg) as (Ha & Hb & Hd & Hf).
      repeat split; auto. intros Hp.
      destruct (Hf Hp) as [<- | []]. now left.
Qed.

(** X4: over consecutive frames classified as silence, in a state the
    worker reaches, no [activeSpeaker] message is posted and at most one
    segment is; the centroids and the smoothing window are untouched; a
    segment that is posted is the one that was open, which is closed, and
    it ends at the last speech frame when that time is positive, else at
    the time of one of the silent frames. *)
Theorem silence_round_trip msgs frames :
  let s := fst (run self_Meyda msgs init) in
  all_silent self_Meyda s frames ->
  let '(s', out) := run self_Meyda (audio frames) s in
  count is_active out = 0%nat
  /\ (length (segments_of out) <= 1)%nat
  /\ centroids s' = centroids s /\ featureBuffer s' = featureBuffer s
  /\ forall g, In g (segments_of out) ->
       currentSpeakerId s = Some (speakerId g)
       /\ currentSpeakerId s' = None
       /\ startMs g = currentSegmentStartMs s
       /\ ((0 <? lastSpeechTimestamp s) = true ->
           endMs g = lastSpeechTimestamp s)
       /\ ((0 <? lastSpeechTimestamp s) = false ->
           In (endMs g) (map snd frames)).
Proof.
  cbv zeta. intros Hall.
  pose proof (silent_frames frames _ (reached_queue self_Meyda msgs) Hall)
    as H.
  destruct (run self_Meyda (audio frames) _) as [s' out].
  destruct H as (Hcs & Hfb & Hq & Hact & Hlen & Hn & Hor & He & Hseg).
  repeat split; auto; try (now apply Hseg).
  destruct Hor as [Hnil | Hc]; [| exact Hc ].
  rewrite Hnil in H. contradiction.
Qed.

(** Before six vectors are buffered nothing is learned, opened or
    posted. *)
Lemma onmessage_quiet m s k :
  quiet k s -> (k + (if is_audio m then 1 else 0) < 6)%nat ->
  let '(s', out) := onmessage self_Meyda m s in
  quiet (k + (if is_audio m then 1 else 0)) s'
  /\ count about_speech out = 0%nat.
Proof.
  intros (Hlen & Hcs & Hcur & Hq) Hk.
  destruct m as [e r | frame t0ms | t | |]; cbn [is_audio] in *.
  - rewrite onmessage_config. rewrite Nat.add_0_r.
    split; [| now destruct (meyda s || _) ].
    unfold quiet; cbn; repeat split; auto.
  - unfold onmessage, handle.
    assert (H : let r := processFrame self_Meyda frame t0ms s in
                quiet (k + 1) (state r) /\ posted r = []).
    { cbv zeta.
      destruct (features_of self_Meyda s frame) as [[rms mfcc] |] eqn:Hf;
        [ rewrite (processFrame_detected self_Meyda frame t0ms s rms mfcc Hf)
        | destruct (processFrame_dropped self_Meyda frame t0ms s Hf)
            as [-> | [err ->]]; repeat split; auto; simpl; lia ].
      assert (Hd : quiet (k + 1) (state (detect rms mfcc t0ms s))
                   /\ posted (detect rms mfcc t0ms s) = []
                   /\ thrown (detect rms mfcc t0ms s) = None);
        [| tauto ].
      unfold detect.
      destruct (rms <? vadThreshold _).
      - destruct (Nat.ltb _ _); [| repeat split; auto; simpl; lia ].
        rewrite endCurrentSegment_closed by exact Hcur.
        repeat split; auto; simpl; lia.
      - destruct (Nat.eqb (length mfcc) 0);
          [ repeat split; auto; simpl; lia |].
        unfold cluster.
        cbn [featureBuffer set_featureBuffer set_lastSpeechTimestamp
               set_silenceFrames set_noiseFloor].
        assert (Hno : Nat.leb MAX_FEATURE_BUFFER_LENGTH
                        (length (featureBuffer s)) = false).
        { apply Nat.leb_gt. unfold MAX_FEATURE_BUFFER_LENGTH. lia. }
        rewrite Hno.
        assert (Hshort : Nat.ltb (length (featureBuffer s ++ [mfcc]))
                           (Nat.shiftr MAX_FEATURE_BUFFER_LENGTH 1) = true).
        { apply Nat.ltb_lt. rewrite length_app.
          change (Nat.shiftr MAX_FEATURE_BUFFER_LENGTH 1) with 6%nat.
          simpl. lia. }
        rewrite Hshort. unfold quiet, done.
        cbn [state posted thrown featureBuffer set_featureBuffer centroids
               currentSpeakerId segmentQueue set_lastSpeechTimestamp
               set_silenceFrames set_noiseFloor].
        repeat split; auto. rewrite length_app. simpl. lia. }
    cbv zeta in H. destruct H as (H1 & H2).
    rewrite H2. destruct (thrown _); split; solve [ exact H1 | reflexivity ].
  - unfold onmessage, handle.
    rewrite endCurrentSegment_closed by exact Hcur.
    rewrite flushQueue_empty by exact Hq. cbn.
    unfold quiet. repeat split; auto. simpl. lia.
  - unfold onmessage, handle. cbn. rewrite Nat.add_0_r.
    repeat split; auto.
  - unfold onmessage, handle. cbn. rewrite Nat.add_0_r.
    repeat split; auto.
Qed.

Lemma run_quiet msgs : forall s k,
  quiet k s -> (k + count is_audio msgs < 6)%nat ->
  let '(s', out) := run self_Meyda msgs s in
  quiet (k + count is_audio msgs) s' /\ count about_speech out = 0%nat.
Proof.
  induction msgs as [| m msgs IH]; intros s k Hs Hk.
  - simpl. unfold count. simpl. rewrite Nat.add_0_r. now split.
  - assert (Hc : count is_audio (m :: msgs)
                 = ((if is_audio m then 1 else 0) + count is_audio msgs)%nat).
    { unfold count. simpl. now destruct (is_audio m). }
    rewrite Hc in *.
    pose proof (onmessage_quiet m s k Hs ltac:(lia)) as H1.
    simpl. destruct (onmessage self_Meyda m s) as [s1 out1].
    destruct H1 as [Hs1 Ho1].
    specialize (IH s1 _ Hs1 ltac:(lia)).
    destruct (run self_Meyda msgs s1) as [s2 out2].
    destruct IH as [Hs2 Ho2].
    rewrite count_app, Ho1, Ho2, Nat.add_assoc. now split.
Qed.

(** X2: a worker that has received fewer than six audio frames, half the
    smoothing window, has posted no segment and no active speaker, and
    has neither a centroid nor an open segment. *)
Theorem no_speaker_before_six_frames msgs :
  (count is_audio msgs < 6)%nat ->
  let '(s, out) := run self_Meyda msgs init in
  count about_speech out = 0%nat
  /\ centroids s = [] /\ currentSpeakerId s = None.
Proof.
  intros Hk.
  pose proof (run_quiet msgs init 0) as H. cbn [Nat.add] in H.
  specialize (H ltac:(repeat split; auto; simpl; lia) Hk).
  destruct (run self_Meyda msgs init) as [s out].
  destruct H as ((_ & Hcs & Hcur & _) & Ho). auto.
Qed.

End Session.
End SilenceFacts.


(* ================================================================== *)
(** * Errors, later sessions and the cosine distance *)
(* ================================================================== *)

Module ErrorFacts.
Import Worker WorkerSpec SessionSpec WorkerFacts ClusterFacts SpeakerFacts
  SessionFacts.

Lemma min_step_nan_l lowest x :
  is_nan lowest = true -> is_nan (JS.min_step lowest x) = true.
Proof. intros H. unfold JS.min_step. now rewrite H. Qed.

Lemma fold_min_nan_acc values : forall lowest,
  is_nan lowest = true ->
  is_nan (fold_left JS.min_step values lowest) = true.
Proof.
  induction values as [| x values IH]; intros lowest H; [ exact H |].
  simpl. apply IH. now apply min_step_nan_l.
Qed.

Lemma fold_min_nan values : forall lowest d,
  In d values -> is_nan d = true ->
  is_nan (fold_left JS.min_step values lowest) = true.
Proof.
  induction values as [| x values IH]; intros lowest d Hin Hd;
    [ destruct Hin |].
  simpl. destruct Hin as [-> | Hin].
  - apply fold_min_nan_acc. unfold JS.min_step.
    rewrite Hd, orb_true_r. reflexivity.
  - now apply IH with d.
Qed.

Lemma ltb_nan_r x y : is_nan y = true -> (x <? y) = false.
Proof.
  rewrite FloatOrder.nan_spec, ltb_spec. intros ->.
  destruct (Prim2SF x); reflexivity.
Qed.

Lemma eqb_nan_r x y : is_nan y = true -> (x =? y) = false.
Proof.
  rewrite FloatOrder.nan_spec, FloatAxioms.eqb_spec. intros ->.
  destruct (Prim2SF x); reflexivity.
Qed.

Lemma indexOf_nan arr x : is_nan x = true -> JS.indexOf arr x = None.
Proof.
  intros Hx. induction arr as [| y arr IH]; [ reflexivity |].
  simpl. now rewrite (eqb_nan_r y x Hx), IH.
Qed.

Lemma nan_or_numbers (ds : list float) :
  (exists d, In d ds /\ is_nan d = true)
  \/ Forall (fun d => is_nan d = false) ds.
Proof.
  induction ds as [| d ds [(x & Hin & Hx) | Hall]].
  - right. constructor.
  - left. exists x. split; [ now right | exact Hx ].
  - destruct (is_nan d) eqn:Hd.
    + left. exists d. split; [ now left | exact Hd ].
    + right. now constructor.
Qed.

(** X5: with at least one centroid, the clustering step throws exactly
    when the distance to some centroid is NaN, and what it throws is the
    [TypeError] of reading [id] of [centroids[-1]]. *)
Theorem nan_distance_throws expected mean cs :
  cs <> [] ->
  (detectSpeaker expected mean cs = Thrown type_error
   <-> exists c, In c cs
                 /\ is_nan (cosineDistance mean (vector c)) = true)
  /\ forall err, detectSpeaker expected mean cs = Thrown err ->
                 err = type_error.
Proof.
  intros Hne. rewrite (detectSpeaker_nonempty expected mean cs Hne).
  cbv zeta.
  destruct (nan_or_numbers (distances mean cs)) as [(d & Hin & Hd) | Hall].
  - (* a NaN distance *)
    pose proof (fold_min_nan _ infinity d Hin Hd) as Hmin.
    fold (JS.Math_min (distances mean cs)) in Hmin.
    rewrite (ltb_nan_r _ _ Hmin), (indexOf_nan _ _ Hmin). simpl.
    split; [| intros err E; now injection E ].
    split; [ intros _ | reflexivity ].
    unfold distances in Hin. apply in_map_iff in Hin.
    destruct Hin as (c & <- & Hc). now exists c.
  - (* only numbers *)
    assert (Hds : distances mean cs <> []).
    { destruct cs; [ congruence | discriminate ]. }
    destruct (Math_min_spec _ Hds Hall) as (_ & Hex).
    destruct (indexOf_spec _ _ Hex) as (i & d & Hi & Hnth & _).
    rewrite Hi.
    assert (Hc : exists c, nth_error cs i = Some c).
    { unfold distances in Hnth. rewrite nth_error_map in Hnth.
      destruct (nth_error cs i) as [c |]; [ eauto | discriminate ]. }
    destruct Hc as [c Hc]. rewrite Hc.
    split; [| destruct (_ && _); discriminate ].
    split; [ destruct (_ && _); discriminate |].
    intros (c' & Hin & Hnan). exfalso.
    rewrite Forall_forall in Hall.
    specialize (Hall (cosineDistance mean (vector c'))).
    rewrite Hall in Hnan; [ discriminate |].
    unfold distances.
    exact (in_map (fun c => cosineDistance mean (vector c)) cs c' Hin).
Qed.

Lemma cluster_thrown t0ms s err :
  thrown (cluster t0ms s) = Some err ->
  cluster t0ms s = mkOutcome s [] (Some err).
Proof.
  unfold cluster.
  destruct (Nat.ltb _ _); [ discriminate |].
  destruct (detectSpeaker _ _ _) as [spk cs | e]; [| now intros [= ->] ].
  destruct (negb _); [| discriminate ].
  destruct (endCurrentSegment _ _). discriminate.
Qed.

Lemma detectSpeaker_thrown expected mean cs err :
  detectSpeaker expected mean cs = Thrown err -> err = type_error.
Proof.
  unfold detectSpeaker. destruct cs as [| c cs]; [ discriminate |].
  cbv zeta. destruct (_ && _); [ discriminate |].
  destruct (JS.indexOf _ _) as [i |];
    [ destruct (nth_error _ _); [ discriminate |] |];
    now intros [= <-].
Qed.

Lemma cluster_thrown_type t0ms s err :
  thrown (cluster t0ms s) = Some err -> err = type_error.
Proof.
  unfold cluster.
  destruct (Nat.ltb _ _); [ discriminate |].
  destruct (detectSpeaker _ _ _) as [spk cs | e] eqn:E.
  - destruct (negb _); [| discriminate ].
    destruct (endCurrentSegment _ _). discriminate.
  - intros [= <-]. exact (detectSpeaker_thrown _ _ _ _ E).
Qed.

(** An exception in the detector comes from the clustering step, after
    the frame has been counted as speech. *)
Lemma detect_thrown rms mfcc t0ms s err :
  thrown (detect rms mfcc t0ms s) = Some err ->
  let r := detect rms mfcc t0ms s in
  posted r = []
  /\ centroids (state r) = centroids s
  /\ currentSpeakerId (state r) = currentSpeakerId s
  /\ currentSegmentStartMs (state r) = currentSegmentStartMs s
  /\ segmentQueue (state r) = segmentQueue s
  /\ err = type_error
  /\ lastSpeechTimestamp (state r) = t0ms
  /\ silenceFrames (state r) = 0%nat
  /\ noiseFloor (state r) = noiseFloor s * 0.995 + rms * 0.005.
Proof.
  cbv zeta. unfold detect.
  destruct (rms <? vadThreshold _).
  - destruct (Nat.ltb _ _); [| discriminate ].
    destruct (endCurrentSegment _ _). discriminate.
  - destruct (Nat.eqb (length mfcc) 0); [ discriminate |].
    intros H. pose proof (cluster_thrown_type _ _ _ H) as Ht.
    rewrite (cluster_thrown _ _ _ H). cbn. repeat split. exact Ht.
Qed.

Section Session.

Variable self_Meyda : Meyda.Object.

(** An exception outside the detector comes from Meyda, before anything
    is written. *)
Lemma processFrame_raised frame t0ms s err :
  features_of self_Meyda s frame = None ->
  thrown (processFrame self_Meyda frame t0ms s) = Some err ->
  processFrame self_Meyda frame t0ms s = mkOutcome s [] (Some err)
  /\ (Meyda.process self_Meyda frame = Some err
      \/ Meyda.get self_Meyda frame = Meyda.Raises err).
Proof.
  unfold features_of, processFrame.
  destruct (Nat.eqb (length frame) 0 || negb (meyda s)); [ discriminate |].
  destruct (Meyda.process self_Meyda frame) as [e |];
    [ intros _ [= ->]; split; [ reflexivity | now left ] |].
  destruct (Meyda.get self_Meyda frame) as [[f |] | e];
    [| discriminate | intros _ [= ->]; split; [ reflexivity | now right ] ].
  destruct (JS.truthy (Meyda.rms f)); [| discriminate ].
  destruct (Meyda.mfcc f); discriminate.
Qed.

(** X6: a frame posts at most one [error] message; when it does, that is
    all it posts, and the centroids, the open segment and the queue are
    as before.  The exception is either Meyda's, raised by [process] or
    [get] before anything is written, and then the whole state is as
    before; or it is the [TypeError] of the clustering step, and then the
    frame has counted as speech: the noise floor has moved, the silence
    counter is reset and the last speech time is the time of the
    frame. *)
Theorem frame_error_contained frame t0ms s :
  let '(s', out) := onmessage self_Meyda (MAudio frame t0ms) s in
  (count is_error out <= 1)%nat
  /\ forall err, In (Error err) out ->
       out = [Error err]
       /\ centroids s' = centroids s
       /\ currentSpeakerId s' = currentSpeakerId s
       /\ currentSegmentStartMs s' = currentSegmentStartMs s
       /\ segmentQueue s' = segmentQueue s
       /\ match features_of self_Meyda s frame with
          | None =>
              s' = s
              /\ (Meyda.process self_Meyda frame = Some err
                  \/ Meyda.get self_Meyda frame = Meyda.Raises err)
          | Some (rms, _) =>
              err = type_error
              /\ lastSpeechTimestamp s' = t0ms
              /\ silenceFrames s' = 0%nat
              /\ noiseFloor s' = noiseFloor s * 0.995 + rms * 0.005
          end.
Proof.
  unfold onmessage, handle.
  pose proof (processFrame_posts self_Meyda frame t0ms s) as [Hp _].
  assert (Hno : forall p, about_speech p = true -> is_error p = false)
    by (intros []; simpl; congruence).
  pose proof (count_about is_error _ Hno Hp) as Hc.
  destruct (thrown _) as [err |] eqn:Ht.
  - destruct (features_of self_Meyda s frame) as [[rms mfcc] |] eqn:Hf.
    + rewrite (processFrame_detected self_Meyda frame t0ms s rms mfcc Hf)
        in *.
      destruct (detect_thrown rms mfcc t0ms s err Ht)
        as (Hout & H1 & H2 & H3 & H4 & H5 & H6 & H7 & H8).
      rewrite Hout. simpl. split; [ unfold count; simpl; lia |].
      intros e [[= <-] | []]. repeat split; auto.
    + destruct (processFrame_raised frame t0ms s err Hf Ht) as [Hr Hm].
      rewrite Hr. simpl. split; [ unfold count; simpl; lia |].
      intros e [[= <-] | []]. repeat split; auto.
  - split; [ lia |]. intros err Hin. exfalso.
    clear - Hin Hp. induction (posted _) as [| p out IH]; [ destruct Hin |].
    simpl in Hp. apply andb_true_iff in Hp. destruct Hp as [Hp1 Hp2].
    destruct Hin as [-> | Hin]; [ discriminate | auto ].
Qed.

(** After a stop the worker is ready for a session, whatever came
    before. *)
Lemma stop_config_known t expected rate s :
  (1 <= expected)%Z ->
  Known (fst (onmessage self_Meyda (MConfig (Some expected) rate)
                (fst (onmessage self_Meyda (MStop t) s)))).
Proof.
  intros He. pose proof (stop_stopped self_Meyda t s) as Hs.
  destruct (onmessage self_Meyda (MStop t) s) as [s1 out1]. cbn [fst] in *.
  destruct Hs as (Hcs & _ & Hcur & _ & _ & Hq).
  rewrite onmessage_config. cbn [fst].
  destruct expected as [| p | p]; try lia.
  unfold Known. cbn. rewrite Hcs, Hcur, Hq. cbn.
  repeat split; auto; try lia; discriminate.
Qed.

(** X12: whatever the worker did before, a [stop] forgets the speakers,
    and in the session configured after it for [expected >= 1] speakers
    the centroids are [S1 .. Sn] with [n <= expected] and every speaker
    id posted is one of them. *)
Theorem session_after_stop_starts_over t expected rate msgs s :
  (1 <= expected)%Z -> forallb in_session msgs = true ->
  let s1 := fst (onmessage self_Meyda (MStop t) s) in
  let '(s2, out) :=
    run self_Meyda (MConfig (Some expected) rate :: msgs) s1 in
  let n := length (centroids s2) in
  centroids s1 = []
  /\ (Z.of_nat n <= expected)%Z
  /\ map id (centroids s2) = speaker_ids n
  /\ forall spk, In spk (speakers_of out) -> In spk (speaker_ids n).
Proof.
  intros He Hall. cbv zeta.
  pose proof (stop_config_known t expected rate s He) as HK.
  pose proof (stop_stopped self_Meyda t s) as (Hcs & _).
  set (s1 := fst (onmessage self_Meyda (MStop t) s)) in *.
  change (run self_Meyda (MConfig (Some expected) rate :: msgs) s1)
    with (let '(sa, outa) :=
            onmessage self_Meyda (MConfig (Some expected) rate) s1 in
          let '(sb, outb) := run self_Meyda msgs sa in
          (sb, outa ++ outb)).
  assert (Hout : speakers_of
                   (snd (onmessage self_Meyda
                           (MConfig (Some expected) rate) s1)) = []).
  { rewrite onmessage_config. cbn [snd].
    now destruct (meyda s1 || _). }
  assert (Hcfg : expectedSpeakers
                   (cfg (fst (onmessage self_Meyda
                                (MConfig (Some expected) rate) s1)))
                 = expected).
  { rewrite onmessage_config. cbn [fst].
    destruct expected as [| p | p]; try lia; reflexivity. }
  destruct (onmessage self_Meyda (MConfig (Some expected) rate) s1)
    as [sa outa]. cbn [fst snd] in *.
  pose proof (run_known self_Meyda msgs sa HK Hall) as Hr.
  destruct (run self_Meyda msgs sa) as [sb outb].
  destruct Hr as ((_ & Hids & Hle & _) & Hc & _ & Hsp).
  rewrite Hc, Hcfg in Hle.
  repeat split; auto.
  intros spk Hin. rewrite speakers_of_app, Hout in Hin.
  rewrite <- Hids. now apply Hsp.
Qed.

(** X13: whatever the worker did before a [stop], the segments of the
    session that follows it, up to its own [stop], have positive length
    and are in order and disjoint, when the timestamps of its frames
    never decrease. *)
Theorem session_after_stop_ordered t msgs final s :
  forallb not_stop msgs = true ->
  nondecreasing (audio_times msgs) = true ->
  let s1 := fst (onmessage self_Meyda (MStop t) s) in
  let whole :=
    segments_of (snd (run self_Meyda (msgs ++ [MStop final]) s1)) in
  Forall positive whole
  /\ forall i j g h, (i < j)%nat ->
       nth_error whole i = Some g -> nth_error whole j = Some h ->
       (endMs g <=? startMs h) = true /\ (startMs g <? startMs h) = true.
Proof.
  intros Hall Ht s1 whole.
  set (lo := hd 0 (audio_times msgs)).
  assert (Ht' : nondecreasing_from lo (audio_times msgs) = true).
  { unfold lo, nondecreasing in *. now destruct (audio_times msgs). }
  assert (HO : Ordered lo s1 []).
  { pose proof (stop_stopped self_Meyda t s) as (_ & _ & Hcur & Hl & _ & Hq).
    fold s1 in Hcur, Hl, Hq. unfold Ordered. rewrite Hcur, Hl, Hq.
    repeat split; try constructor; try congruence; discriminate. }
  pose proof (OrderFacts.run_ordered self_Meyda msgs lo s1 [] HO Hall Ht')
    as Hr.
  unfold whole. rewrite run_app.
  destruct (run self_Meyda msgs s1) as [sa out1].
  destruct Hr as [lo' HO']. simpl in HO'.
  pose proof (OrderFacts.stop_ordered self_Meyda lo' final sa _ HO')
    as (Hsorted & Hpos).
  simpl run.
  destruct (onmessage self_Meyda (MStop final) sa) as [sb out2].
  simpl in *. rewrite app_nil_r, OrderFacts.segments_of_app.
  split; [ exact Hpos |].
  intros i j g h Hij Hg Hh.
  exact (OrderFacts.StronglySorted_nth precedes _ Hsorted i j g h Hij Hg Hh).
Qed.

End Session.
End ErrorFacts.

Module CosineFacts.
Import Worker SessionSpec.

Lemma SFmul_comm x y : SF64mul x y = SF64mul y x.
Proof.
  unfold SF64mul.
  destruct x as [sx | sx | | sx mx ex], y as [sy | sy | | sy my ey];
    cbn [SFmul]; rewrite ?(xorb_comm sx sy); try reflexivity.
  now rewrite Pos.mul_comm, Z.add_comm.
Qed.

Lemma mul_comm x y : x * y = y * x.
Proof. apply Prim2SF_inj. rewrite !mul_spec. apply SFmul_comm. Qed.

Lemma dot_norms_swap v1 : forall v2 dot m1 m2,
  dot_norms v2 v1 dot m2 m1 =
  let '(d, a, b) := dot_norms v1 v2 dot m1 m2 in (d, b, a).
Proof.
  induction v1 as [| a v1 IH]; intros [| b v2] dot m1 m2; try reflexivity.
  simpl. rewrite IH, (mul_comm b a). reflexivity.
Qed.

Lemma cosineDistance_swap v1 v2 :
  cosineDistance v1 v2 = cosineDistance v2 v1.
Proof.
  unfold cosineDistance. rewrite (Nat.eqb_sym (length v2)).
  destruct (negb _); [ reflexivity |].
  rewrite (dot_norms_swap v1 v2 0 0 0).
  destruct (dot_norms v1 v2 0 0 0) as [[d a] b].
  rewrite (orb_comm (PrimFloat.sqrt b =? 0)).
  destruct (_ || _); [ reflexivity |].
  now rewrite (mul_comm (PrimFloat.sqrt b)).
Qed.

(** X7: [cosineDistance] is symmetric, bit for bit. *)
Theorem cosineDistance_symmetric v1 v2 :
  cosineDistance v1 v2 = cosineDistance v2 v1.
Proof. apply cosineDistance_swap. Qed.


Lemma eqb_zero_spec x :
  (x =? 0) = true <-> exists s, Prim2SF x = S754_zero s.
Proof.
  rewrite FloatAxioms.eqb_spec. change (Prim2SF 0) with (S754_zero false).
  split.
  - destruct (Prim2SF x) as [s | s | | s m e]; simpl; eauto;
      try discriminate; destruct s; discriminate.
  - intros [s ->]. reflexivity.
Qed.

Lemma square_zero m a :
  Prim2SF m = S754_zero false -> (a =? 0) = true ->
  Prim2SF (m + a * a) = S754_zero false.
Proof.
  intros Hm Ha. apply eqb_zero_spec in Ha. destruct Ha as [s Ha].
  rewrite add_spec, mul_spec, Hm, Ha. now destruct s.
Qed.

Lemma dot_norms_zero_l v1 : forall v2 dot m1 m2,
  zero_vector v1 -> Prim2SF m1 = S754_zero false ->
  Prim2SF (snd (fst (dot_norms v1 v2 dot m1 m2))) = S754_zero false.
Proof.
  induction v1 as [| a v1 IH]; intros [| b v2] dot m1 m2 Hz Hm;
    try exact Hm.
  inversion Hz as [| ? ? Ha Hz']; subst. simpl.
  apply IH; [ exact Hz' | now apply square_zero ].
Qed.

(** X8: [cosineDistance] is 1 when the vectors differ in length or when
    one of them has only zeros (the empty vector included): a distance
    that cannot be formed is never NaN but the distance of unrelated
    vectors. *)
Theorem cosineDistance_degenerate v1 v2 :
  length v1 <> length v2 \/ zero_vector v1 \/ zero_vector v2 ->
  cosineDistance v1 v2 = 1.
Proof.
  assert (Hl : forall u w, zero_vector u -> cosineDistance u w = 1).
  { intros u w Hz. unfold cosineDistance.
    destruct (negb _); [ reflexivity |].
    pose proof (dot_norms_zero_l u w 0 0 0 Hz eq_refl) as H.
    destruct (dot_norms u w 0 0 0) as [[d a] b]. simpl in H.
    assert (Hs : (PrimFloat.sqrt a =? 0) = true).
    { apply eqb_zero_spec. exists false. now rewrite sqrt_spec, H. }
    now rewrite Hs. }
  intros [Hlen | [Hz | Hz]].
  - unfold cosineDistance.
    apply Nat.eqb_neq in Hlen. now rewrite Hlen.
  - now apply Hl.
  - rewrite cosineDistance_swap. now apply Hl.
Qed.

End CosineFacts.

(* ================================================================== *)
(** * The audio path and the callbacks of the worker-isolated hook *)
(* ================================================================== *)

Module WorkletFacts.
Import Worklet.
#[local] Open Scope nat_scope.

Lemma set_fits target source offset :
  (offset + length source <= length target)%nat ->
  set target source offset =
  Some (firstn offset target ++ source
        ++ skipn (offset + length source) target).
Proof.
  intros H. unfold set.
  destruct (Nat.ltb_spec (length target) (offset + length source));
    [ lia | reflexivity ].
Qed.

Lemma set_length target source offset filled :
  set target source offset = Some filled -> length filled = length target.
Proof.
  unfold set.
  destruct (Nat.ltb_spec (length target) (offset + length source));
    [ discriminate |].
  intros [= <-]. rewrite !length_app, length_firstn, length_skipn. lia.
Qed.

(** The samples written so far and the new ones, after [set]. *)
Lemma set_prefix (target source : list float) offset :
  (offset + length source <= length target)%nat ->
  firstn (offset + length source)
    (firstn offset target ++ source
     ++ skipn (offset + length source) target)
  = firstn offset target ++ source.
Proof.
  intros H. rewrite app_assoc.
  rewrite firstn_app.
  rewrite length_app, length_firstn.
  replace (offset + length source - (Nat.min offset (length target) + length source))%nat
    with 0%nat by lia.
  rewrite firstn_O, app_nil_r.
  apply firstn_all2. rewrite length_app, length_firstn. lia.
Qed.


Lemma process_fits d p :
  ready p -> (length d <= bufferSize p)%nat ->
  step_ok p d (process (Some d) p).
Proof.
  intros [Hlen Hidx] Hd. unfold step_ok, process.
  set (toCopy := Nat.min (length d) (bufferSize p - bufferIndex p)).
  assert (HtoCopy : length (firstn toCopy d) = toCopy).
  { rewrite length_firstn. unfold toCopy. lia. }
  rewrite set_fits by (rewrite HtoCopy; unfold toCopy; lia).
  rewrite HtoCopy. cbn [bufferSize bufferIndex buffer].
  set (filled := firstn (bufferIndex p) (buffer p) ++ firstn toCopy d
                 ++ skipn (bufferIndex p + toCopy) (buffer p)).
  assert (Hfilled : length filled = bufferSize p).
  { unfold filled. rewrite !length_app, length_firstn, length_skipn.
    unfold toCopy in *. lia. }
  assert (Hpre : firstn (bufferIndex p + toCopy) filled
                 = pending p ++ firstn toCopy d).
  { pose proof (set_prefix (buffer p) (firstn toCopy d) (bufferIndex p))
      as H.
    rewrite HtoCopy in H. apply H. unfold toCopy. lia. }
  destruct (Nat.leb_spec (bufferSize p) (bufferIndex p + toCopy))
    as [Hfull | Hroom].
  - (* the buffer is full: it is posted *)
    assert (HtoCopy' : toCopy = (bufferSize p - bufferIndex p)%nat)
      by (unfold toCopy in *; lia).
    assert (Hall : filled = pending p ++ firstn toCopy d).
    { rewrite <- Hpre. symmetry. apply firstn_all2. lia. }
    destruct (Nat.ltb_spec 0 (length d - toCopy)) as [Hleft | Hnone].
    + rewrite set_fits by (rewrite length_skipn; simpl; lia).
      cbn [thrown processor posted bufferSize bufferIndex buffer].
      unfold ready, pending.
      cbn [bufferSize bufferIndex buffer]. rewrite length_skipn.
      cbn [Nat.add firstn app].
      split; [ reflexivity |]. split.
      * split; [| lia ].
        rewrite !length_app, length_skipn, length_skipn. lia.
      * split; [ reflexivity |]. split; [ repeat constructor; lia |].
        cbn [concat]. rewrite app_nil_r.
        rewrite firstn_app, length_skipn, Nat.sub_diag, firstn_O, app_nil_r.
        rewrite firstn_all2 by (rewrite length_skipn; lia).
        rewrite Hall, <- app_assoc. f_equal. apply firstn_skipn.
    + cbn [thrown processor posted bufferSize bufferIndex buffer].
      unfold ready, pending.
      cbn [bufferSize bufferIndex buffer firstn].
      split; [ reflexivity |]. split; [ split; lia |].
      split; [ reflexivity |]. split; [ repeat constructor; lia |].
      cbn [concat]. rewrite !app_nil_r, Hall. f_equal.
      apply firstn_all2. lia.
  - (* room is left *)
    assert (HtoCopy' : toCopy = length d) by (unfold toCopy in *; lia).
    cbn [thrown processor posted bufferSize bufferIndex buffer].
    unfold ready. cbn [bufferSize bufferIndex buffer].
    split; [ reflexivity |]. split; [ split; lia |].
    split; [ reflexivity |]. split; [ constructor |].
    cbn [concat app]. unfold pending at 1.
    cbn [bufferSize bufferIndex buffer]. rewrite Hpre. f_equal.
    apply firstn_all2. lia.
Qed.

Lemma run_fits inputs : forall p,
  ready p -> fits p inputs ->
  step_ok p (samples inputs) (run inputs p).
Proof.
  induction inputs as [| [d |] inputs IH]; intros p Hr Hf.
  - unfold step_ok, samples. simpl. rewrite app_nil_r.
    repeat split; auto; apply Hr.
  - inversion Hf as [| ? ? Hd Hf']; subst.
    destruct (process_fits d p Hr Hd) as (Ht & Hr1 & Hs1 & Hc1 & He1).
    cbn [run]. rewrite Ht.
    assert (Hf1 : fits (processor (process (Some d) p)) inputs).
    { unfold fits in *. now rewrite Hs1. }
    destruct (IH _ Hr1 Hf1) as (Ht2 & Hr2 & Hs2 & Hc2 & He2).
    unfold step_ok. cbn [thrown processor posted].
    split; [ exact Ht2 |]. split; [ exact Hr2 |].
    split; [ congruence |].
    split; [ apply Forall_app; split; auto; now rewrite <- Hs1 |].
    rewrite concat_app, <- app_assoc, He2, app_assoc, He1.
    unfold samples. cbn [map concat]. now rewrite app_assoc.
  - inversion Hf as [| ? ? _ Hf']; subst.
    cbn [run process thrown processor posted].
    destruct (IH p Hr Hf') as (Ht2 & Hr2 & Hs2 & Hc2 & He2).
    unfold step_ok. repeat split; auto; apply Hr2.
Qed.

(** X14: fed render quanta no longer than its buffer, the audio worklet
    never throws, every chunk it posts has exactly [bufferSize] samples,
    and the chunks followed by the samples left in the buffer are the
    samples that were waiting followed by those received: no sample is
    lost, doubled or reordered. *)
Theorem worklet_preserves_stream inputs p :
  ready p -> fits p inputs ->
  let r := run inputs p in
  thrown r = None
  /\ ready (processor r)
  /\ Forall (fun chunk => length chunk = bufferSize p) (posted r)
  /\ concat (posted r) ++ pending (processor r)
     = pending p ++ samples inputs.
Proof.
  intros Hr Hf. destruct (run_fits inputs p Hr Hf) as (H1 & H2 & _ & H3 & H4).
  cbv zeta. auto.
Qed.

Lemma length_concat_uniform {A} (n : nat) (ls : list (list A)) :
  Forall (fun c => length c = n) ls -> length (concat ls) = (n * length ls)%nat.
Proof.
  induction 1 as [| c ls Hc _ IH]; simpl; [ lia |].
  rewrite length_app, IH, Hc. lia.
Qed.

(** X15: the audio worklet posts one chunk per [bufferSize] samples: the
    number of chunks is the quotient of the samples waiting and received
    by [bufferSize], and the remainder is left in the buffer. *)
Theorem worklet_chunk_count inputs p :
  ready p -> fits p inputs ->
  let r := run inputs p in
  let received := (bufferIndex p + length (samples inputs))%nat in
  length (posted r) = (received / bufferSize p)%nat
  /\ bufferIndex (processor r) = (received mod bufferSize p)%nat.
Proof.
  intros Hr Hf. cbv zeta.
  destruct (run_fits inputs p Hr Hf) as (_ & [Hlen' Hidx'] & Hs & Hc & He).
  apply (f_equal (@length float)) in He.
  rewrite !length_app, (length_concat_uniform _ _ Hc) in He.
  unfold pending in He. rewrite !length_firstn in He.
  destruct Hr as [Hlen Hidx]. rewrite Hs in *.
  rewrite !Nat.min_l in He by lia.
  set (B := bufferSize p) in *. set (n := length (posted (run inputs p))) in *.
  set (i := bufferIndex (processor (run inputs p))) in *.
  assert (HB : B <> 0%nat) by lia.
  rewrite <- He.
  split.
  - apply Nat.div_unique with i; lia.
  - apply Nat.mod_unique with n; lia.
Qed.

End WorkletFacts.

Module WorkletEdge.
Import Worklet WorkletFacts.
#[local] Open Scope nat_scope.

Lemma set_overflows target source offset :
  length target < offset + length source -> set target source offset = None.
Proof.
  intros H. unfold set.
  destruct (Nat.ltb_spec (length target) (offset + length source));
    [ reflexivity | lia ].
Qed.

(** X16: a render quantum with more samples than the room left plus a
    whole buffer makes the audio worklet post the chunk it has filled
    and then throw a [RangeError], with the buffer index left at the end
    of the buffer: the samples after the chunk are lost. *)
Theorem worklet_oversize_input_throws d p :
  ready p ->
  (bufferSize p - bufferIndex p) + bufferSize p < length d ->
  let r := process (Some d) p in
  thrown r = Some range_error
  /\ posted r = [pending p ++ firstn (bufferSize p - bufferIndex p) d]
  /\ bufferIndex (processor r) = bufferSize p.
Proof.
  intros [Hlen Hidx] Hd. cbv zeta. unfold process.
  set (toCopy := Nat.min (length d) (bufferSize p - bufferIndex p)).
  assert (Ht : toCopy = bufferSize p - bufferIndex p)
    by (unfold toCopy; lia).
  assert (HtoCopy : length (firstn toCopy d) = toCopy).
  { rewrite length_firstn. lia. }
  rewrite set_fits by (rewrite HtoCopy; lia).
  rewrite HtoCopy. cbn [bufferSize bufferIndex buffer].
  destruct (Nat.leb_spec (bufferSize p) (bufferIndex p + toCopy));
    [| lia ].
  destruct (Nat.ltb_spec 0 (length d - toCopy)); [| lia ].
  rewrite set_overflows.
  - cbn [thrown posted processor bufferIndex].
    split; [ reflexivity |]. split; [| lia ].
    f_equal. rewrite <- Ht.
    replace (bufferIndex p + toCopy) with (length (buffer p)) by lia.
    rewrite skipn_all, app_nil_r. reflexivity.
  - rewrite !length_app, length_firstn, !length_skipn. simpl. lia.
Qed.

End WorkletEdge.

Module CaptureFacts.
Import Supervisor Capture SessionSpec.

Section Feed.

Variable startTime : float.
Variable sampleRate : float.

#[local] Abbreviation feed := (Capture.feed startTime sampleRate).
#[local] Abbreviation stamped := (Capture.stamped startTime sampleRate).
#[local] Abbreviation stamp := (Capture.stamp startTime sampleRate).

Lemma feed_stamped frames : forall h,
  workerRef h <> None ->
  let h' := feed frames h in
  inbox h' = inbox h ++ stamped (totalSamplesRef h) frames
  /\ totalSamplesRef h' = (totalSamplesRef h + length (concat frames))%nat
  /\ workerRef h' = workerRef h /\ workers h' = workers h
  /\ segmentsRef h' = segmentsRef h /\ activeSpeaker h' = activeSpeaker h
  /\ heartbeatIntervalRef h' = heartbeatIntervalRef h
  /\ gotPong h' = gotPong h.
Proof.
  induction frames as [| frame frames IH]; intros h Hw.
  - simpl. rewrite app_nil_r, Nat.add_0_r. repeat split.
  - cbv zeta. unfold Capture.feed. cbn [fold_left].
    fold (feed frames (on_chunk startTime sampleRate frame h)).
    assert (Hw1 : workerRef (on_chunk startTime sampleRate frame h) <> None)
      by exact Hw.
    destruct (IH _ Hw1) as (H1 & H2 & H3 & H4 & H5 & H6 & H7 & H8).
    rewrite H1, H2, H3, H4, H5, H6, H7, H8. unfold on_chunk.
    cbn [inbox totalSamplesRef workerRef workers segmentsRef activeSpeaker
           heartbeatIntervalRef gotPong Capture.stamped concat].
    destruct (workerRef h); [| congruence ].
    rewrite <- app_assoc, length_app. cbn [app].
    repeat split. lia.
Qed.

Lemma stamped_frames total frames :
  frames_of (stamped total frames) = frames.
Proof.
  revert total. induction frames as [| f frames IH]; intros total;
    [ reflexivity |].
  simpl. now rewrite IH.
Qed.

Lemma stamped_nth frames : forall total j frame t0ms,
  nth_error (stamped total frames) j = Some (Worker.MAudio frame t0ms) ->
  nth_error frames j = Some frame
  /\ t0ms = stamp (total + length (concat (firstn j frames))).
Proof.
  induction frames as [| f frames IH]; intros total j frame t0ms H.
  - destruct j; discriminate.
  - destruct j as [| j]; simpl in H.
    + injection H as <- <-. simpl. now rewrite Nat.add_0_r.
    + destruct (IH _ _ _ _ H) as [H1 H2]. split; [ exact H1 |].
      rewrite H2. simpl. rewrite length_app. f_equal. lia.
Qed.

(** X17: while a worker is set, every chunk of the worklet is posted to
    it once, in order and unchanged, the sample count grows by the length
    of the chunks, and a chunk is stamped with [startTime] plus the
    duration, in milliseconds at the sample rate, of the samples counted
    before it. *)
Theorem chunks_forwarded_in_order frames h :
  workerRef h <> None ->
  let h' := feed frames h in
  exists msgs,
    inbox h' = inbox h ++ msgs
    /\ frames_of msgs = frames
    /\ length msgs = length frames
    /\ totalSamplesRef h'
       = (totalSamplesRef h + length (concat frames))%nat
    /\ forall j frame t0ms,
         nth_error msgs j = Some (Worker.MAudio frame t0ms) ->
         nth_error frames j = Some frame
         /\ t0ms = startTime
                   + (JS.of_nat (totalSamplesRef h
                                 + length (concat (firstn j frames)))
                      / sampleRate) * 1000.
Proof.
  intros Hw. destruct (feed_stamped frames h Hw) as (H1 & H2 & _).
  exists (stamped (totalSamplesRef h) frames).
  split; [ exact H1 |]. split; [ apply stamped_frames |].
  split.
  { clear. generalize (totalSamplesRef h).
    induction frames as [| f frames IH]; intros n; simpl; auto. }
  split; [ exact H2 |].
  intros j frame t0ms Hj. now apply stamped_nth.
Qed.

(** X18: from the microphone to the inbox of the worker no sample is
    lost: for render quanta no longer than the chunk size, the frames
    posted to the worker, followed by the samples still buffered in the
    worklet, are the samples of the quanta in order; every frame has
    4096 samples, there is one per 4096 samples received, and the hook
    has counted 4096 samples per frame. *)
Theorem audio_path_preserves_samples inputs h :
  workerRef h <> None -> Worklet.fits Worklet.create inputs ->
  let w := Worklet.run inputs Worklet.create in
  let h' := feed (Worklet.posted w) h in
  exists msgs,
    inbox h' = inbox h ++ msgs
    /\ concat (frames_of msgs) ++ Worklet.pending (Worklet.processor w)
       = Worklet.samples inputs
    /\ Forall (fun frame => length frame = Worklet.CHUNK_SIZE)
         (frames_of msgs)
    /\ length msgs = (length (Worklet.samples inputs)
                      / Worklet.CHUNK_SIZE)%nat
    /\ totalSamplesRef h'
       = (totalSamplesRef h + Worklet.CHUNK_SIZE * length msgs)%nat.
Proof.
  intros Hw Hf. cbv zeta.
  assert (Hr : Worklet.ready Worklet.create).
  { split; [ apply repeat_length |].
    apply Nat.ltb_lt. now vm_compute. }
  destruct (WorkletFacts.run_fits inputs _ Hr Hf)
    as (_ & _ & _ & Hc & He).
  destruct (feed_stamped (Worklet.posted (Worklet.run inputs Worklet.create))
              h Hw) as (H1 & H2 & _).
  eexists. split; [ exact H1 |].
  rewrite stamped_frames.
  assert (Hlen : forall n fs, length (stamped n fs) = length fs).
  { intros n fs. revert n.
    induction fs as [| f fs IH]; intros n; simpl; auto. }
  rewrite Hlen.
  split; [ exact He |]. split; [ exact Hc |].
  split.
  - apply (f_equal (@length float)) in He.
    rewrite length_app, (WorkletFacts.length_concat_uniform _ _ Hc) in He.
    change (Worklet.pending Worklet.create) with (@nil float) in He.
    cbn [app] in He.
    pose proof (WorkletFacts.run_fits inputs _ Hr Hf)
      as (_ & [_ Hidx] & Hs & _).
    unfold Worklet.pending in He. rewrite length_firstn in He.
    rewrite Hs in Hidx.
    change (Worklet.bufferSize Worklet.create) with Worklet.CHUNK_SIZE in *.
    rewrite <- He.
    apply Nat.div_unique
      with (Nat.min
              (Worklet.bufferIndex
                 (Worklet.processor (Worklet.run inputs Worklet.create)))
              (length
                 (Worklet.buffer
                    (Worklet.processor
                       (Worklet.run inputs Worklet.create)))));
      lia.
  - rewrite H2. f_equal.
    now rewrite (WorkletFacts.length_concat_uniform _ _ Hc).
Qed.

End Feed.

End CaptureFacts.

Module DeliveryFacts.
Import Supervisor Capture SessionSpec.

Section Delivery.

Variable expectedSpeakers : option Z.
Variable sampleRate : Z.
Variable browser : nat -> Browser.

#[local] Abbreviation steps := (Supervisor.steps expectedSpeakers sampleRate browser).
#[local] Abbreviation step := (Supervisor.step expectedSpeakers sampleRate browser).


Lemma calls_of_growing out : forall before,
  growing before (before ++ Worker.segments_of out) (calls_of before out)
  /\ last (calls_of before out) before = before ++ Worker.segments_of out.
Proof.
  induction out as [| m out IH]; intros before.
  - simpl. rewrite app_nil_r. split; constructor.
  - destruct m; simpl; try apply IH.
    destruct (IH (before ++ payload)) as [Hg Hl].
    rewrite <- app_assoc in Hg, Hl. split.
    + constructor.
      * split; [ now exists payload |].
        exists (Worker.segments_of out). now rewrite app_assoc.
      * unfold growing in *. eapply Forall_impl; [| exact Hg ].
        intros l [[more ->] Hrest]. split; [| exact Hrest ].
        exists (payload ++ more). now rewrite app_assoc.
    + destruct (calls_of (before ++ payload) out) as [| c calls] eqn:E;
        [ exact Hl |].
      rewrite <- Hl. clear.
      revert c. induction calls as [| c' calls IHc]; intros c;
        [ reflexivity |].
      change (last (c :: c' :: calls) ?d) with (last (c' :: calls) d).
      change (last ((before ++ payload) :: c :: c' :: calls) ?d)
        with (last (c' :: calls) d).
      specialize (IHc c'). simpl in IHc |- *.
      destruct calls; [ reflexivity | exact IHc ].
Qed.

Lemma deliver_one m h :
  workerRef h <> None ->
  let h' := from_worker m h in
  workerRef h' = workerRef h /\ workers h' = workers h
  /\ inbox h' = inbox h
  /\ heartbeatIntervalRef h' = heartbeatIntervalRef h
  /\ totalSamplesRef h' = totalSamplesRef h
  /\ segmentsRef h' = segmentsRef h ++ Worker.segments_of [m]
  /\ activeSpeaker h' = last_active (activeSpeaker h) [m]
  /\ onNewSegments h' = onNewSegments h ++ calls_of (segmentsRef h) [m]
  /\ filter is_restart_line (console h')
     = filter is_restart_line (console h).
Proof.
  intros Hw. cbv zeta. unfold from_worker.
  destruct (workerRef h) as [w |] eqn:Ew; [| congruence ].
  destruct m; unfold log;
    cbn [workerRef workers inbox heartbeatIntervalRef totalSamplesRef
           segmentsRef activeSpeaker onNewSegments console
           Worker.segments_of last_active calls_of];
    rewrite ?app_nil_r; repeat split; auto.
  rewrite filter_app. simpl. now rewrite app_nil_r.
Qed.

Lemma calls_of_app out1 out2 before :
  calls_of before (out1 ++ out2)
  = calls_of before out1
    ++ calls_of (before ++ Worker.segments_of out1) out2.
Proof.
  revert before. induction out1 as [| m out1 IH]; intros before.
  - simpl. now rewrite app_nil_r.
  - destruct m; simpl; rewrite ?IH, ?app_assoc; reflexivity.
Qed.

Lemma last_active_app out1 out2 shown :
  last_active shown (out1 ++ out2)
  = last_active (last_active shown out1) out2.
Proof.
  revert shown. induction out1 as [| m out1 IH]; intros shown;
    [ reflexivity |].
  destruct m; simpl; apply IH.
Qed.

Lemma deliver_all out : forall h,
  workerRef h <> None ->
  let h' := steps (deliveries out) h in
  workerRef h' = workerRef h /\ workers h' = workers h
  /\ inbox h' = inbox h
  /\ heartbeatIntervalRef h' = heartbeatIntervalRef h
  /\ totalSamplesRef h' = totalSamplesRef h
  /\ segmentsRef h' = segmentsRef h ++ Worker.segments_of out
  /\ activeSpeaker h' = last_active (activeSpeaker h) out
  /\ onNewSegments h' = onNewSegments h ++ calls_of (segmentsRef h) out
  /\ filter is_restart_line (console h')
     = filter is_restart_line (console h).
Proof.
  induction out as [| m out IH]; intros h Hw.
  - simpl. rewrite !app_nil_r. repeat split; auto.
  - cbv zeta. unfold deliveries, Supervisor.steps. cbn [map fold_left].
    fold (deliveries out).
    fold (steps (deliveries out) (step (FromWorker m) h)).
    cbn [Supervisor.step].
    destruct (deliver_one m h Hw)
      as (H1 & H2 & H3 & H4 & H5 & H6 & H7 & H8 & H9).
    assert (Hw1 : workerRef (from_worker m h) <> None) by congruence.
    destruct (IH _ Hw1) as (I1 & I2 & I3 & I4 & I5 & I6 & I7 & I8 & I9).
    rewrite I1, I2, I3, I4, I5, I6, I7, I8, I9,
      H1, H2, H3, H4, H5, H6, H7, H8, H9.
    change (m :: out) with ([m] ++ out).
    rewrite OrderFacts.segments_of_app, calls_of_app, last_active_app,
      !app_assoc.
    repeat split; auto.
Qed.

(** X19: while a worker is set, the hook appends the segments the worker
    posts to its list, in order, shows the speaker of the last
    [activeSpeaker] message, and calls [onNewSegments] once per
    [segments] message, each time with a list that extends the list it
    had and is a prefix of the final one, the last call carrying the
    final list. *)
Theorem segments_delivered_in_order out h :
  workerRef h <> None ->
  let h' := steps (deliveries out) h in
  segmentsRef h' = segmentsRef h ++ Worker.segments_of out
  /\ activeSpeaker h' = last_active (activeSpeaker h) out
  /\ workerRef h' = workerRef h
  /\ exists calls,
       onNewSegments h' = onNewSegments h ++ calls
       /\ length calls
          = count (fun m => match m with
                            | Worker.Segments _ => true
                            | _ => false
                            end) out
       /\ growing (segmentsRef h) (segmentsRef h') calls
       /\ last calls (segmentsRef h) = segmentsRef h'.
Proof.
  intros Hw. cbv zeta.
  destruct (deliver_all out h Hw) as (H1 & _ & _ & _ & _ & H6 & H7 & H8 & _).
  rewrite H6, H7, H8, H1.
  destruct (calls_of_growing out (segmentsRef h)) as [Hg Hl].
  repeat split; auto.
  exists (calls_of (segmentsRef h) out). repeat split; auto.
  clear. generalize (segmentsRef h).
  induction out as [| m out IH]; intros before; [ reflexivity |].
  unfold count in *. destruct m; simpl; auto.
Qed.

End Delivery.
End DeliveryFacts.

Module ShownFacts.
Import Worker WorkerSpec SessionSpec WorkerFacts SessionFacts DeliveryFacts.


Lemma flushQueue_silent shown s :
  last_active shown (snd (flushQueue s)) = shown.
Proof. unfold flushQueue. destruct (segmentQueue s); reflexivity. Qed.

Lemma endCurrentSegment_silent shown timestamp s :
  last_active shown (snd (endCurrentSegment timestamp s)) = shown.
Proof.
  unfold endCurrentSegment.
  destruct (currentSpeakerId s); [| reflexivity ].
  destruct (currentSegmentStartMs s <? _); [| reflexivity ].
  match goal with
  | |- context [flushQueue ?x] =>
      pose proof (flushQueue_silent shown x) as H;
      destruct (flushQueue x) as [s1 out]
  end.
  exact H.
Qed.

Lemma cluster_shows shown t0ms s :
  shows shown s ->
  shows (last_active shown (posted (cluster t0ms s))) (state (cluster t0ms s)).
Proof.
  intros Hs. unfold cluster.
  destruct (Nat.ltb _ _); [ exact Hs |].
  destruct (detectSpeaker _ _ _) as [d cs | err]; [| exact Hs ].
  destruct (negb _); [| exact Hs ].
  destruct (endCurrentSegment _ _) as [s1 out].
  cbn [state posted]. rewrite last_active_app. simpl.
  intros spk [= <-]. reflexivity.
Qed.

Section Session.

Variable self_Meyda : Meyda.Object.

Lemma detect_shows shown rms mfcc t0ms s :
  shows shown s ->
  let r := detect rms mfcc t0ms s in
  shows (last_active shown (posted r)) (state r).
Proof.
  intros Hs. cbv zeta. unfold detect.
  destruct (rms <? vadThreshold _).
  - destruct (Nat.ltb _ _); [| exact Hs ].
    match goal with
    | |- context [endCurrentSegment ?t ?x] =>
        pose proof (VadFacts.endCurrentSegment_closes t x) as Hc;
        destruct (endCurrentSegment t x) as [s1 out]
    end.
    cbn [fst state] in *. intros spk E. congruence.
  - destruct (Nat.eqb (length mfcc) 0); [ exact Hs |].
    apply cluster_shows. exact Hs.
Qed.

Lemma processFrame_shows shown frame t0ms s :
  shows shown s ->
  let r := processFrame self_Meyda frame t0ms s in
  shows (last_active shown (posted r)) (state r).
Proof.
  intros Hs. cbv zeta.
  destruct (features_of self_Meyda s frame) as [[rms mfcc] |] eqn:Hf.
  - rewrite (processFrame_detected self_Meyda frame t0ms s rms mfcc Hf).
    now apply detect_shows.
  - destruct (processFrame_dropped self_Meyda frame t0ms s Hf)
      as [-> | [err ->]]; exact Hs.
Qed.

Lemma onmessage_shows shown m s :
  shows shown s ->
  let '(s', out) := onmessage self_Meyda m s in
  shows (last_active shown out) s'.
Proof.
  intros Hs. unfold onmessage.
  assert (H : shows (last_active shown (posted (handle self_Meyda m s)))
                (state (handle self_Meyda m s))).
  { destruct m; cbn [handle]; auto.
    - destruct (meyda _); [| destruct (Meyda.has_m self_Meyda) ];
        exact Hs.
    - now apply processFrame_shows.
    - destruct (endCurrentSegment _ s) as [s1 out1].
      destruct (flushQueue s1) as [s2 out2]. simpl.
      intros spk E. discriminate. }
  destruct (thrown _); [| exact H ].
  rewrite last_active_app. exact H.
Qed.

Lemma run_shows msgs : forall shown s,
  shows shown s ->
  let '(s', out) := run self_Meyda msgs s in
  shows (last_active shown out) s'.
Proof.
  induction msgs as [| m msgs IH]; intros shown s Hs; [ exact Hs |].
  simpl. pose proof (onmessage_shows shown m s Hs) as H1.
  destruct (onmessage self_Meyda m s) as [s1 out1].
  specialize (IH _ s1 H1). destruct (run self_Meyda msgs s1) as [s2 out2].
  now rewrite last_active_app.
Qed.

Variable expectedSpeakers : option Z.
Variable sampleRate : Z.
Variable browser : nat -> Supervisor.Browser.

(** X20: after the hook has received everything the worker posted, the
    speaker it shows as active is the speaker of the segment the worker
    has open, whenever there is one. *)
Theorem hook_shows_open_speaker msgs h :
  Supervisor.workerRef h <> None ->
  let '(s, out) := run self_Meyda msgs init in
  let h' := Supervisor.steps expectedSpeakers sampleRate browser
              (Capture.deliveries out) h in
  forall spk, currentSpeakerId s = Some spk ->
              Supervisor.activeSpeaker h' = Some spk.
Proof.
  intros Hw.
  pose proof (run_shows msgs (Supervisor.activeSpeaker h) init) as H.
  destruct (run self_Meyda msgs init) as [s out].
  destruct (deliver_all expectedSpeakers sampleRate browser out h Hw)
    as (_ & _ & _ & _ & _ & _ & H7 & _).
  cbv zeta. rewrite H7. apply H. intros spk E. discriminate.
Qed.

End Session.
End ShownFacts.

Module HeartbeatFacts.
Import Supervisor Capture SessionSpec DeliveryFacts.

Section Heartbeat.

Variable expectedSpeakers : option Z.
Variable sampleRate : Z.
Variable browser : nat -> Browser.

#[local] Abbreviation steps := (Supervisor.steps expectedSpeakers sampleRate browser).
#[local] Abbreviation step := (Supervisor.step expectedSpeakers sampleRate browser).


Lemma answered_kept es : forall h,
  heartbeatIntervalRef h = true -> workerRef h <> None ->
  answered (negb (gotPong h)) es = true ->
  let h' := steps es h in
  workerRef h' = workerRef h /\ workers h' = workers h
  /\ heartbeatIntervalRef h' = true
  /\ filter is_restart_line (console h')
     = filter is_restart_line (console h)
  /\ segmentsRef h' = segmentsRef h ++ Worker.segments_of (received es)
  /\ inbox h' = inbox h ++ repeat Worker.MPing (count is_tick es).
Proof.
  induction es as [| e es IH]; intros h Hb Hw Ha.
  - simpl. rewrite !app_nil_r. repeat split; auto.
  - cbv zeta. unfold Supervisor.steps. cbn [fold_left].
    fold (steps es (step e h)).
    destruct e as [| m].
    + (* a tick: the last ping was answered, the next one is sent *)
      simpl in Ha. apply andb_true_iff in Ha. destruct Ha as [Hp Ha].
      apply negb_true_iff, negb_false_iff in Hp.
      assert (Ht : step Tick h
                   = mkHook (workerRef h) (workers h)
                       (inbox h ++ [Worker.MPing]) (heartbeatIntervalRef h)
                       false (restartAttemptsRef h) (segmentsRef h)
                       (activeSpeaker h) (totalSamplesRef h)
                       (onNewSegments h) (console h) (isCancelled h)).
      { cbn [Supervisor.step]. unfold tick. now rewrite Hb, Hp. }
      rewrite Ht.
      match goal with
      | |- context [steps es ?x] =>
          destruct (IH x Hb Hw Ha) as (I1 & I2 & I3 & I4 & I5 & I6)
      end.
      cbn [workerRef workers heartbeatIntervalRef console segmentsRef inbox]
        in *.
      rewrite I1, I2, I3, I4, I5, I6. unfold count. cbn [filter is_tick length
        received repeat]. rewrite <- app_assoc. repeat split; auto.
    + destruct (deliver_one m h Hw)
        as (H1 & H2 & H3 & H4 & _ & H6 & _ & _ & H9).
      assert (Hw1 : workerRef (from_worker m h) <> None) by congruence.
      assert (Hb1 : heartbeatIntervalRef (from_worker m h) = true)
        by congruence.
      assert (Ha1 : answered (negb (gotPong (from_worker m h))) es = true).
      { unfold from_worker. destruct (workerRef h); [| congruence ].
        destruct m; exact Ha. }
      cbn [Supervisor.step].
      destruct (IH _ Hb1 Hw1 Ha1) as (I1 & I2 & I3 & I4 & I5 & I6).
      rewrite I1, I2, I3, I4, I5, I6, H1, H2, H3, H6, H9.
      change (received (FromWorker m :: es)) with ([m] ++ received es).
      rewrite OrderFacts.segments_of_app, app_assoc.
      unfold count. cbn [filter is_tick]. repeat split; auto.
Qed.

(** X21: while every ping is answered before the next tick, the hook
    keeps its worker: no worker is created, the heartbeat goes on, the
    console gets no line about a restart, no segment is dropped, and one
    ping is posted per tick. *)
Theorem responsive_worker_kept es h :
  started h -> answered false es = true ->
  let h' := steps es h in
  workerRef h' = workerRef h /\ workers h' = workers h
  /\ heartbeatIntervalRef h' = true
  /\ filter is_restart_line (console h')
     = filter is_restart_line (console h)
  /\ segmentsRef h' = segmentsRef h ++ Worker.segments_of (received es)
  /\ inbox h' = inbox h ++ repeat Worker.MPing (count is_tick es).
Proof.
  intros (Hb & Hp & Hw) Ha. apply answered_kept; auto.
  now rewrite Hp.
Qed.

End Heartbeat.
End HeartbeatFacts.

(* ================================================================== *)
(** * The same-thread hook, its worklet and the transcript *)
(* ================================================================== *)

Module SameThreadFacts.
Import SameThread SameThreadSpec WorkerSpec SpeakerFacts.

Lemma models_set_fresh model models :
  ~ In (id model) (map id models) ->
  models_set model models = models ++ [model].
Proof.
  induction models as [| m models IH]; intros Hn; [ reflexivity |].
  simpl in *. destruct (String.eqb_spec (id m) (id model)) as [E | _].
  - exfalso. apply Hn. now left.
  - rewrite IH; auto.
Qed.

Lemma models_update_ids key f models :
  (forall m, id (f m) = id m) ->
  map id (models_update key f models) = map id models.
Proof.
  intros Hf. induction models as [| m models IH]; [ reflexivity |].
  simpl. destruct (String.eqb (id m) key); simpl; now rewrite ?Hf, ?IH.
Qed.

Lemma models_update_length key f models :
  length (models_update key f models) = length models.
Proof.
  induction models as [| m models IH]; [ reflexivity |].
  simpl. destruct (String.eqb (id m) key); simpl; now rewrite ?IH.
Qed.

Lemma newSpeakerId_fresh models :
  enrolled models -> ~ In (newSpeakerId models) (map id models).
Proof.
  unfold enrolled. intros He Hin. rewrite He in Hin.
  pose proof (speaker_ids_NoDup (S (length models))) as Hnd.
  rewrite speaker_ids_S in Hnd.
  apply NoDup_remove_2 in Hnd. rewrite app_nil_r in Hnd.
  now apply Hnd.
Qed.

Lemma enrolled_new models model :
  enrolled models -> id model = newSpeakerId models ->
  enrolled (models ++ [model]).
Proof.
  unfold enrolled. intros He Hid.
  rewrite map_app, length_app, He. simpl.
  rewrite Nat.add_1_r, speaker_ids_S, Hid. reflexivity.
Qed.

Lemma enrolled_first models :
  enrolled models -> models <> [] -> In "S1"%string (map id models).
Proof.
  unfold enrolled. intros He Hne. rewrite He.
  destruct models as [| m models]; [ congruence |]. now left.
Qed.

Section Functions.

Variable SILENCE_THRESHOLD : float.
Variable SILENCE_DURATION_MS : float.
Variable FEATURE_WINDOW_SIZE : nat.
Variable SPEAKER_CHANGE_THRESHOLD : float.
Variable MIN_SEGMENT_DURATION_MS : Z.
Variable FFT_SIZE : nat.
Variable expectedSpeakers : Z.

#[local] Abbreviation detectSpeaker :=
  (SameThread.detectSpeaker FEATURE_WINDOW_SIZE SPEAKER_CHANGE_THRESHOLD
     expectedSpeakers).
#[local] Abbreviation best_match :=
  (SameThread.best_match FEATURE_WINDOW_SIZE).
#[local] Abbreviation refresh := (SameThread.refresh FEATURE_WINDOW_SIZE).
#[local] Abbreviation processAudioData :=
  (SameThread.processAudioData SILENCE_THRESHOLD SILENCE_DURATION_MS
     FEATURE_WINDOW_SIZE SPEAKER_CHANGE_THRESHOLD MIN_SEGMENT_DURATION_MS
     FFT_SIZE expectedSpeakers).
#[local] Abbreviation decide :=
  (SameThread.decide FEATURE_WINDOW_SIZE SPEAKER_CHANGE_THRESHOLD
     MIN_SEGMENT_DURATION_MS expectedSpeakers).
#[local] Abbreviation endCurrentSegment :=
  (SameThread.endCurrentSegment MIN_SEGMENT_DURATION_MS).
#[local] Abbreviation cleanup :=
  (SameThread.cleanup MIN_SEGMENT_DURATION_MS).
#[local] Abbreviation step :=
  (SameThread.step SILENCE_THRESHOLD SILENCE_DURATION_MS
     FEATURE_WINDOW_SIZE SPEAKER_CHANGE_THRESHOLD MIN_SEGMENT_DURATION_MS
     FFT_SIZE expectedSpeakers).
#[local] Abbreviation run :=
  (SameThread.run SILENCE_THRESHOLD SILENCE_DURATION_MS
     FEATURE_WINDOW_SIZE SPEAKER_CHANGE_THRESHOLD MIN_SEGMENT_DURATION_MS
     FFT_SIZE expectedSpeakers).
#[local] Abbreviation speakers_known :=
  (SameThreadSpec.speakers_known expectedSpeakers).
#[local] Abbreviation view_consistent :=
  (SameThreadSpec.view_consistent MIN_SEGMENT_DURATION_MS).

Lemma best_match_in cf models : forall acc b s,
    fold_left
      (fun '(bestMatch, bestSimilarity) model =>
         let similarity :=
           calculateSimilarity cf
             (slice_last FEATURE_WINDOW_SIZE (features model)) in
         if bestSimilarity <? similarity
         then (Some (id model), similarity)
         else (bestMatch, bestSimilarity))
      models acc = (Some b, s) ->
    fst acc = Some b \/ In b (map id models).
Proof.
  induction models as [| m models IH]; intros [bm bs] b s H.
  - simpl in H. left. simpl. congruence.
  - simpl in H.
    destruct (bs <? _).
    + destruct (IH _ b s H) as [E | Hin].
      * simpl in E. right. left. congruence.
      * right. now right.
    + destruct (IH _ b s H) as [E | Hin].
      * now left.
      * right. now right.
Qed.

Lemma best_match_known cf models b s :
  best_match cf models = (Some b, s) -> In b (map id models).
Proof.
  intros H. unfold SameThread.best_match in H.
  destruct (best_match_in cf models (None, 0) b s H)
    as [E | Hin]; [ discriminate | exact Hin ].
Qed.

(** The two ways [detectSpeaker] ends. *)
Lemma detectSpeaker_cases now cf models :
  enrolled models ->
  let '(spk, models') := detectSpeaker now cf models in
  if Nat.eqb (length models) 0
     || (Z.of_nat (length models) <? expectedSpeakers)%Z
  then spk = newSpeakerId models
       /\ models' = models ++ [newModel now spk cf]
  else map id models' = map id models
       /\ length models' = length models
       /\ In spk (map id models).
Proof.
  intros He. unfold SameThread.detectSpeaker.
  assert (Hnew : models_set (newModel now (newSpeakerId models) cf) models
                 = models ++ [newModel now (newSpeakerId models) cf]).
  { apply models_set_fresh. now apply newSpeakerId_fresh. }
  destruct (Nat.eqb (length models) 0) eqn:H0; cbn [orb].
  - now split.
  - destruct (Z.of_nat (length models) <? expectedSpeakers)%Z eqn:Hb.
    + now split.
    + destruct (SameThread.best_match _ cf models) as [bm bs] eqn:Hbm.
      rewrite andb_false_r.
      destruct bm as [b |].
      * split; [ now apply models_update_ids |].
        split; [ apply models_update_length |].
        now apply best_match_known with cf bs.
      * repeat split. apply enrolled_first; auto.
        intros ->. discriminate.
Qed.

(** X22: in the same-thread hook a speaker is enrolled by the count of
    the models alone: while there is no model, or fewer than
    [expectedSpeakers], [detectSpeaker] enrols the next id whatever the
    features are; once the count is reached it never enrols, however
    dissimilar the features, and answers with a speaker it knows. *)
Theorem speakers_enrolled_by_count now cf models :
  enrolled models ->
  let '(spk, models') := detectSpeaker now cf models in
  (length models = 0%nat
   \/ (Z.of_nat (length models) < expectedSpeakers)%Z ->
   spk = ("S" ++ JS.string_of_nat (length models + 1))%string
   /\ models' = models ++ [newModel now spk cf])
  /\ (length models <> 0%nat ->
      (expectedSpeakers <= Z.of_nat (length models))%Z ->
      map id models' = map id models /\ In spk (map id models)).
Proof.
  intros He. pose proof (detectSpeaker_cases now cf models He) as H.
  destruct (detectSpeaker now cf models) as [spk models'].
  destruct (Nat.eqb_spec (length models) 0) as [E0 | E0];
    destruct (Z.ltb_spec (Z.of_nat (length models)) expectedSpeakers)
      as [El | El]; cbn [orb] in H.
  - split; [ intros _; exact H | intros; congruence ].
  - split; [ intros _; exact H | intros; congruence ].
  - split; [ intros _; exact H | intros; lia ].
  - split; [ intros [? | ?]; [ congruence | lia ] |].
    intros _ _. destruct H as (H1 & _ & H3). now split.
Qed.

End Functions.
End SameThreadFacts.

Module SameThreadRuns.
Import SameThread SameThreadSpec SameThreadFacts WorkerSpec SpeakerFacts.

Section Runs.

Variable SILENCE_THRESHOLD : float.
Variable SILENCE_DURATION_MS : float.
Variable FEATURE_WINDOW_SIZE : nat.
Variable SPEAKER_CHANGE_THRESHOLD : float.
Variable MIN_SEGMENT_DURATION_MS : Z.
Variable FFT_SIZE : nat.
Variable expectedSpeakers : Z.

#[local] Abbreviation detectSpeaker :=
  (SameThread.detectSpeaker FEATURE_WINDOW_SIZE SPEAKER_CHANGE_THRESHOLD
     expectedSpeakers).
#[local] Abbreviation processAudioData :=
  (SameThread.processAudioData SILENCE_THRESHOLD SILENCE_DURATION_MS
     FEATURE_WINDOW_SIZE SPEAKER_CHANGE_THRESHOLD MIN_SEGMENT_DURATION_MS
     FFT_SIZE expectedSpeakers).
#[local] Abbreviation decide :=
  (SameThread.decide FEATURE_WINDOW_SIZE SPEAKER_CHANGE_THRESHOLD
     MIN_SEGMENT_DURATION_MS expectedSpeakers).
#[local] Abbreviation closeSegment :=
  (SameThread.endCurrentSegment MIN_SEGMENT_DURATION_MS).
#[local] Abbreviation cleanup :=
  (SameThread.cleanup MIN_SEGMENT_DURATION_MS).
#[local] Abbreviation step :=
  (SameThread.step SILENCE_THRESHOLD SILENCE_DURATION_MS
     FEATURE_WINDOW_SIZE SPEAKER_CHANGE_THRESHOLD MIN_SEGMENT_DURATION_MS
     FFT_SIZE expectedSpeakers).
#[local] Abbreviation run :=
  (SameThread.run SILENCE_THRESHOLD SILENCE_DURATION_MS
     FEATURE_WINDOW_SIZE SPEAKER_CHANGE_THRESHOLD MIN_SEGMENT_DURATION_MS
     FFT_SIZE expectedSpeakers).
#[local] Abbreviation speakers_known :=
  (SameThreadSpec.speakers_known expectedSpeakers).
#[local] Abbreviation view_consistent :=
  (SameThreadSpec.view_consistent MIN_SEGMENT_DURATION_MS).
#[local] Abbreviation sound :=
  (SameThreadSpec.sound expectedSpeakers MIN_SEGMENT_DURATION_MS).

(** The stored segments after [endCurrentSegment]. *)
Lemma close_segments endTime v :
  let v' := Hook.endCurrentSegment MIN_SEGMENT_DURATION_MS endTime v in
  Hook.currentSegmentRef v' = None
  /\ (Hook.currentSegmentRef v = None -> v' = v)
  /\ (Hook.activeSpeaker
        v = option_map Hook.speakerId (Hook.currentSegmentRef v) ->
      Hook.activeSpeaker v' = None)
  /\ forall g, Hook.currentSegmentRef v = Some g ->
       Hook.activeSpeaker v' = None
       /\ (Hook.segments v' = Hook.segments v
           \/ ((MIN_SEGMENT_DURATION_MS <= endTime - Hook.startMs g)%Z
               /\ Hook.segments v'
                  = Hook.segments v
                    ++ [Hook.mkSegment (Hook.speakerId g) (Hook.startMs g)
                          endTime])).
Proof.
  cbv zeta. unfold Hook.endCurrentSegment.
  destruct (Hook.currentSegmentRef v) as [g |] eqn:E.
  - cbn. split; [ reflexivity |]. split; [ discriminate |].
    split; [ reflexivity |].
    intros g' [= <-]. split; [ reflexivity |].
    destruct (Z.leb_spec MIN_SEGMENT_DURATION_MS (endTime - Hook.startMs g));
      auto.
  - rewrite E. split; [ reflexivity |]. split; [ reflexivity |].
    split; [ intros ->; reflexivity | discriminate ].
Qed.


Lemma sound_mounted : sound mounted.
Proof.
  unfold SameThreadSpec.sound, SameThreadSpec.speakers_known,
    SameThreadSpec.view_consistent, enrolled. simpl.
  repeat split; auto; try constructor; try discriminate. lia.
Qed.

Lemma sound_close endTime r : sound r -> sound (closeSegment endTime r).
Proof.
  intros [(He & Hn & Hs & Ho & Ha) (Hmin & Hact)].
  destruct (close_segments endTime (view r)) as (Hc & Hnone & _ & Hsome).
  unfold SameThreadSpec.sound, SameThreadSpec.speakers_known,
    SameThreadSpec.view_consistent, SameThread.endCurrentSegment.
  cbn [view speakerModelsRef].
  destruct (Hook.currentSegmentRef (view r)) as [g |] eqn:E.
  - destruct (Hsome g eq_refl) as (Ha' & Hseg).
    rewrite Hc, Ha'. cbn [option_map].
    assert (Hg : In (Hook.speakerId g) (map id (speakerModelsRef r)))
      by now apply Ho.
    assert (Hsg : Forall (fun g => In (Hook.speakerId g)
                                      (map id (speakerModelsRef r)))
                    (Hook.segments
                       (Hook.endCurrentSegment MIN_SEGMENT_DURATION_MS
                          endTime (view r)))
                  /\ Forall (fun g => (MIN_SEGMENT_DURATION_MS
                                       <= Hook.endMs g - Hook.startMs g)%Z)
                       (Hook.segments
                          (Hook.endCurrentSegment MIN_SEGMENT_DURATION_MS
                             endTime (view r)))).
    { destruct Hseg as [-> | [Hlong ->]]; [ now split |].
      split; apply Forall_app; split; auto; now repeat constructor. }
    destruct Hsg as [Hsg1 Hsg2].
    split; [| now split ].
    split; [ exact He |]. split; [ exact Hn |]. split; [ exact Hsg1 |].
    split; intros; discriminate.
  - rewrite (Hnone eq_refl). rewrite E.
    repeat split; auto.
Qed.

Lemma sound_decide now currentTime r : sound r -> sound (decide now currentTime r).
Proof.
  intros Hs. pose proof Hs as [(He & Hn & Hsg & Ho & Ha) (Hmin & Hact)].
  unfold SameThread.decide.
  pose proof (detectSpeaker_cases FEATURE_WINDOW_SIZE
                SPEAKER_CHANGE_THRESHOLD expectedSpeakers now
                (featureBufferRef r) (speakerModelsRef r) He) as Hd.
  destruct (SameThread.detectSpeaker _ _ _ now (featureBufferRef r)
              (speakerModelsRef r)) as [spk models].
  (* the models after the call *)
  assert (Hm : enrolled models
               /\ (Z.of_nat (length models) <= Z.max 1 expectedSpeakers)%Z
               /\ In spk (map id models)
               /\ forall x, In x (map id (speakerModelsRef r)) ->
                            In x (map id models)).
  { destruct (Nat.eqb_spec (length (speakerModelsRef r)) 0) as [E0 | E0];
      destruct (Z.ltb_spec (Z.of_nat (length (speakerModelsRef r)))
                  expectedSpeakers) as [El | El]; cbn [orb] in Hd.
    1-3: destruct Hd as [Hspk ->];
      (split; [ apply enrolled_new; [ exact He | exact Hspk ] |]);
      rewrite map_app, length_app; cbn [length map newModel id];
      (split; [ lia |]);
      (split; [ apply in_or_app; right; now left |]);
      intros x Hx; apply in_or_app; now left.
    destruct Hd as (Hids & Hlen & Hin). unfold enrolled in *.
    rewrite Hids, Hlen. repeat split; auto. }
  destruct Hm as (He' & Hn' & Hin & Hsub).
  set (r1 := mkRefs (view r) models (silenceCountRef r) (featureBufferRef r)).
  assert (Hs1 : sound r1).
  { unfold sound, SameThreadSpec.speakers_known,
      SameThreadSpec.view_consistent, r1. cbn [view speakerModelsRef].
    repeat split; auto.
    eapply Forall_impl; [| exact Hsg ]. intros g Hg. now apply Hsub. }
  cbn [view] in *. fold r1.
  destruct (negb _).
  - (* a new segment is opened *)
    assert (Hs2 : sound (if is_open r1 then closeSegment currentTime r1
                         else r1)).
    { destruct (is_open r1); [ now apply sound_close | exact Hs1 ]. }
    destruct Hs2 as [(He2 & Hn2 & Hsg2 & Ho2 & Ha2) (Hmin2 & Hact2)].
    assert (Hmodels : speakerModelsRef (if is_open r1
                                        then closeSegment currentTime r1
                                        else r1) = models).
    { destruct (is_open r1); reflexivity. }
    rewrite Hmodels in *.
    unfold SameThreadSpec.sound, SameThreadSpec.speakers_known,
      SameThreadSpec.view_consistent.
    cbn [view speakerModelsRef Hook.segments Hook.currentSegmentRef
           Hook.activeSpeaker option_map Hook.speakerId].
    repeat split; auto.
    + intros g [= <-]. exact Hin.
    + intros x [= <-]. exact Hin.
  - (* the open segment goes on *)
    destruct Hs1 as [(He1 & Hn1 & Hsg1 & Ho1 & Ha1) (Hmin1 & Hact1)].
    unfold SameThreadSpec.sound, SameThreadSpec.speakers_known,
      SameThreadSpec.view_consistent.
    cbn [view speakerModelsRef Hook.segments Hook.currentSegmentRef
           Hook.activeSpeaker r1] in *.
    repeat split; auto.
    + intros g Hg. destruct (Hook.currentSegmentRef (view r)) as [g0 |];
        [| discriminate ].
      injection Hg as <-. cbn. now apply Ho1.
    + rewrite Hact1. now destruct (Hook.currentSegmentRef (view r)).
Qed.

Lemma sound_refs v m c b c' b' :
  sound (mkRefs v m c b) -> sound (mkRefs v m c' b').
Proof. intros H. exact H. Qed.

Lemma sound_process startTime now dataArray sampleRate r :
  sound r -> sound (processAudioData startTime now dataArray sampleRate r).
Proof.
  intros Hs. unfold SameThread.processAudioData.
  destruct startTime as [start |]; [| exact Hs ].
  destruct (start =? 0)%Z; [ exact Hs |].
  destruct (_ <? SILENCE_THRESHOLD).
  - destruct (_ && _); [| exact Hs ].
    match goal with
    | |- context [SameThread.endCurrentSegment ?m ?t ?x] =>
        assert (H : sound (closeSegment t x)) by (apply sound_close; exact Hs)
    end.
    exact H.
  - match goal with
    | |- context [Nat.ltb (length ?b) 3] => destruct (Nat.ltb (length b) 3)
    end; [ exact Hs |].
    apply sound_decide. exact Hs.
Qed.

Lemma sound_step startTime e r : sound r -> sound (step startTime e r).
Proof.
  intros Hs. destruct e as [now dataArray sampleRate | | now]; simpl.
  - now apply sound_process.
  - apply sound_mounted.
  - unfold SameThread.cleanup. destruct startTime as [start |]; [| exact Hs ].
    destruct (_ && _); [ now apply sound_close | exact Hs ].
Qed.

Lemma sound_run startTime es : forall r,
  sound r -> sound (run startTime es r).
Proof.
  induction es as [| e es IH]; intros r Hs; [ exact Hs |].
  simpl. apply IH. now apply sound_step.
Qed.

(** X23: at every point of the same-thread hook the speaker models are
    [S1 .. Sn] in creation order, [n] is at most [expectedSpeakers] (and
    at most 1 when that is below 1), and the speaker of every stored
    segment, of the open segment and the active speaker are among
    them. *)
Theorem same_thread_speakers startTime es :
  let r := run startTime es mounted in
  let n := length (speakerModelsRef r) in
  map id (speakerModelsRef r) = speaker_ids n
  /\ (Z.of_nat n <= Z.max 1 expectedSpeakers)%Z
  /\ Forall (fun g => In (Hook.speakerId g) (speaker_ids n))
       (Hook.segments (view r))
  /\ (forall g, Hook.currentSegmentRef (view r) = Some g ->
                In (Hook.speakerId g) (speaker_ids n))
  /\ (forall spk, Hook.activeSpeaker (view r) = Some spk ->
                  In spk (speaker_ids n)).
Proof.
  cbv zeta.
  destruct (sound_run startTime es mounted sound_mounted)
    as [(He & Hn & Hs & Ho & Ha) _].
  unfold enrolled in He. rewrite <- He. auto.
Qed.

(** X24: at every point of the same-thread hook every stored segment
    lasts at least [MIN_SEGMENT_DURATION_MS], and the active speaker is
    the speaker of the open segment, and [null] when none is open. *)
Theorem same_thread_view startTime es :
  let r := run startTime es mounted in
  Forall (fun g => (MIN_SEGMENT_DURATION_MS
                    <= Hook.endMs g - Hook.startMs g)%Z)
    (Hook.segments (view r))
  /\ Hook.activeSpeaker (view r)
     = option_map Hook.speakerId (Hook.currentSegmentRef (view r)).
Proof.
  cbv zeta.
  destruct (sound_run startTime es mounted sound_mounted) as [_ H].
  exact H.
Qed.

End Runs.
End SameThreadRuns.

Module SameThreadOrder.
Import SameThread SameThreadSpec SameThreadFacts SameThreadRuns.

Section Order.

Variable SILENCE_THRESHOLD : float.
Variable SILENCE_DURATION_MS : float.
Variable FEATURE_WINDOW_SIZE : nat.
Variable SPEAKER_CHANGE_THRESHOLD : float.
Variable MIN_SEGMENT_DURATION_MS : Z.
Variable FFT_SIZE : nat.
Variable expectedSpeakers : Z.

#[local] Abbreviation processAudioData :=
  (SameThread.processAudioData SILENCE_THRESHOLD SILENCE_DURATION_MS
     FEATURE_WINDOW_SIZE SPEAKER_CHANGE_THRESHOLD MIN_SEGMENT_DURATION_MS
     FFT_SIZE expectedSpeakers).
#[local] Abbreviation decide :=
  (SameThread.decide FEATURE_WINDOW_SIZE SPEAKER_CHANGE_THRESHOLD
     MIN_SEGMENT_DURATION_MS expectedSpeakers).
#[local] Abbreviation closeSegment :=
  (SameThread.endCurrentSegment MIN_SEGMENT_DURATION_MS).
#[local] Abbreviation step :=
  (SameThread.step SILENCE_THRESHOLD SILENCE_DURATION_MS
     FEATURE_WINDOW_SIZE SPEAKER_CHANGE_THRESHOLD MIN_SEGMENT_DURATION_MS
     FFT_SIZE expectedSpeakers).
#[local] Abbreviation run :=
  (SameThread.run SILENCE_THRESHOLD SILENCE_DURATION_MS
     FEATURE_WINDOW_SIZE SPEAKER_CHANGE_THRESHOLD MIN_SEGMENT_DURATION_MS
     FFT_SIZE expectedSpeakers).

Lemma order_later t t' r :
  in_order t r -> (t <= t')%Z -> in_order t' r.
Proof.
  intros (Hs & Hb & Ho) Ht. split; [ exact Hs |]. split.
  - eapply Forall_impl; [| exact Hb ]. intros g [H1 H2]. split; lia.
  - intros g Hg. destruct (Ho g Hg) as [H1 H2]. split; [ lia | exact H2 ].
Qed.

Lemma order_close t t' r :
  in_order t r -> (t <= t')%Z -> in_order t' (closeSegment t' r).
Proof.
  intros Hi Ht. pose proof (order_later t t' r Hi Ht) as (Hs & Hb & Ho).
  destruct Hi as (_ & _ & Ho0).
  destruct (close_segments MIN_SEGMENT_DURATION_MS t' (view r))
    as (Hc & Hnone & _ & Hsome).
  unfold in_order, SameThread.endCurrentSegment. cbn [view].
  rewrite Hc.
  destruct (Hook.currentSegmentRef (view r)) as [g |] eqn:E.
  - destruct (Hsome g eq_refl) as (_ & [-> | [_ ->]]).
    + split; [ exact Hs |]. split; [ exact Hb | intros; discriminate ].
    + destruct (Ho0 g eq_refl) as [Hst Hends].
      split; [| split; [| intros; discriminate ] ].
      * apply OrderFacts.StronglySorted_snoc; [ exact Hs | exact Hends ].
      * apply Forall_app. split; [ exact Hb |].
        constructor; [ simpl; lia | constructor ].
  - rewrite (Hnone eq_refl).
    split; [ exact Hs |]. split; [ exact Hb | intros; discriminate ].
Qed.

Lemma order_decide t now currentTime r :
  in_order t r -> (t <= currentTime)%Z ->
  in_order currentTime (decide now currentTime r).
Proof.
  intros Hi Ht. unfold SameThread.decide.
  destruct (SameThread.detectSpeaker _ _ _ now (featureBufferRef r)
              (speakerModelsRef r)) as [spk models].
  set (r1 := mkRefs (view r) models (silenceCountRef r) (featureBufferRef r)).
  assert (Hi1 : in_order t r1) by exact Hi.
  cbn [view]. fold r1.
  destruct (negb _).
  - assert (H2 : in_order currentTime
                   (if is_open r1 then closeSegment currentTime r1 else r1)).
    { destruct (is_open r1);
        [ now apply order_close with t | now apply order_later with t ]. }
    destruct H2 as (Hs & Hb & _).
    unfold in_order.
    cbn [view Hook.segments Hook.currentSegmentRef].
    split; [ exact Hs |]. split; [ exact Hb |].
    intros g [= <-]. cbn. split; [ lia |].
    eapply Forall_impl; [| exact Hb ]. intros h [_ H]. exact H.
  - destruct (order_later t currentTime r1 Hi1 Ht) as (Hs & Hb & Ho).
    unfold in_order.
    cbn [view Hook.segments Hook.currentSegmentRef r1] in *.
    split; [ exact Hs |]. split; [ exact Hb |].
    intros g Hg.
    destruct (Hook.currentSegmentRef (view r)) as [g0 |]; [| discriminate ].
    injection Hg as <-. cbn. now apply Ho.
Qed.


Lemma order_process startTime lo now dataArray sampleRate r :
  in_order (lo - origin startTime) r -> (lo <= now)%Z ->
  in_order (now - origin startTime)
    (processAudioData startTime now dataArray sampleRate r).
Proof.
  intros Hi Hn.
  assert (Hlater : in_order (now - origin startTime) r)
    by (apply order_later with (lo - origin startTime)%Z; auto; lia).
  unfold SameThread.processAudioData.
  destruct startTime as [start |]; [| exact Hlater ].
  destruct (start =? 0)%Z; [ exact Hlater |].
  cbn [origin] in *.
  destruct (_ <? SILENCE_THRESHOLD).
  - destruct (_ && _); [| exact Hlater ].
    match goal with
    | |- context [SameThread.endCurrentSegment ?m ?t ?x] =>
        assert (H : in_order (now - start) (closeSegment t x))
          by (apply order_close with (lo - start)%Z; [ exact Hi | lia ])
    end.
    exact H.
  - match goal with
    | |- context [Nat.ltb (length ?b) 3] => destruct (Nat.ltb (length b) 3)
    end; [ exact Hlater |].
    apply order_decide with (lo - start)%Z; [ exact Hi | lia ].
Qed.

Lemma order_mounted t : in_order t mounted.
Proof.
  unfold in_order. simpl. repeat split; try constructor; discriminate.
Qed.

Lemma order_run startTime es : forall lo r,
  in_order (lo - origin startTime) r -> clock_from lo es ->
  exists lo', in_order (lo' - origin startTime) (run startTime es r).
Proof.
  induction es as [| e es IH]; intros lo r Hi Hc; [ eauto |].
  simpl in Hc. unfold SameThread.run. cbn [fold_left].
  destruct e as [now dataArray sampleRate | | now]; cbn [clock_of] in Hc.
  - destruct Hc as [Hn Hc]. apply (IH now); [| exact Hc ].
    now apply order_process with lo.
  - apply (IH lo); [| exact Hc ]. apply order_mounted.
  - destruct Hc as [Hn Hc]. apply (IH now); [| exact Hc ].
    cbn [SameThread.step]. unfold SameThread.cleanup.
    assert (Hlater : in_order (now - origin startTime) r)
      by (apply order_later with (lo - origin startTime)%Z; auto; lia).
    destruct startTime as [start |]; [| exact Hlater ].
    destruct (_ && _); [| exact Hlater ].
    cbn [origin] in *.
    apply order_close with (lo - start)%Z; [ exact Hi | lia ].
Qed.

(** X25: when the clock never goes back, the segments the same-thread
    hook stores do not end before they start, and a segment stored
    before another one is over when the other starts. *)
Theorem same_thread_segments_ordered startTime lo es :
  clock_from lo es ->
  let segs := Hook.segments (view (run startTime es mounted)) in
  Forall (fun g => (Hook.startMs g <= Hook.endMs g)%Z) segs
  /\ forall i j g h, (i < j)%nat ->
       nth_error segs i = Some g -> nth_error segs j = Some h ->
       (Hook.endMs g <= Hook.startMs h)%Z.
Proof.
  intros Hc. cbv zeta.
  destruct (order_run startTime es lo mounted (order_mounted _) Hc)
    as (lo' & Hs & Hb & _).
  split.
  - eapply Forall_impl; [| exact Hb ]. intros g [H _]. exact H.
  - intros i j g h Hij Hg Hh.
    exact (OrderFacts.StronglySorted_nth before _ Hs i j g h Hij Hg Hh).
Qed.

End Order.
End SameThreadOrder.

Module QuantizeFacts.
Import Quantize.

Lemma bytes_spec d : (0 <= d < 256)%Z -> In d bytes.
Proof.
  intros H. unfold bytes. apply in_map_iff. exists (Z.to_nat d).
  split; [ lia |]. apply in_seq. lia.
Qed.

Lemma round_trip_bytes :
  forallb (fun d => (quantize (SameThread.sample d) =? d)%Z) bytes = true.
Proof. vm_compute. reflexivity. Qed.

(** X27: the conversion of the audio worklet is a left inverse of the
    decoding of the same-thread hook: the sample [(d - 128) / 128] of a
    byte [d] is converted back to [d]. *)
Theorem byte_round_trip d :
  (0 <= d < 256)%Z -> quantize (SameThread.sample d) = d.
Proof.
  intros H. pose proof round_trip_bytes as Hall.
  rewrite forallb_forall in Hall.
  apply Z.eqb_eq. apply Hall. now apply bytes_spec.
Qed.

End QuantizeFacts.

Module TranscriptFacts.
Import SameThread SameThreadSpec SameThreadRuns Transcript WorkerSpec.

Section Entries.

Variable SILENCE_THRESHOLD : float.
Variable SILENCE_DURATION_MS : float.
Variable FEATURE_WINDOW_SIZE : nat.
Variable SPEAKER_CHANGE_THRESHOLD : float.
Variable MIN_SEGMENT_DURATION_MS : Z.
Variable FFT_SIZE : nat.
Variable expectedSpeakers : Z.

#[local] Abbreviation run :=
  (SameThread.run SILENCE_THRESHOLD SILENCE_DURATION_MS
     FEATURE_WINDOW_SIZE SPEAKER_CHANGE_THRESHOLD MIN_SEGMENT_DURATION_MS
     FFT_SIZE expectedSpeakers).

Lemma find_last {A} (f : A -> bool) l : forall g,
  find f (rev l) = Some g ->
  exists l1 l2, l = l1 ++ g :: l2 /\ f g = true
                /\ forall h, In h l2 -> f h = false.
Proof.
  induction l as [| x l IH] using rev_ind; intros g H; [ discriminate |].
  rewrite rev_app_distr in H. simpl in H.
  destruct (f x) eqn:Hx.
  - injection H as <-. exists l, []. repeat split; auto. intros h [].
  - destruct (IH g H) as (l1 & l2 & -> & Hg & Hl2).
    exists l1, (l2 ++ [x]). rewrite <- app_assoc. repeat split; auto.
    intros h Hh. apply in_app_or in Hh.
    destruct Hh as [Hh | [<- | []]]; auto.
Qed.

(** X28: a new transcript entry gets at most one speaker, and one the
    same-thread hook has enrolled: the speaker of the most recent stored
    segment that contains the time of the entry, and when no stored
    segment contains it, the speaker of the open segment, if any. *)
Theorem entry_speaker_enrolled startTime es t :
  let r := run startTime es mounted in
  let segments := Hook.segments (view r) in
  let ids := speakerIds segments (Hook.activeSpeaker (view r)) t in
  (length ids <= 1)%nat
  /\ (forall spk, In spk ids ->
        In spk (speaker_ids (length (speakerModelsRef r))))
  /\ (forall g, overlappingSegment segments t = Some g ->
        ids = [Hook.speakerId g]
        /\ (Hook.startMs g <= t <= Hook.endMs g)%Z
        /\ exists earlier later,
             segments = earlier ++ g :: later
             /\ forall h, In h later ->
                  (t < Hook.startMs h)%Z \/ (Hook.endMs h < t)%Z)
  /\ (overlappingSegment segments t = None ->
      (forall g, In g segments ->
                 (t < Hook.startMs g)%Z \/ (Hook.endMs g < t)%Z)
      /\ ids = match Hook.currentSegmentRef (view r) with
               | Some g => [Hook.speakerId g]
               | None => []
               end).
Proof.
  cbv zeta.
  destruct (sound_run SILENCE_THRESHOLD SILENCE_DURATION_MS
              FEATURE_WINDOW_SIZE SPEAKER_CHANGE_THRESHOLD
              MIN_SEGMENT_DURATION_MS FFT_SIZE expectedSpeakers
              startTime es mounted
              (sound_mounted MIN_SEGMENT_DURATION_MS expectedSpeakers))
    as [(He & _ & Hs & _ & Ha) (_ & Hact)].
  unfold enrolled in He. rewrite <- He.
  set (r := run startTime es mounted) in *.
  unfold speakerIds, overlappingSegment.
  destruct (find _ (rev (Hook.segments (view r)))) as [g |] eqn:Hf.
  - destruct (find_last _ _ _ Hf) as (l1 & l2 & El & Hg & Hl2).
    apply find_some in Hf. destruct Hf as [Hin Hb].
    apply in_rev in Hin. apply andb_true_iff in Hb.
    split; [ simpl; lia |]. split.
    + intros spk [<- | []]. rewrite Forall_forall in Hs. now apply Hs.
    + split; [| discriminate ].
      intros g' [= <-]. split; [ reflexivity |]. split; [ lia |].
      exists l1, l2. split; [ exact El |].
      intros h Hh. specialize (Hl2 h Hh). simpl in Hl2.
      apply andb_false_iff in Hl2. destruct Hl2 as [Hn | Hn]; lia.
  - split; [ destruct (Hook.activeSpeaker (view r)); simpl; lia |].
    split.
    + destruct (Hook.activeSpeaker (view r)) as [spk |] eqn:E;
        [| intros ? [] ].
      intros x [<- | []]. now apply Ha.
    + split; [ discriminate |]. intros _. split.
      * intros g Hg. apply in_rev in Hg.
        pose proof (find_none _ _ Hf g Hg) as Hn. simpl in Hn.
        apply andb_false_iff in Hn. destruct Hn as [Hn | Hn]; lia.
      * rewrite Hact. now destruct (Hook.currentSegmentRef (view r)).
Qed.

Lemma decide_refs now currentTime r :
  let r' := SameThread.decide FEATURE_WINDOW_SIZE SPEAKER_CHANGE_THRESHOLD
              MIN_SEGMENT_DURATION_MS expectedSpeakers now currentTime r in
  silenceCountRef r' = silenceCountRef r
  /\ featureBufferRef r' = featureBufferRef r.
Proof.
  cbv zeta. unfold SameThread.decide.
  destruct (SameThread.detectSpeaker _ _ _ _ _ _) as [spk models].
  cbn [view]. destruct (negb _); [| split; reflexivity ].
  cbn [silenceCountRef featureBufferRef].
  match goal with
  | |- context [if is_open ?x then _ else _] => destruct (is_open x)
  end; split; reflexivity.
Qed.

Lemma slice_last_nonempty {A} n (l : list A) :
  l <> [] -> (n < length l)%nat ->
  (if Nat.ltb n (length l) then slice_last n l else l) <> [].
Proof.
  intros Hne Hn. apply Nat.ltb_lt in Hn. rewrite Hn.
  apply Nat.ltb_lt in Hn.
  destruct n as [| n]; [ exact Hne |].
  unfold slice_last. intros E.
  apply (f_equal (@length A)) in E. rewrite length_skipn in E.
  simpl in E. lia.
Qed.

Lemma ltb_nan_l x y : is_nan x = true -> (x <? y) = false.
Proof.
  rewrite FloatOrder.nan_spec, ltb_spec. intros ->. reflexivity.
Qed.

Lemma empty_energy sampleRate now :
  is_nan (energy (calculateFeatures FFT_SIZE [] sampleRate now)) = true.
Proof.
  unfold calculateFeatures.
  destruct (magnitudes FFT_SIZE (spectrum FFT_SIZE (map sample [])))
    as [w m].
  reflexivity.
Qed.

(** X26: in the same-thread hook the energy of an empty data array is
    NaN, which is not below the silence threshold: the array counts as
    speech, the silence counter is reset and the features enter the
    window. *)
Theorem empty_frame_counts_as_speech start now sampleRate r :
  start <> 0%Z ->
  let r' := SameThread.processAudioData SILENCE_THRESHOLD
              SILENCE_DURATION_MS FEATURE_WINDOW_SIZE
              SPEAKER_CHANGE_THRESHOLD MIN_SEGMENT_DURATION_MS FFT_SIZE
              expectedSpeakers (Some start) now [] sampleRate r in
  is_nan (energy (calculateFeatures FFT_SIZE [] sampleRate now)) = true
  /\ silenceCountRef r' = 0%nat
  /\ featureBufferRef r' <> [].
Proof.
  intros Hs. cbv zeta. split; [ apply empty_energy |].
  unfold SameThread.processAudioData.
  apply Z.eqb_neq in Hs. rewrite Hs.
  rewrite (ltb_nan_l _ _ (empty_energy sampleRate now)).
  set (features := calculateFeatures FFT_SIZE [] sampleRate now).
  set (pushed := featureBufferRef r ++ [features]).
  assert (Hp : pushed <> []) by (unfold pushed; now destruct (featureBufferRef r)).
  assert (Hb : (if Nat.ltb FEATURE_WINDOW_SIZE (length pushed)
                then slice_last FEATURE_WINDOW_SIZE pushed else pushed)
               <> []).
  { destruct (Nat.ltb_spec FEATURE_WINDOW_SIZE (length pushed)) as [H | H];
      [| exact Hp ].
    pose proof (slice_last_nonempty FEATURE_WINDOW_SIZE pushed Hp H) as Hn.
    apply Nat.ltb_lt in H. now rewrite H in Hn. }
  cbv zeta.
  match goal with
  | |- context [Nat.ltb (length ?b) 3] => destruct (Nat.ltb (length b) 3)
  end.
  - split; [ reflexivity | exact Hb ].
  - match goal with
    | |- context [SameThread.decide _ _ _ _ ?n ?t ?x] =>
        destruct (decide_refs n t x) as [H1 H2]
    end.
    rewrite H1, H2. split; [ reflexivity | exact Hb ].
Qed.

End Entries.
End TranscriptFacts.

(* ================================================================== *)
(** * Closed segments and the minimum duration *)
(* ================================================================== *)

Module ClosingFacts.
Import SameThread SameThreadSpec.




Section Closing.

Variable SILENCE_THRESHOLD : float.
Variable SILENCE_DURATION_MS : float.
Variable FEATURE_WINDOW_SIZE : nat.
Variable SPEAKER_CHANGE_THRESHOLD : float.
Variable MIN_SEGMENT_DURATION_MS : Z.
Variable FFT_SIZE : nat.
Variable expectedSpeakers : Z.

#[local] Abbreviation step :=
  (SameThread.step SILENCE_THRESHOLD SILENCE_DURATION_MS
     FEATURE_WINDOW_SIZE SPEAKER_CHANGE_THRESHOLD MIN_SEGMENT_DURATION_MS
     FFT_SIZE expectedSpeakers).
#[local] Abbreviation processAudioData :=
  (SameThread.processAudioData SILENCE_THRESHOLD SILENCE_DURATION_MS
     FEATURE_WINDOW_SIZE SPEAKER_CHANGE_THRESHOLD MIN_SEGMENT_DURATION_MS
     FFT_SIZE expectedSpeakers).
#[local] Abbreviation decide :=
  (SameThread.decide FEATURE_WINDOW_SIZE SPEAKER_CHANGE_THRESHOLD
     MIN_SEGMENT_DURATION_MS expectedSpeakers).
#[local] Abbreviation cleanup :=
  (SameThread.cleanup MIN_SEGMENT_DURATION_MS).
#[local] Abbreviation closing endTime v :=
  (Hook.segments
     (Hook.endCurrentSegment MIN_SEGMENT_DURATION_MS endTime v)).





End Closing.
End ClosingFacts.

(* ================================================================== *)
(** * The configuration is not validated *)
(* ================================================================== *)

Module ConfigFacts.
Import Worker WorkerFacts.

(** [start()] does not look at [expectedSpeakers]: but for the
    configuration it posts, the hook is the same for every value. *)
Lemma start_any_config expected expected' sampleRate browser h :
  let h1 := Supervisor.start expected sampleRate browser h in
  let h2 := Supervisor.start expected' sampleRate browser h in
  Supervisor.console h1 = Supervisor.console h2
  /\ Supervisor.workerRef h1 = Supervisor.workerRef h2
  /\ Supervisor.heartbeatIntervalRef h1
     = Supervisor.heartbeatIntervalRef h2
  /\ (Supervisor.inbox h1 = Supervisor.inbox h2
      \/ (Supervisor.inbox h1
          = [Supervisor.config expected sampleRate]
          /\ Supervisor.inbox h2
             = [Supervisor.config expected' sampleRate])).
Proof.
  destruct h as [w n i hb gp ra sr spk ts ons c ic].
  cbv zeta. unfold Supervisor.start. cbn [Supervisor.isCancelled].
  destruct ic; [ repeat split; now left |].
  unfold Supervisor.start_finish.
  destruct (browser _) as [rf ml].
  cbn [Supervisor.resumeFails Supervisor.moduleLoads].
  destruct rf, ml; cbn; repeat split; auto.
Qed.

Section Config.

Variable self_Meyda : Meyda.Object.

(** C3 (amended): a configuration with [expectedSpeakers <= 0] is not
    validated, neither by the hook nor by the worker.  The hook starts as
    for any other value, writes the same console lines and posts the
    value unchanged.  The worker stores 2 for 0 and the negative value
    itself otherwise, and its reply and the rest of its state are those
    of any other configuration: they depend on whether Meyda was set up
    before and on the Meyda object, never on the value.  Afterwards the
    first guard of [processFrame] lets frames through. *)
Theorem config_not_validated expected rate s :
  (expected <= 0)%Z ->
  let '(s', out) := onmessage self_Meyda (MConfig (Some expected) rate) s in
  expectedSpeakers (cfg s') = (if (expected =? 0)%Z then 2 else expected)%Z
  /\ meyda s' = true
  /\ (forall expected',
        let '(s'', out') := onmessage self_Meyda (MConfig expected' rate) s in
        out' = out
        /\ s'' = set_cfg (mkCfg (z_or_else expected' 2)
                            (z_or_else rate 16000)) s')
  /\ out = (if meyda s || Meyda.has_m self_Meyda
            then [Ready] else [Error Meyda.no_m])
  /\ (forall sampleRate browser h valid,
        let h1 := Supervisor.start (Some expected) sampleRate browser h in
        let h2 := Supervisor.start (Some valid) sampleRate browser h in
        Supervisor.console h1 = Supervisor.console h2
        /\ Supervisor.workerRef h1 = Supervisor.workerRef h2
        /\ Supervisor.heartbeatIntervalRef h1
           = Supervisor.heartbeatIntervalRef h2
        /\ (Supervisor.inbox h1 = Supervisor.inbox h2
            \/ (Supervisor.inbox h1
                = [MConfig (Some expected) (Some sampleRate)]
                /\ Supervisor.inbox h2
                   = [MConfig (Some valid) (Some sampleRate)]))).
Proof.
  intros He. rewrite onmessage_config.
  split; [| split; [| split; [| split ] ] ].
  - cbn. unfold z_or_else.
    destruct expected as [| p | p]; try lia; reflexivity.
  - reflexivity.
  - intros expected'. rewrite onmessage_config.
    split; [ reflexivity |].
    destruct s as [m fb cs cur st ls sf nf q c]. reflexivity.
  - reflexivity.
  - intros sampleRate browser h valid.
    exact (start_any_config (Some expected) (Some valid) sampleRate
             browser h).
Qed.

End Config.
End ConfigFacts.

(* ================================================================== *)
(** * The statements on concrete sessions *)
(* ================================================================== *)

Module Checks.
Import Worker WorkerSpec Scenario.


(** A session set up for zero speakers starts as any other: nothing is
    written to the console, the value is posted to the worker as it is,
    and the next chunk of audio is forwarded.  The worker answers it, and
    a configuration for minus one speaker, as it answers a configuration
    for two. *)
Lemma nonpositive_config_not_rejected :
  let h := Supervisor.mount (Some 0%Z) 48000 Supervisor.online
             Supervisor.unmounted in
  Supervisor.console h = []
  /\ Supervisor.heartbeatIntervalRef h = true
  /\ Supervisor.inbox h = [MConfig (Some 0%Z) (Some 48000%Z)]
  /\ Supervisor.inbox (Capture.on_chunk 1000 48000 voice_a h)
     = [MConfig (Some 0%Z) (Some 48000%Z); MAudio voice_a 1000]
  /\ onmessage Meyda.shipped (MConfig (Some 0%Z) (Some 48000%Z)) init
     = onmessage Meyda.shipped (MConfig (Some 2%Z) (Some 48000%Z)) init
  /\ snd (onmessage Meyda.shipped (MConfig (Some (-1)%Z) (Some 48000%Z))
            init)
     = snd (onmessage Meyda.shipped (MConfig (Some 2%Z) (Some 48000%Z))
              init)
  /\ expectedSpeakers
       (cfg (fst (onmessage Meyda.shipped
                    (MConfig (Some (-1)%Z) (Some 48000%Z)) init)))
     = (-1)%Z.
Proof. vm_compute. repeat split. Qed.

Lemma config_not_validated_witness :
  (-1 <= 0)%Z
  /\ expectedSpeakers
       (cfg (fst (onmessage Meyda.shipped
                    (MConfig (Some (-1)%Z) (Some 48000%Z)) init)))
     = (-1)%Z
  /\ snd (onmessage Meyda.shipped (MConfig (Some (-1)%Z) (Some 48000%Z))
            init)
     = [Error Meyda.no_m].
Proof.
  assert (H : (-1 <= 0)%Z) by lia.
  split; [ exact H |].
  pose proof (ConfigFacts.config_not_validated Meyda.shipped (-1)%Z
                (Some 48000%Z) init H) as T.
  destruct (onmessage Meyda.shipped (MConfig (Some (-1)%Z) (Some 48000%Z))
              init) as [s out].
  destruct T as (Hcfg & _ & _ & Hout & _).
  split; [ exact Hcfg | exact Hout ].
Defined.

(** With a Meyda object that answers, a session configured for minus one
    speaker clusters all the same: one centroid, one more than
    configured. *)
Example negative_config_session_runs :
  let s := fst (run toy (MConfig (Some (-1)%Z) (Some 48000%Z) :: talk)
                  init) in
  map id (centroids s) = ["S1"%string]
  /\ currentSpeakerId s = Some "S1"%string
  /\ expectedSpeakers (cfg s) = (-1)%Z.
Proof. vm_compute. repeat split. Qed.

(** C4: the worker as the script stands, configured by the hook,
    receives a frame with a NaN sample: the frame raises at
    [meyda.process()] and the handler posts an [error]; the state is as
    before.  An empty frame is dropped without a message. *)
Theorem nan_frame_posts_error :
  onmessage Meyda.shipped (MAudio [0.5; nan] 800) Cases.configured
  = (Cases.configured, [Error Meyda.no_process])
  /\ onmessage Meyda.shipped (MAudio [] 800) Cases.configured
     = (Cases.configured, [])
  /\ Supervisor.console
       (Supervisor.steps (Some 2%Z) 48000 Supervisor.online
          (Capture.deliveries
             (snd (onmessage Meyda.shipped (MAudio [0.5; nan] 800)
                     Cases.configured)))
          Supervisor.mounted)
     = [Supervisor.ErrorWorker Meyda.no_process].
Proof. vm_compute. repeat split. Qed.

(** With a Meyda object that answers, the [rms] of such a frame is NaN
    and the frame is dropped at the features guard, silently. *)
Example nan_frame_dropped_by_guard :
  onmessage toy (MAudio [0.5; nan] 800) talking = (talking, []).
Proof.
  assert (H : exists x, In x [0.5; nan] /\ is_nan x = true).
  { exists nan. split; [ right; left; reflexivity | reflexivity ]. }
  destruct H as (x & Hin & Hx).
  assert (Hrms : energy_is_rms toy).
  { intros frame features [= <-]. reflexivity. }
  destruct (WorkerFacts.nan_frame_state toy [0.5; nan] 800 talking x
              Hrms Hin Hx) as [_ [Hd | [err Hd]]]; [ exact Hd |].
  exfalso. revert Hd. vm_compute. discriminate.
Qed.

(** A vector with a NaN coefficient, or vectors so large that the dot
    product overflows, have a NaN distance to the centroid: the
    clustering call returns no speaker, it throws. *)
Lemma nan_vector_gets_no_speaker :
  detectSpeaker 2 [nan; 0] [mkCentroid "S1"%string [1; 0]]
  = Thrown type_error
  /\ detectSpeaker 2 [1e200; 0] [mkCentroid "S1"%string [1e200; 0]]
     = Thrown type_error
  /\ ~ (forall expected mean cs, cs <> [] ->
          exists spk cs', detectSpeaker expected mean cs
                          = Detected spk cs').
Proof.
  assert (H : detectSpeaker 2 [nan; 0] [mkCentroid "S1"%string [1; 0]]
              = Thrown type_error) by (vm_compute; reflexivity).
  split; [ exact H |]. split; [ vm_compute; reflexivity |].
  intros A.
  destruct (A 2%Z [nan; 0] [mkCentroid "S1"%string [1; 0]]
              ltac:(discriminate)) as (spk & cs' & E).
  rewrite H in E. discriminate E.
Qed.

Lemma clustering_step_witness :
  let cs := centroids talking in
  let mean := [0.5; 0.5; -0.5] in
  cs <> []
  /\ Forall (fun d => is_nan d = false) (distances mean cs)
  /\ exists closestIdx closest,
       nth_error cs closestIdx = Some closest
       /\ (cosineDistance mean (vector closest)
           =? JS.Math_min (distances mean cs)) = true.
Proof.
  intros cs mean.
  assert (Hne : cs <> []) by (vm_compute; discriminate).
  assert (Hall : Forall (fun d => is_nan d = false) (distances mean cs)).
  { vm_compute. repeat constructor. }
  split; [ exact Hne |]. split; [ exact Hall |].
  destruct (ClusterFacts.clustering_step 2 mean cs Hne Hall)
    as (_ & i & c & Hc & Hd & _).
  exists i, c. split; [ exact Hc | exact Hd ].
Defined.

Lemma vad_classifies_witness :
  let s := fst (run toy (config2 :: talk) init) in
  features_of toy s voice_a = Some (0.5, [0.5; -0.5; 0.5])
  /\ energy_is_rms toy
  /\ noiseFloor (state (processFrame toy voice_a 800 s))
     = noiseFloor s * 0.995 + 0.5 * 0.005
  /\ silenceFrames (state (processFrame toy voice_a 800 s)) = 0%nat
  /\ features_of Meyda.shipped Cases.configured voice_a = None
  /\ state (processFrame Meyda.shipped voice_a 800 Cases.configured)
     = Cases.configured.
Proof.
  intros s.
  assert (Hf : features_of toy s voice_a = Some (0.5, [0.5; -0.5; 0.5]))
    by (vm_compute; reflexivity).
  assert (Hrms : energy_is_rms toy).
  { intros frame features [= <-]. reflexivity. }
  assert (Hn : features_of Meyda.shipped Cases.configured voice_a = None)
    by (vm_compute; reflexivity).
  split; [ exact Hf |]. split; [ exact Hrms |].
  destruct (VadFacts.vad_classifies_by_adaptive_threshold toy
              (config2 :: talk) voice_a 800) as [_ Hvad].
  destruct (Hvad _ _ Hf) as (Hnoise & _ & _ & Hspeech).
  destruct (Hspeech Hrms) as (_ & _ & _ & _ & _ & [Hs _] & _).
  split; [ exact Hnoise |].
  split; [ apply Hs; vm_compute; reflexivity |].
  split; [ exact Hn |].
  destruct (VadFacts.vad_classifies_by_adaptive_threshold Meyda.shipped
              [config2] voice_a 800) as [Hdrop _].
  destruct (Hdrop Hn) as [Hstate _]. exact Hstate.
Defined.

(** A frame can leave the noise floor as it is.  As the script stands, a
    frame the configured worker receives raises before the detector and
    only an [error] is posted.  With a Meyda object that answers, a frame
    of zeros has an [rms] of 0, which the features guard takes for a
    missing feature. *)
Lemma frame_leaves_noise_floor :
  onmessage Meyda.shipped (MAudio voice_a 800) Cases.configured
  = (Cases.configured, [Error Meyda.no_process])
  /\ (noiseFloor Cases.configured
      =? noiseFloor Cases.configured * 0.995
         + Meyda.featureExtractors.rms voice_a * 0.005) = false
  /\ Meyda.featureExtractors.rms [0; 0; 0; 0] = 0
  /\ processFrame toy [0; 0; 0; 0] 800 talking = done talking
  /\ (noiseFloor talking
      =? noiseFloor talking * 0.995
         + Meyda.featureExtractors.rms [0; 0; 0; 0] * 0.005) = false.
Proof. vm_compute. repeat split. Qed.

(** With a Meyda object that answers: ten silent frames, the threshold,
    keep the segment open and post nothing; the eleventh closes it. *)
Example eleventh_silent_frame_closes :
  run toy (audio ten_silent) talking
  = (fst (run toy (audio ten_silent) talking), [])
  /\ currentSpeakerId (fst (run toy (audio ten_silent) talking))
     = Some "S1"%string
  /\ snd (run toy (audio eleven_silent) talking)
     = [Segments [mkSegment "S1"%string 600 700]].
Proof. vm_compute. repeat split. Qed.

Lemma silence_closes_witness :
  all_silent toy talking ten_silent
  /\ currentSpeakerId (fst (run toy (audio ten_silent) talking))
     = Some "S1"%string
  /\ currentSpeakerId
       (fst (onmessage toy (MAudio hush 1800)
               (fst (run toy (audio ten_silent) talking))))
     = None.
Proof.
  assert (Hs : all_silent toy talking ten_silent).
  { vm_compute. repeat split. }
  split; [ exact Hs |].
  pose proof (VadFacts.silence_closes_at_threshold toy ten_silent talking
                Hs) as H.
  assert (Hc : classify toy (fst (run toy (audio ten_silent) talking))
                 hush = Some false) by (vm_compute; reflexivity).
  destruct (run toy (audio ten_silent) talking) as [s' out].
  cbn [fst] in *.
  destruct H as (_ & Hkeep & Hclose & _).
  destruct Hkeep as [Hopen _]; [ vm_compute; lia |].
  assert (Hspk : currentSpeakerId s' = Some "S1"%string).
  { rewrite Hopen. vm_compute. reflexivity. }
  split; [ exact Hspk |].
  apply (Hclose hush 1800 "S1"%string Hc Hspk). vm_compute. lia.
Defined.

Lemma finalized_segments_witness :
  forallb not_stop (monologue ++ reply) = true
  /\ nondecreasing (audio_times (monologue ++ reply)) = true
  /\ Forall positive
       (segments_of
          (snd (run toy ((monologue ++ reply) ++ [MStop None])
                  init))).
Proof.
  assert (H1 : forallb not_stop (monologue ++ reply) = true)
    by (vm_compute; reflexivity).
  assert (H2 : nondecreasing (audio_times (monologue ++ reply)) = true)
    by (vm_compute; reflexivity).
  split; [ exact H1 |]. split; [ exact H2 |].
  destruct (OrderFacts.finalized_segments_sorted_disjoint toy
              (monologue ++ reply) None H1 H2) as (_ & Hpos & _).
  exact Hpos.
Defined.

Lemma speakers_bounded_witness :
  (1 <= 2)%Z
  /\ forallb in_session (talk ++ reply) = true
  /\ (Z.of_nat
        (length (centroids (fst (run toy (config2 :: talk ++ reply)
                                   init)))) <= 2)%Z.
Proof.
  assert (H1 : (1 <= 2)%Z) by lia.
  assert (H2 : forallb in_session (talk ++ reply) = true)
    by (vm_compute; reflexivity).
  split; [ exact H1 |]. split; [ exact H2 |].
  pose proof (SpeakerFacts.speakers_bounded_and_sequential toy 2
                (Some 48000%Z) (talk ++ reply) H1 H2) as H.
  unfold config2.
  destruct (run toy
              (MConfig (Some 2%Z) (Some 48000%Z) :: talk ++ reply) init)
    as [s out].
  apply H.
Defined.

Lemma heartbeat_policy_witness :
  Supervisor.started Supervisor.mounted
  /\ Supervisor.isCancelled Supervisor.mounted = false
  /\ Supervisor.restartAttemptsRef Supervisor.mounted = 0%nat
  /\ Supervisor.moduleLoads
       (Supervisor.online (Supervisor.workers Supervisor.mounted)) = true
  /\ Supervisor.workers
       (Supervisor.steps (Some 2%Z) 48000 Supervisor.online
          Supervisor.missed_cycle Supervisor.mounted) = 2%nat
  /\ Supervisor.moduleLoads
       (Supervisor.offline (Supervisor.workers Supervisor.mounted)) = false
  /\ Supervisor.workerRef
       (Supervisor.steps (Some 2%Z) 48000 Supervisor.offline
          Supervisor.missed_cycle Supervisor.mounted) = None.
Proof.
  assert (Hs : Supervisor.started Supervisor.mounted).
  { repeat split; discriminate. }
  split; [ exact Hs |]. split; [ reflexivity |]. split; [ reflexivity |].
  split; [ reflexivity |].
  destruct (SupervisorFacts.heartbeat_policy (Some 2%Z) 48000
              Supervisor.online Supervisor.mounted Hs eq_refl eq_refl)
    as (Hload & _).
  destruct (Hload eq_refl) as (_ & Hw & _).
  split; [ exact Hw |]. split; [ reflexivity |].
  destruct (SupervisorFacts.heartbeat_policy (Some 2%Z) 48000
              Supervisor.offline Supervisor.mounted Hs eq_refl eq_refl)
    as (_ & Hfail & _).
  destruct (Hfail eq_refl) as (Hnone & _).
  exact Hnone.
Defined.

(** One unanswered ping is enough for a restart. *)
Lemma one_missed_pong_restarts :
  Supervisor.workers
    (Supervisor.steps (Some 2%Z) 48000 Supervisor.online
       Supervisor.missed_cycle Supervisor.mounted) = 2%nat
  /\ ~ (forall h, Supervisor.started h ->
          Supervisor.workers
            (Supervisor.steps (Some 2%Z) 48000 Supervisor.online
               Supervisor.missed_cycle h)
          = Supervisor.workers h).
Proof.
  split; [ reflexivity |].
  intros H. specialize (H Supervisor.mounted).
  assert (Hs : Supervisor.started Supervisor.mounted)
    by (repeat split; discriminate).
  specialize (H Hs). discriminate H.
Qed.

(** A second voice gets the next id, and the first segment is closed at
    the frame that detects it. *)
Example second_speaker_detected :
  snd (run toy (config2 :: talk ++ reply) init)
  = [Ready; ActiveSpeaker "S1"%string;
     Segments [mkSegment "S1"%string 600 2400];
     ActiveSpeaker "S2"%string].
Proof. vm_compute. reflexivity. Qed.

(** A session handled after a stop starts from the adapted noise floor. *)
Example noise_floor_survives_stop :
  noiseFloor (fst (run toy (monologue ++ [MStop None; config2]) init))
  = 0.019109666978649239
  /\ noiseFloor init = 0.003.
Proof. split; vm_compute; reflexivity. Qed.

End Checks.

(* ================================================================== *)
(** * The further statements on concrete inputs *)
(* ================================================================== *)

Module MoreChecks.
Import Worker WorkerSpec SessionSpec Scenario Cases.

Lemma no_speaker_before_six_frames_witness :
  (count is_audio five_frames < 6)%nat
  /\ count about_speech (snd (run toy five_frames init)) = 0%nat.
Proof.
  assert (H : (count is_audio five_frames < 6)%nat)
    by (vm_compute; lia).
  split; [ exact H |].
  pose proof (SilenceFacts.no_speaker_before_six_frames toy
                five_frames H) as T.
  destruct (run toy five_frames init) as [s out].
  destruct T as [T _]. exact T.
Defined.

Lemma speaker_change_abuts_witness :
  In (ActiveSpeaker "S2"%string)
    (snd (onmessage toy (MAudio voice_b 2400)
            (fst (run toy before_change init))))
  /\ forall g,
       In g (segments_of
               (snd (onmessage toy (MAudio voice_b 2400)
                       (fst (run toy before_change init))))) ->
       endMs g = 2400.
Proof.
  assert (H : In (ActiveSpeaker "S2"%string)
                (snd (onmessage toy (MAudio voice_b 2400)
                        (fst (run toy before_change init)))))
    by (vm_compute; right; left; reflexivity).
  split; [ exact H |].
  pose proof (BoundaryFacts.speaker_change_abuts toy before_change
                voice_b 2400) as T.
  cbv zeta in T.
  destruct (onmessage toy (MAudio voice_b 2400)
              (fst (run toy before_change init))) as [s' out].
  destruct (T "S2"%string H) as (_ & _ & _ & Hseg).
  intros g Hg. destruct (Hseg g Hg) as (_ & _ & He). exact He.
Defined.

Lemma silence_round_trip_witness :
  all_silent toy (fst (run toy (config2 :: talk) init))
    eleven_silent
  /\ (length
        (segments_of
           (snd (run toy (audio eleven_silent)
                   (fst (run toy (config2 :: talk) init)))))
      <= 1)%nat.
Proof.
  assert (H : all_silent toy
                (fst (run toy (config2 :: talk) init)) eleven_silent).
  { vm_compute. repeat split. }
  split; [ exact H |].
  pose proof (SilenceFacts.silence_round_trip toy (config2 :: talk)
                eleven_silent H) as T.
  destruct (run toy (audio eleven_silent)
              (fst (run toy (config2 :: talk) init))) as [s' out].
  destruct T as (_ & T & _). exact T.
Defined.

Lemma nan_distance_throws_witness :
  [mkCentroid "S1"%string [1; 0]] <> []
  /\ detectSpeaker 2 [nan; 0] [mkCentroid "S1"%string [1; 0]]
     = Thrown type_error.
Proof.
  assert (H : [mkCentroid "S1"%string [1; 0]] <> []) by discriminate.
  split; [ exact H |].
  destruct (ErrorFacts.nan_distance_throws 2 [nan; 0]
              [mkCentroid "S1"%string [1; 0]] H) as [[_ T] _].
  apply T. exists (mkCentroid "S1"%string [1; 0]).
  split; [ left; reflexivity | vm_compute; reflexivity ].
Defined.

Lemma frame_error_contained_witness :
  let s := fst (run nan_mfcc (config2 :: talk) init) in
  In (Error type_error) (snd (onmessage nan_mfcc (MAudio voice_a 800) s))
  /\ centroids (fst (onmessage nan_mfcc (MAudio voice_a 800) s))
     = centroids s
  /\ lastSpeechTimestamp (fst (onmessage nan_mfcc (MAudio voice_a 800) s))
     = 800
  /\ In (Error Meyda.no_process)
       (snd (onmessage Meyda.shipped (MAudio voice_a 800) configured))
  /\ fst (onmessage Meyda.shipped (MAudio voice_a 800) configured)
     = configured.
Proof.
  intros s.
  assert (H : In (Error type_error)
                (snd (onmessage nan_mfcc (MAudio voice_a 800) s)))
    by (vm_compute; left; reflexivity).
  assert (Hf : features_of nan_mfcc s voice_a = Some (0.5, [nan]))
    by (vm_compute; reflexivity).
  assert (H' : In (Error Meyda.no_process)
                 (snd (onmessage Meyda.shipped (MAudio voice_a 800)
                         configured)))
    by (vm_compute; left; reflexivity).
  assert (Hf' : features_of Meyda.shipped configured voice_a = None)
    by (vm_compute; reflexivity).
  split; [ exact H |].
  pose proof (ErrorFacts.frame_error_contained nan_mfcc voice_a 800 s)
    as T.
  destruct (onmessage nan_mfcc (MAudio voice_a 800) s) as [s' out].
  destruct T as [_ T]. destruct (T type_error H) as (_ & Hc & _ & _ & _ & Hm).
  rewrite Hf in Hm. destruct Hm as (_ & Hl & _).
  split; [ exact Hc |]. split; [ exact Hl |]. split; [ exact H' |].
  pose proof (ErrorFacts.frame_error_contained Meyda.shipped voice_a 800
                configured) as T'.
  destruct (onmessage Meyda.shipped (MAudio voice_a 800) configured)
    as [s'' out''].
  destruct T' as [_ T']. destruct (T' _ H') as (_ & _ & _ & _ & _ & Hm').
  rewrite Hf' in Hm'. destruct Hm' as [Hs _]. exact Hs.
Defined.

(** The worker as the script stands answers the pings, and its first
    configuration with an [error]. *)
Lemma worker_replies_witness :
  meyda init || Meyda.has_m Meyda.shipped = false
  /\ count is_ready
       (snd (run Meyda.shipped [config2; MPing; config2; MPing] init))
     = 1%nat
  /\ count is_pong
       (snd (run Meyda.shipped [config2; MPing; config2; MPing] init))
     = 2%nat.
Proof.
  assert (H : meyda init || Meyda.has_m Meyda.shipped = false)
    by reflexivity.
  split; [ exact H |].
  destruct (SessionFacts.worker_replies Meyda.shipped
              [config2; MPing; config2; MPing] init)
    as (Hp & _ & _ & Hr).
  destruct (Hr H) as [Hr1 _].
  split; [ exact Hr1 | exact Hp ].
Defined.

Lemma cosineDistance_degenerate_witness :
  zero_vector [0; -0] /\ cosineDistance [0; -0] [1; 2] = 1.
Proof.
  assert (H : zero_vector [0; -0]).
  { repeat constructor. }
  split; [ exact H |].
  exact (CosineFacts.cosineDistance_degenerate [0; -0] [1; 2]
           (or_intror (or_introl H))).
Defined.

Lemma unconfigured_worker_inert_witness :
  forallb (fun m => negb (is_config m)) stray = true
  /\ run toy stray init = (init, [Pong; Pong]).
Proof.
  assert (H : forallb (fun m => negb (is_config m)) stray = true)
    by reflexivity.
  split; [ exact H |].
  exact (SessionFacts.unconfigured_worker_inert toy stray H).
Defined.

Lemma session_after_stop_starts_over_witness :
  (1 <= 2)%Z /\ forallb in_session talk = true
  /\ centroids (fst (onmessage toy (MStop None) talking)) = [].
Proof.
  assert (H1 : (1 <= 2)%Z) by lia.
  assert (H2 : forallb in_session talk = true) by reflexivity.
  split; [ exact H1 |]. split; [ exact H2 |].
  pose proof (ErrorFacts.session_after_stop_starts_over toy None 2
                (Some 48000%Z) talk talking H1 H2) as T.
  cbv zeta in T.
  destruct (run toy (MConfig (Some 2%Z) (Some 48000%Z) :: talk)
              (fst (onmessage toy (MStop None) talking)))
    as [s2 out].
  destruct T as [T _]. exact T.
Defined.

Lemma session_after_stop_ordered_witness :
  forallb not_stop monologue = true
  /\ nondecreasing (audio_times monologue) = true
  /\ Forall positive
       (segments_of
          (snd (run toy (monologue ++ [MStop None])
                  (fst (onmessage toy (MStop None) talking))))).
Proof.
  assert (H1 : forallb not_stop monologue = true)
    by (vm_compute; reflexivity).
  assert (H2 : nondecreasing (audio_times monologue) = true)
    by (vm_compute; reflexivity).
  split; [ exact H1 |]. split; [ exact H2 |].
  destruct (ErrorFacts.session_after_stop_ordered toy None monologue
              None talking H1 H2) as [T _].
  exact T.
Defined.

Lemma worklet_preserves_stream_witness :
  Worklet.ready small /\ Worklet.fits small quanta
  /\ Worklet.thrown (Worklet.run quanta small) = None
  /\ concat (Worklet.posted (Worklet.run quanta small))
     ++ Worklet.pending (Worklet.processor (Worklet.run quanta small))
     = [0.1; 0.2; 0.3; 0.4; 0.5; 0.6].
Proof.
  assert (H1 : Worklet.ready small) by (split; [ reflexivity | simpl; lia ]).
  assert (H2 : Worklet.fits small quanta).
  { repeat constructor; simpl; lia. }
  split; [ exact H1 |]. split; [ exact H2 |].
  destruct (WorkletFacts.worklet_preserves_stream quanta small H1 H2)
    as (T1 & _ & _ & T2).
  split; [ exact T1 | exact T2 ].
Defined.

Lemma worklet_chunk_count_witness :
  Worklet.ready small /\ Worklet.fits small quanta
  /\ length (Worklet.posted (Worklet.run quanta small)) = 1%nat
  /\ Worklet.bufferIndex (Worklet.processor (Worklet.run quanta small))
     = 2%nat.
Proof.
  assert (H1 : Worklet.ready small) by (split; [ reflexivity | simpl; lia ]).
  assert (H2 : Worklet.fits small quanta).
  { repeat constructor; simpl; lia. }
  split; [ exact H1 |]. split; [ exact H2 |].
  destruct (WorkletFacts.worklet_chunk_count quanta small H1 H2)
    as [T1 T2].
  split; [ exact T1 | exact T2 ].
Defined.

Lemma worklet_oversize_input_throws_witness :
  Worklet.ready small
  /\ (Worklet.bufferSize small - Worklet.bufferIndex small
      + Worklet.bufferSize small < length oversize)%nat
  /\ Worklet.thrown (Worklet.process (Some oversize) small)
     = Some Worklet.range_error
  /\ Worklet.posted (Worklet.process (Some oversize) small)
     = [Worklet.pending small
        ++ firstn (Worklet.bufferSize small - Worklet.bufferIndex small)
             oversize].
Proof.
  assert (H1 : Worklet.ready small) by (split; [ reflexivity | simpl; lia ]).
  assert (H2 : (Worklet.bufferSize small - Worklet.bufferIndex small
                + Worklet.bufferSize small < length oversize)%nat)
    by (simpl; lia).
  split; [ exact H1 |]. split; [ exact H2 |].
  destruct (WorkletEdge.worklet_oversize_input_throws oversize small H1 H2)
    as (T1 & T2 & _).
  split; [ exact T1 | exact T2 ].
Defined.

Lemma chunks_forwarded_in_order_witness :
  Supervisor.workerRef Supervisor.mounted <> None
  /\ exists msgs,
       Supervisor.inbox
         (Capture.feed 1000 48000 [[0.1; 0.2]; [0.3]] Supervisor.mounted)
       = Supervisor.inbox Supervisor.mounted ++ msgs
       /\ Capture.frames_of msgs = [[0.1; 0.2]; [0.3]].
Proof.
  assert (H : Supervisor.workerRef Supervisor.mounted <> None)
    by discriminate.
  split; [ exact H |].
  destruct (CaptureFacts.chunks_forwarded_in_order 1000 48000
              [[0.1; 0.2]; [0.3]] Supervisor.mounted H)
    as (msgs & T1 & T2 & _).
  exists msgs. split; [ exact T1 | exact T2 ].
Defined.

Lemma audio_path_preserves_samples_witness :
  Supervisor.workerRef Supervisor.mounted <> None
  /\ Worklet.fits Worklet.create microphone
  /\ exists msgs,
       Supervisor.inbox
         (Capture.feed 1000 48000
            (Worklet.posted (Worklet.run microphone Worklet.create))
            Supervisor.mounted)
       = Supervisor.inbox Supervisor.mounted ++ msgs
       /\ length msgs
          = (length (Worklet.samples microphone) / Worklet.CHUNK_SIZE)%nat.
Proof.
  assert (H1 : Supervisor.workerRef Supervisor.mounted <> None)
    by discriminate.
  assert (H2 : Worklet.fits Worklet.create microphone).
  { apply Forall_forall. intros x Hx. apply repeat_spec in Hx. subst x.
    apply Nat.leb_le. vm_compute. reflexivity. }
  split; [ exact H1 |]. split; [ exact H2 |].
  destruct (CaptureFacts.audio_path_preserves_samples 1000 48000 microphone
              Supervisor.mounted H1 H2)
    as (msgs & T1 & _ & _ & T2 & _).
  exists msgs. split; [ exact T1 | exact T2 ].
Defined.

Lemma segments_delivered_in_order_witness :
  Supervisor.workerRef Supervisor.mounted <> None
  /\ Supervisor.segmentsRef
       (Supervisor.steps (Some 2%Z) 48000 Supervisor.online
          (Capture.deliveries (snd (run toy monologue init)))
          Supervisor.mounted)
     = Supervisor.segmentsRef Supervisor.mounted
       ++ segments_of (snd (run toy monologue init)).
Proof.
  assert (H : Supervisor.workerRef Supervisor.mounted <> None)
    by discriminate.
  split; [ exact H |].
  destruct (DeliveryFacts.segments_delivered_in_order (Some 2%Z) 48000
              Supervisor.online
              (snd (run toy monologue init)) Supervisor.mounted H)
    as (T & _).
  exact T.
Defined.

Lemma hook_shows_open_speaker_witness :
  Supervisor.workerRef Supervisor.mounted <> None
  /\ currentSpeakerId (fst (run toy (config2 :: talk) init))
     = Some "S1"%string
  /\ Supervisor.activeSpeaker
       (Supervisor.steps (Some 2%Z) 48000 Supervisor.online
          (Capture.deliveries (snd (run toy (config2 :: talk) init)))
          Supervisor.mounted)
     = Some "S1"%string.
Proof.
  assert (H : Supervisor.workerRef Supervisor.mounted <> None)
    by discriminate.
  assert (Hs : currentSpeakerId (fst (run toy (config2 :: talk) init))
               = Some "S1"%string) by (vm_compute; reflexivity).
  split; [ exact H |]. split; [ exact Hs |].
  pose proof (ShownFacts.hook_shows_open_speaker toy (Some 2%Z) 48000
                Supervisor.online
                (config2 :: talk) Supervisor.mounted H) as T.
  destruct (run toy (config2 :: talk) init) as [s out].
  exact (T "S1"%string Hs).
Defined.

Lemma responsive_worker_kept_witness :
  Supervisor.started Supervisor.mounted
  /\ Capture.answered false answered_cycles = true
  /\ Supervisor.workers
       (Supervisor.steps (Some 2%Z) 48000 Supervisor.online
          answered_cycles
          Supervisor.mounted)
     = Supervisor.workers Supervisor.mounted.
Proof.
  assert (H1 : Supervisor.started Supervisor.mounted)
    by (repeat split; discriminate).
  assert (H2 : Capture.answered false answered_cycles = true)
    by reflexivity.
  split; [ exact H1 |]. split; [ exact H2 |].
  destruct (HeartbeatFacts.responsive_worker_kept (Some 2%Z) 48000
              Supervisor.online
              answered_cycles Supervisor.mounted H1 H2) as (_ & T & _).
  exact T.
Defined.

Lemma speakers_enrolled_by_count_witness :
  let first :=
    SameThread.newModel 1900 "S1"%string
      [SameThread.mkFeatures 0.5 100 30 1900] in
  SameThreadSpec.enrolled [first]
  /\ fst (SameThread.detectSpeaker FEATURE_WINDOW_SIZE
            SPEAKER_CHANGE_THRESHOLD 2 2300
            [SameThread.mkFeatures 0.5 100 30 2300] [first])
     = "S2"%string.
Proof.
  intros first.
  assert (H : SameThreadSpec.enrolled [first]) by reflexivity.
  split; [ exact H |].
  pose proof (SameThreadFacts.speakers_enrolled_by_count
                FEATURE_WINDOW_SIZE SPEAKER_CHANGE_THRESHOLD 2 2300
                [SameThread.mkFeatures 0.5 100 30 2300] [first] H) as T.
  destruct (SameThread.detectSpeaker FEATURE_WINDOW_SIZE
              SPEAKER_CHANGE_THRESHOLD 2 2300
              [SameThread.mkFeatures 0.5 100 30 2300] [first])
    as [spk models'].
  destruct T as [T _].
  destruct T as [T _]; [ right; simpl; lia |].
  exact T.
Defined.

Lemma same_thread_segments_ordered_witness :
  SameThread.clock_from 1000 hearing
  /\ Forall (fun g => (Hook.startMs g <= Hook.endMs g)%Z)
       (Hook.segments (SameThread.view (hear hearing))).
Proof.
  assert (H : SameThread.clock_from 1000 hearing)
    by (simpl; repeat split; lia).
  split; [ exact H |].
  destruct (SameThreadOrder.same_thread_segments_ordered SILENCE_THRESHOLD
              SILENCE_DURATION_MS FEATURE_WINDOW_SIZE
              SPEAKER_CHANGE_THRESHOLD MIN_SEGMENT_DURATION_MS FFT_SIZE 2
              (Some 1000%Z) 1000 hearing H) as [T _].
  exact T.
Defined.

Lemma empty_frame_counts_as_speech_witness :
  1000%Z <> 0%Z
  /\ SameThread.silenceCountRef
       (SameThread.processAudioData SILENCE_THRESHOLD SILENCE_DURATION_MS
          FEATURE_WINDOW_SIZE SPEAKER_CHANGE_THRESHOLD
          MIN_SEGMENT_DURATION_MS FFT_SIZE 2 (Some 1000%Z) 1100 [] 48000
          SameThread.mounted)
     = 0%nat.
Proof.
  assert (H : 1000%Z <> 0%Z) by discriminate.
  split; [ exact H |].
  destruct (TranscriptFacts.empty_frame_counts_as_speech SILENCE_THRESHOLD
              SILENCE_DURATION_MS FEATURE_WINDOW_SIZE
              SPEAKER_CHANGE_THRESHOLD MIN_SEGMENT_DURATION_MS FFT_SIZE 2
              1000 1100 48000 SameThread.mounted H) as (_ & T & _).
  exact T.
Defined.

Lemma byte_round_trip_witness :
  (0 <= 200 < 256)%Z /\ Quantize.quantize (SameThread.sample 200) = 200%Z.
Proof.
  assert (H : (0 <= 200 < 256)%Z) by lia.
  split; [ exact H |].
  exact (QuantizeFacts.byte_round_trip 200 H).
Defined.

(** One steady voice heard by the same-thread hook set for two speakers
    is cut into segments of [S1], [S2] and [S1]. *)
Example steady_voice_is_split :
  map Hook.speakerId (Hook.segments (SameThread.view (hear hearing)))
  = ["S1"; "S2"; "S1"]%string.
Proof. vm_compute. reflexivity. Qed.

(** The positive full scale wraps around to the byte of the negative
    one. *)
Example full_scale_wraps :
  Quantize.quantize 1 = 0%Z /\ Quantize.quantize (-1) = 0%Z
  /\ SameThread.sample 0 = -1.
Proof. repeat split; vm_compute; reflexivity. Qed.

(** After a change of speaker the last speech time is unset: a segment
    closed by silence right after it ends at the closing frame. *)
Example change_unsets_last_speech :
  lastSpeechTimestamp
    (fst (onmessage toy (MAudio voice_b 2400)
            (fst (run toy before_change init)))) = 0.
Proof. vm_compute. reflexivity. Qed.

End MoreChecks.
